(** * Insurance risk dashboard: the risk-scoring pipeline of [app.py]

    A shallow embedding of the data-preparation, balancing, gating and
    schema-alignment code of [src/app.py], with the properties the
    specification states about it.

    Conventions of the embedding.
    - A pandas [DataFrame] is a row count (its index) and an ordered
      association list of named columns; pandas allows two columns to carry
      the same label, and so does the model.
    - A cell is [NaN], a number or a string.  Numbers are exact rationals:
      the model keeps the IEEE rule that every comparison with [NaN] is
      false and leaves rounding out.
    - An exception raised by a library call is [None]. *)

From Stdlib Require Import QArith Qround Ascii.
From stdpp Require Import base list strings pretty gmap.

Close Scope Q_scope.

(** ** Cells, series and frames *)

Inductive cell : Type :=
  | NaN
  | Num (x : Q)
  | Str (s : string).

Inductive dtype : Type := int64 | float64 | int32 | bool_ | object_.

Record Series : Type := mkSeries { s_dtype : dtype; s_values : list cell }.

Record DataFrame : Type := mkFrame {
  nrows : nat;
  columns : list (string * Series)
}.

Global Instance dtype_eq_dec : EqDecision dtype.
Proof. solve_decision. Defined.

Global Instance cell_inhabited : Inhabited cell := populate NaN.

Definition names (df : DataFrame) : list string := (columns df).*1.

Definition isna (c : cell) : bool :=
  match c with NaN => true | _ => false end.

(** Every column is as long as the index. *)
Definition wf_frame (df : DataFrame) : Prop :=
  Forall (λ c, length (s_values c.2) = nrows df) (columns df).

(** [df[name]] on a frame: the first column with that label
    ([None] is pandas' [KeyError]). *)
Fixpoint lookup_col (name : string) (cols : list (string * Series)) : option Series :=
  match cols with
  | [] => None
  | c :: cols' => if decide (c.1 = name) then Some c.2 else lookup_col name cols'
  end.

Definition getitem (name : string) (df : DataFrame) : option Series :=
  lookup_col name (columns df).

(** The cell of column [name] in row [i]. *)
Definition cell_at (name : string) (df : DataFrame) (i : nat) : option cell :=
  getitem name df ≫= λ s, s_values s !! i.

(** [df[name] = s]: every column labelled [name] is replaced where the label
    exists, otherwise the column is appended on the right. *)
Definition setitem (name : string) (s : Series) (df : DataFrame) : DataFrame :=
  if decide (name ∈ names df)
  then mkFrame (nrows df)
         (map (λ c, if decide (c.1 = name) then (c.1, s) else c) (columns df))
  else mkFrame (nrows df) (columns df ++ [(name, s)]).

(** [df.drop(columns=labels)]: [KeyError] when a label is absent. *)
Definition drop_columns (labels : list string) (df : DataFrame) : option DataFrame :=
  if decide (Forall (λ l, l ∈ names df) labels)
  then Some (mkFrame (nrows df) (filter (λ c, c.1 ∉ labels) (columns df)))
  else None.

(** [df.drop(columns=labels, errors='ignore')]. *)
Definition drop_columns_ignore (labels : list string) (df : DataFrame) : DataFrame :=
  mkFrame (nrows df) (filter (λ c, c.1 ∉ labels) (columns df)).

(** The columns that carry the label [l]. *)
Definition group (l : string) (cols : list (string * Series)) : list (string * Series) :=
  filter (λ c, c.1 = l) cols.

(** [df[labels]] with a list of labels: for each label in turn, every column
    carrying it, in frame order; [KeyError] when a label matches nothing. *)
Definition getitem_list (labels : list string) (df : DataFrame) : option DataFrame :=
  mapM (λ l, match group l (columns df) with
             | [] => None
             | cs => Some cs
             end) labels
  ≫= λ groups, Some (mkFrame (nrows df) (concat groups)).

(** ** Order statistics of a numeric column (pandas skips [NaN]) *)

Definition present (vs : list cell) : list Q :=
  omap (λ c, match c with Num x => Some x | _ => None end) vs.

Fixpoint Qinsert (x : Q) (l : list Q) : list Q :=
  match l with
  | [] => [x]
  | y :: l' => if Qle_bool x y then x :: l else y :: Qinsert x l'
  end.

Definition Qsort (l : list Q) : list Q := foldr Qinsert [] l.

(** [Series.quantile(q)] with the default linear interpolation: position
    [(n-1)*q] in the sorted present values.  ([Qred] only puts the fraction
    in lowest terms.)  The interpolation is computed in exact rationals:
    what float64 rounding or overflow of [b - a] does to the value is left
    out, and the properties below rely only on the threshold being one
    value for the whole column, not on its arithmetic. *)
Definition quantile (q : Q) (vs : list cell) : cell :=
  let xs := Qsort (present vs) in
  match xs with
  | [] => NaN
  | x0 :: _ =>
      let h := (inject_Z (Z.of_nat (length xs - 1)) * q)%Q in
      let lo := Z.to_nat (Qfloor h) in
      let g := (h - inject_Z (Qfloor h))%Q in
      let a := nth lo xs x0 in
      let b := nth (Nat.min (S lo) (length xs - 1)) xs x0 in
      Num (Qred (a + (b - a) * g))
  end.

(** [Series.median()]. *)
Definition median (vs : list cell) : cell :=
  let xs := Qsort (present vs) in
  match xs with
  | [] => NaN
  | x0 :: _ =>
      let n := length xs in
      if Nat.even n
      then Num (Qred ((nth (n / 2 - 1) xs x0 + nth (n / 2) xs x0) / 2))
      else Num (nth (n / 2) xs x0)
  end.

(** Elementwise [>=] of a cell against a scalar: false as soon as one side
    is [NaN]. *)
Definition cell_ge (c t : cell) : bool :=
  match c, t with
  | Num x, Num y => Qle_bool y x
  | _, _ => false
  end.

(** [a >= t] on numbers; it never holds when a side is missing. *)
Definition at_least (a t : cell) : Prop :=
  ∃ x y, a = Num x ∧ t = Num y ∧ (y <= x)%Q.

(** [.astype(int)] of a boolean. *)
Definition bool_to_int (b : bool) : cell := if b then Num 1 else Num 0.

Definition is_int_or_float (d : dtype) : bool :=
  match d with int64 | float64 | int32 => true | _ => false end.

(** [numeric_only=True] keeps integer, float and boolean columns. *)
Definition is_numeric_or_bool (d : dtype) : bool :=
  match d with object_ => false | _ => true end.

(** ** Label derivation and imputation (lines 70-72) *)

Definition claim_amount_SZL : string := "claim_amount_SZL".
Definition claim_risk : string := "claim_risk".

(** The right-hand side of line 70:
    [(amt >= amt.quantile(0.75)).astype(int)]. *)
Definition raw_labels (amt : Series) : Series :=
  mkSeries int64
    (map (λ c, bool_to_int (cell_ge c (quantile (3 # 4) (s_values amt)))) (s_values amt)).

(** Line 70.  [quantile] raises on a column that is not of an integer or
    float dtype. *)
Definition derive_claim_risk (df : DataFrame) : option DataFrame :=
  amt ← getitem claim_amount_SZL df;
  if is_int_or_float (s_dtype amt)
  then Some (setitem claim_risk (raw_labels amt) df)
  else None.

(** Line 71: [df.fillna(df.median(numeric_only=True), inplace=True)]. *)
Definition fillna_value (v : cell) (vs : list cell) : list cell :=
  map (λ c, if isna c then v else c) vs.

Definition fillna_median_series (s : Series) : Series :=
  if is_numeric_or_bool (s_dtype s)
  then match median (s_values s) with
       | NaN => s
       | m => mkSeries (s_dtype s) (fillna_value m (s_values s))
       end
  else s.

Definition fillna_median (df : DataFrame) : DataFrame :=
  mkFrame (nrows df) (map (λ c, (c.1, fillna_median_series c.2)) (columns df)).

(** Line 72: [df.fillna('Unknown', inplace=True)]; a column that still holds
    a [NaN] takes the string and becomes an object column. *)
Definition Unknown : cell := Str "Unknown".

Definition fillna_unknown_series (s : Series) : Series :=
  if existsb isna (s_values s)
  then mkSeries object_ (fillna_value Unknown (s_values s))
  else s.

Definition fillna_unknown (df : DataFrame) : DataFrame :=
  mkFrame (nrows df) (map (λ c, (c.1, fillna_unknown_series c.2)) (columns df)).

(** The amount column as line 72 leaves it. *)
Definition imputed (amt : Series) : Series :=
  mkSeries (s_dtype amt) (fillna_value (median (s_values amt)) (s_values amt)).

(** Lines 70-72 in the order of the script. *)
Definition preprocess (df : DataFrame) : option DataFrame :=
  df1 ← derive_claim_risk df;
  Some (fillna_unknown (fillna_median df1)).

Definition Fz (z : Z) : cell := Num (inject_Z z).

(** ** The libraries the script calls

    The operations of pandas, numpy and scikit-learn whose results the
    script only passes on.  A [generator] is a numpy [RandomState]; a
    stochastic routine is a function of the generator it is handed and of
    its data, which is what scikit-learn documents for an integer
    [random_state]. *)

Record rf_params : Type := mkParams {
  n_estimators : nat;
  class_weight : Q * Q;
  max_depth : nat;
  min_samples_leaf : nat
}.

Class Library : Type := {
  (** [pd.to_datetime] on one cell: a parse error ([None]), the missing
      date [NaT] ([Some None], what a string such as 'NaT' parses to), or a
      year, month and day. *)
  to_datetime : cell → option (option (Z * Z * Z));
  (** dtype of [.dt.year] ([int64] before pandas 2, [int32] since). *)
  dt_part_dtype : dtype;
  (** dtype of the indicator columns of [get_dummies]. *)
  dummy_dtype : dtype;
  (** [str] of a number, as it appears in an indicator column's name. *)
  number_str : Q → string;
  generator : Type;
  (** [np.random.RandomState(seed)]. *)
  RandomState : Z → generator;
  (** [rng.randint(0, high, size)]; raises when [high] is 0. *)
  randint : generator → nat → nat → option (list nat);
  (** [KMeans(n_clusters, random_state).fit_predict(X)]. *)
  KMeans_fit_predict : nat → generator → DataFrame → option (list nat);
  (** Row positions chosen by [train_test_split(test_size, stratify)]. *)
  split_indices : generator → Q → nat → list cell → option (list nat * list nat);
  model : Type;
  RandomForest_fit : rf_params → generator → DataFrame → Series → option model;
  predict : model → DataFrame → option (list cell);
  predict_proba : model → DataFrame → option (list Q);
  (** [rf.feature_names_in_], when the attribute exists. *)
  feature_names_in_ : model → option (list string);
  (** Area under the ROC curve of the scores against the labels. *)
  roc_auc : list cell → list Q → option Q;
  (** Whether the process can create or overwrite the file at a path: the
      directory of the path exists and can be written to. *)
  writable : string → bool
}.


(** scikit-learn's [check_random_state]: an integer seeds a fresh generator,
    [None] is the process-wide generator of [np.random]. *)
Definition check_random_state `{Library} (random_state : option Z)
    (ambient : generator) : generator :=
  match random_state with
  | Some seed => RandomState seed
  | None => ambient
  end.

Section Preparation.
Context `{L : Library}.

(** ** Date columns (lines 75-82) *)

Definition date_cols : list string := ["policy_start_date"; "claim_date"].

(** [.dt.year], [.dt.month] or [.dt.day] of a parsed column: integers of
    dtype [dt_part_dtype], or, as soon as one date is [NaT], a [float64]
    column with [NaN] in the place of each [NaT]. *)
Definition date_part (f : Z * Z * Z → Z) (ds : list (option (Z * Z * Z))) : Series :=
  mkSeries (if forallb (λ d, bool_decide (is_Some d)) ds then dt_part_dtype else float64)
           (map (λ d, match d with Some ymd => Fz (f ymd) | None => NaN end) ds).

Definition date_features (col : string) (df : DataFrame) : option DataFrame :=
  match getitem col df with
  | None => Some df
  | Some s =>
      ds ← mapM to_datetime (s_values s);
      let df1 := setitem (col +:+ "_year") (date_part (λ d, d.1.1) ds) df in
      let df2 := setitem (col +:+ "_month") (date_part (λ d, d.1.2) ds) df1 in
      let df3 := setitem (col +:+ "_day") (date_part (λ d, d.2) ds) df2 in
      drop_columns [col] df3
  end.

Definition convert_dates (df : DataFrame) : option DataFrame :=
  foldl (λ acc col, acc ≫= date_features col) (Some df) date_cols.

(** The frame [df] as it stands when line 85 is reached. *)
Definition prepare (raw : DataFrame) : option DataFrame :=
  preprocess raw ≫= convert_dates.

(** ** Segmentation (lines 85-88) *)

Definition numeric_cols (df : DataFrame) : list string :=
  (filter (λ c, s_dtype c.2 = int64 ∨ s_dtype c.2 = float64) (columns df)).*1.

Definition X_segment (df : DataFrame) : option DataFrame :=
  drop_columns_ignore [claim_risk] <$> getitem_list (numeric_cols df) df.

Definition customer_segment : string := "customer_segment".

Definition assign_segments (ambient : generator) (df : DataFrame) : option DataFrame :=
  X ← X_segment df;
  labels ← KMeans_fit_predict 4 (check_random_state (Some 42%Z) ambient) X;
  Some (setitem customer_segment
          (mkSeries object_ (map (λ k : nat, Str (pretty k)) labels)) df).

(** ** One-hot encoding (lines 89-94) *)

Definition categorical_cols (df : DataFrame) : list string :=
  foldl (λ acc c,
           if decide (s_dtype c.2 = object_ ∧ (c.1 ∉ date_cols)
                      ∧ (c.1 ∉ [claim_amount_SZL; claim_risk]) ∧ (c.1 ∉ acc))
           then acc ++ [c.1] else acc)
        ["claim_type"; "gender"; "location"; "policy_type";
         "insurance_provider"; customer_segment]
        (columns df).

Definition cell_eqb (a b : cell) : bool :=
  match a, b with
  | Num x, Num y => Qeq_bool x y
  | Str s, Str t => String.eqb s t
  | _, _ => false
  end.

(** Distinct values in order of first appearance. *)
Fixpoint unique (vs : list cell) : list cell :=
  match vs with
  | [] => []
  | v :: vs' => v :: filter (λ c, negb (cell_eqb v c)) (unique vs')
  end.

Definition cell_leb (a b : cell) : bool :=
  match a, b with
  | Num x, Num y => Qle_bool x y
  | Str s, Str t => String.leb s t
  | _, _ => true
  end.

Fixpoint insert_cell (x : cell) (l : list cell) : list cell :=
  match l with
  | [] => [x]
  | y :: l' => if cell_leb x y then x :: l else y :: insert_cell x l'
  end.

Definition is_num (c : cell) : bool := match c with Num _ => true | _ => false end.
Definition is_str (c : cell) : bool := match c with Str _ => true | _ => false end.

(** The categories of a column: its distinct present values, sorted when
    they can be compared (all numbers or all strings), otherwise in order of
    appearance. *)
Definition levels (vs : list cell) : list cell :=
  let u := unique (filter (λ c, negb (isna c)) vs) in
  if forallb is_num u || forallb is_str u then foldr insert_cell [] u else u.

Definition cell_str (c : cell) : string :=
  match c with
  | Str s => s
  | Num x => number_str x
  | NaN => "nan"
  end.

Definition get_dummies_1d (prefix : string) (s : Series) : list (string * Series) :=
  map (λ lv, (prefix +:+ "_" +:+ cell_str lv,
              mkSeries dummy_dtype (map (λ c, bool_to_int (cell_eqb c lv)) (s_values s))))
      (levels (s_values s)).

(** [pd.get_dummies(df, columns=cols, drop_first=False)]: the other columns
    in place, then the indicator columns of each encoded column in turn. *)
Definition get_dummies (cols : list string) (df : DataFrame) : option DataFrame :=
  enc ← getitem_list cols df;
  Some (mkFrame (nrows df)
          (filter (λ c, c.1 ∉ cols) (columns df)
           ++ concat (map (λ c, get_dummies_1d c.1 c.2) (columns enc)))).

Definition df_encoded (df : DataFrame) : option DataFrame :=
  get_dummies (categorical_cols df) df.

(** Lines 97-98. *)
Definition features (enc : DataFrame) : option DataFrame :=
  drop_columns [claim_amount_SZL; claim_risk] enc.

Definition target (enc : DataFrame) : option Series :=
  getitem claim_risk enc.

End Preparation.


(** ** Row selection and stacking *)

Definition take_series (idx : list nat) (s : Series) : Series :=
  mkSeries (s_dtype s) (map (λ i, s_values s !!! i) idx).

(** [df.iloc[idx]]. *)
Definition take_rows (idx : list nat) (df : DataFrame) : DataFrame :=
  mkFrame (length idx) (map (λ c, (c.1, take_series idx c.2)) (columns df)).

(** Positions where [s == v] holds. *)
Definition where_eq (v : Q) (s : Series) : list nat :=
  filter (λ i, cell_eqb (s_values s !!! i) (Num v)) (seq 0 (length (s_values s))).

(** [pd.concat([X, y], axis=1)] for a frame and a series on the same index. *)
Definition concat_columns (X : DataFrame) (name : string) (y : Series) : DataFrame :=
  mkFrame (nrows X) (columns X ++ [(name, y)]).

(** [pd.concat([a, b])] of two frames with the same column index: the rows
    of [b] under those of [a].  (The script only stacks two selections of
    one frame; stacking frames with different columns is not modelled.) *)
Definition concat_rows (a b : DataFrame) : option DataFrame :=
  if decide (names a = names b)
  then Some (mkFrame (nrows a + nrows b)
               (zip_with (λ ca cb, (ca.1, mkSeries (s_dtype ca.2)
                                            (s_values ca.2 ++ s_values cb.2)))
                         (columns a) (columns b)))
  else None.


(** Number of cells of a series equal to [v]. *)
Definition count_eq (v : Q) (s : Series) : nat :=
  length (filter (λ c, cell_eqb c (Num v)) (s_values s)).

(** ** Schema alignment (lines 238-241) *)

Definition zeros (n : nat) : Series := mkSeries int64 (replicate n (Fz 0)).

Definition add_missing (expected_features : list string) (df : DataFrame) : DataFrame :=
  foldl (λ d col, if decide (col ∈ names d) then d else setitem col (zeros (nrows d)) d)
        df expected_features.

Definition align (expected_features : list string) (df : DataFrame) : option DataFrame :=
  getitem_list expected_features (add_missing expected_features df).

(** ** Positive-class recall of [classification_report] *)

Definition is_one (c : cell) : bool := cell_eqb c (Fz 1).

Definition recall_of (y_true y_pred : list cell) : option Q :=
  if decide (length y_true = length y_pred)
  then
    if existsb is_one y_true || existsb is_one y_pred
    then
      let pos := filter (λ p, is_one p.1) (zip y_true y_pred) in
      let tp := filter (λ p, is_one p.2) pos in
      Some (if decide (length pos = 0) then 0%Q
            else (inject_Z (Z.of_nat (length tp)) / inject_Z (Z.of_nat (length pos)))%Q)
    else None
  else None.

Section Script.
Context `{L : Library}.

(** ** Class balancing (lines 100-106) *)

Definition train_data (X_train : DataFrame) (y_train : Series) : DataFrame :=
  concat_columns X_train claim_risk y_train.

Definition majority (td : DataFrame) : option DataFrame :=
  labels ← getitem claim_risk td; Some (take_rows (where_eq 0 labels) td).

Definition minority (td : DataFrame) : option DataFrame :=
  labels ← getitem claim_risk td; Some (take_rows (where_eq 1 labels) td).

(** [sklearn.utils.resample(df, replace=True, n_samples, random_state)]:
    [n_samples] is checked to be at least 1 ([InvalidParameterError]
    otherwise), then the rows are drawn with replacement. *)
Definition resample (random_state : option Z) (ambient : generator)
    (df : DataFrame) (n_samples : nat) : option DataFrame :=
  if decide (n_samples = 0) then None
  else
    idx ← randint (check_random_state random_state ambient) (nrows df) n_samples;
    Some (take_rows idx df).

Definition minority_oversampled (ambient : generator) (td : DataFrame) : option DataFrame :=
  maj ← majority td;
  mino ← minority td;
  resample (Some 42%Z) ambient mino (nrows maj).

Definition train_data_balanced (ambient : generator) (td : DataFrame) : option DataFrame :=
  maj ← majority td;
  over ← minority_oversampled ambient td;
  concat_rows maj over.

(** ** The script from the split to the persistence gate (lines 99-129)

    The module-level variables are a store from names to values; the model
    files written and the log records are kept beside it. *)

Inductive value : Type :=
  | VFrame (df : DataFrame)
  | VSeries (s : Series)
  | VModel (m : model)
  | VFloat (x : Q).

Inductive log_record : Type :=
  | Trained
  | ModelSaved (recall : Q)
  | ModelNotSaved (recall : Q).

Record state : Type := mkState {
  globals : gmap string value;
  files : gmap string model;
  log : list log_record
}.

Definition M (A : Type) : Type := state → option (A * state).

Definition ret {A} (a : A) : M A := λ σ, Some (a, σ).

Definition bind {A B} (m : M A) (k : A → M B) : M B :=
  λ σ, match m σ with Some (a, σ') => k a σ' | None => None end.

Definition lift {A} (o : option A) : M A := λ σ, (λ a, (a, σ)) <$> o.

Definition assign (x : string) (v : value) : M unit :=
  λ σ, Some (tt, mkState (<[x := v]> (globals σ)) (files σ) (log σ)).

Definition frame (x : string) : M DataFrame :=
  λ σ, match globals σ !! x with Some (VFrame df) => Some (df, σ) | _ => None end.

Definition series (x : string) : M Series :=
  λ σ, match globals σ !! x with Some (VSeries s) => Some (s, σ) | _ => None end.

Definition fitted (x : string) : M model :=
  λ σ, match globals σ !! x with Some (VModel m) => Some (m, σ) | _ => None end.

Definition float (x : string) : M Q :=
  λ σ, match globals σ !! x with Some (VFloat q) => Some (q, σ) | _ => None end.

(** [joblib.dump(m, path)]: the file is opened for writing, which raises
    ([FileNotFoundError] when the directory of [path] is absent) where the
    file cannot be written. *)
Definition joblib_dump (m : model) (path : string) : M unit :=
  λ σ, if writable path
       then Some (tt, mkState (globals σ) (<[path := m]> (files σ)) (log σ))
       else None.

Definition logger_info (r : log_record) : M unit :=
  λ σ, Some (tt, mkState (globals σ) (files σ) (log σ ++ [r])).

(** A computation keeps the variable [x] when every run of it ends in a
    store that binds [x] as the initial one did. *)
Definition keeps {A} (x : string) (m : M A) : Prop :=
  ∀ σ a σ', m σ = Some (a, σ') → globals σ' !! x = globals σ !! x.

End Script.

Notation "'do' x <- m ; k" := (bind m (λ x, k))
  (at level 10, x name, m at level 100, k at level 200,
   format "'[v' 'do'  x  <-  m ; '/' k ']'").
Notation "m >> k" := (bind m (λ _, k))
  (at level 200, k at level 200, right associativity, only parsing).

Section Stages.
Context `{L : Library}.

Definition model_path : string := "/content/rf_model.pkl".

Definition forest : rf_params := mkParams 300 (1, 5 # 2)%Q 15 5.

(** Line 99. *)
Definition split_stage (ambient : generator) : M unit :=
  do X <- frame "X";
  do y <- series "y";
  do parts <- lift (split_indices (check_random_state (Some 42%Z) ambient)
                      (1 # 5) (nrows X) (s_values y));
  assign "X_train" (VFrame (take_rows parts.1 X)) >>
  assign "X_test" (VFrame (take_rows parts.2 X)) >>
  assign "y_train" (VSeries (take_series parts.1 y)) >>
  assign "y_test" (VSeries (take_series parts.2 y)).

(** Lines 100-106. *)
Definition balancing_stage (ambient : generator) : M unit :=
  do X_train <- frame "X_train";
  do y_train <- series "y_train";
  let td := train_data X_train y_train in
  assign "train_data" (VFrame td) >>
  do maj <- lift (majority td);
  assign "majority" (VFrame maj) >>
  do mino <- lift (minority td);
  assign "minority" (VFrame mino) >>
  do over <- lift (resample (Some 42%Z) ambient mino (nrows maj));
  assign "minority_oversampled" (VFrame over) >>
  do bal <- lift (concat_rows maj over);
  assign "train_data_balanced" (VFrame bal) >>
  do Xb <- lift (drop_columns [claim_risk] bal);
  assign "X_train_balanced" (VFrame Xb) >>
  do yb <- lift (getitem claim_risk bal);
  assign "y_train_balanced" (VSeries yb).

(** Lines 109-118. *)
Definition training_stage (ambient : generator) : M unit :=
  do Xb <- frame "X_train_balanced";
  do yb <- series "y_train_balanced";
  do rf <- lift (RandomForest_fit forest (check_random_state (Some 42%Z) ambient) Xb yb);
  assign "rf" (VModel rf) >>
  do X_test <- frame "X_test";
  do y_pred <- lift (predict rf X_test);
  assign "y_pred_rf" (VSeries (mkSeries int64 y_pred)) >>
  logger_info Trained.

(** Lines 121-124.  Of the variables they assign the store keeps the two
    metrics; [report], [fpr], [tpr] and [_] are not read again before line
    286 reassigns them, and are not kept. *)
Definition metrics_stage : M unit :=
  do y_test <- series "y_test";
  do y_pred <- series "y_pred_rf";
  do recall <- lift (recall_of (s_values y_test) (s_values y_pred));
  assign "recall_class_1" (VFloat recall) >>
  do rf <- fitted "rf";
  do X_test <- frame "X_test";
  do scores <- lift (predict_proba rf X_test);
  do area <- lift (roc_auc (s_values y_test) scores);
  assign "roc_auc" (VFloat area).

(** Lines 125-129. *)
Definition persistence_gate : M unit :=
  do recall_class_1 <- float "recall_class_1";
  if Qlt_le_dec (39 # 100) recall_class_1
  then
    do rf <- fitted "rf";
    joblib_dump rf model_path >>
    logger_info (ModelSaved recall_class_1)
  else logger_info (ModelNotSaved recall_class_1).

Definition script (ambient : generator) : M unit :=
  split_stage ambient >>
  balancing_stage ambient >>
  training_stage ambient >>
  metrics_stage >>
  persistence_gate.

(** Lines 70-129 on an uploaded dataset. *)
Definition run (ambient : generator) (raw : DataFrame) : option state :=
  df ← prepare raw;
  df ← assign_segments ambient df;
  enc ← df_encoded df;
  X ← features enc;
  y ← target enc;
  let σ0 := mkState (<["y" := VSeries y]> (<["X" := VFrame X]> (<["df" := VFrame df]> ∅))) ∅ [] in
  snd <$> script ambient σ0.

(** Line 236. *)
Definition expected_features (rf : model) (X_test : DataFrame) : list string :=
  default (names X_test) (feature_names_in_ rf).

End Stages.

Definition demo_lib : Library := {|
  to_datetime := λ _, Some (Some (2024, 1, 15)%Z);
  dt_part_dtype := int32;
  dummy_dtype := bool_;
  number_str := λ q, pretty (Qfloor q);
  generator := Z;
  RandomState := λ seed, seed;
  randint := λ g high size,
    if decide (high = 0) then None
    else Some (map (λ i, (Z.to_nat g + i) mod high) (seq 0 size));
  KMeans_fit_predict := λ k g X, Some (map (λ i, i mod k) (seq 0 (nrows X)));
  split_indices := λ g test_size n y,
    Some (filter (λ i, i mod 5 ≠ 4) (seq 0 n), filter (λ i, i mod 5 = 4) (seq 0 n));
  model := unit;
  RandomForest_fit := λ _ _ _ _, Some tt;
  predict := λ _ X, Some (replicate (nrows X) (Fz 1));
  predict_proba := λ _ X, Some (replicate (nrows X) 1%Q);
  feature_names_in_ := λ _, None;
  roc_auc := λ _ _, Some (1 # 2)%Q;
  writable := λ _, true
|}.


(** ** A small dataset and a stand-in library, to run the model on *)

Definition strs (l : list string) : Series := mkSeries object_ (map Str l).
Definition ints (l : list Z) : Series := mkSeries int64 (map Fz l).

Definition demo_input : DataFrame :=
  mkFrame 2
    [ ("age", ints [40; 23]%Z);
      ("gender_F", ints [1; 0]%Z);
      ("region_code", ints [7; 9]%Z) ].

Definition demo_schema : list string := ["gender_F"; "gender_M"; "age"].

(** A schema that names a column twice, and a record set that carries a
    label twice. *)
Definition demo_repeated_schema : list string := ["a"; "a"].

Definition demo_single : DataFrame := mkFrame 1 [("a", ints [5]%Z)].

Definition demo_repeated_input : DataFrame :=
  mkFrame 1 [("a", ints [5]%Z); ("a", ints [6]%Z)].

Definition demo_labels : Series := ints [0; 0; 1; 0; 1; 0]%Z.


Definition demo_features : DataFrame :=
  mkFrame 6
    [ ("age", ints [25; 31; 47; 52; 38; 29]%Z);
      ("gender_F", ints [1; 0; 0; 1; 0; 1]%Z) ].

Definition demo_held_out : DataFrame :=
  mkFrame 2 [ ("age", ints [61; 44]%Z); ("gender_F", ints [0; 1]%Z) ].

(** The store as the split leaves it. *)
Definition demo_split_state : @state demo_lib :=
  mkState (<["y_test" := VSeries (ints [1; 0]%Z)]>
           (<["y_train" := VSeries demo_labels]>
            (<["X_test" := VFrame demo_held_out]>
             (<["X_train" := VFrame demo_features]> ∅)))) ∅ [].

(** The store as the evaluation leaves it, with a given recall. *)
Definition demo_gate_state (recall : Q) : @state demo_lib :=
  mkState (<["recall_class_1" := VFloat recall]> (<["rf" := @VModel demo_lib tt]> ∅)) ∅ [].

(** A machine without the directory [/content]: no file can be written
    under it. *)
Definition no_content_lib : Library := {|
  to_datetime := @to_datetime demo_lib;
  dt_part_dtype := int32;
  dummy_dtype := bool_;
  number_str := @number_str demo_lib;
  generator := Z;
  RandomState := λ seed, seed;
  randint := @randint demo_lib;
  KMeans_fit_predict := @KMeans_fit_predict demo_lib;
  split_indices := @split_indices demo_lib;
  model := unit;
  RandomForest_fit := λ _ _ _ _, Some tt;
  predict := @predict demo_lib;
  predict_proba := @predict_proba demo_lib;
  feature_names_in_ := λ _, None;
  roc_auc := λ _ _, Some (1 # 2)%Q;
  writable := λ path, negb (String.prefix "/content/" path)
|}.

(** The store as line 117 leaves it when the forest finds [hits] of the 100
    high-risk records of the test set. *)
Definition demo_evaluated `{L : Library} (rf : model) (hits : nat) : state :=
  mkState (<["y_pred_rf" := VSeries (mkSeries int64
                              (replicate hits (Fz 1) ++ replicate (100 - hits) (Fz 0)))]>
           (<["y_test" := VSeries (mkSeries int64 (replicate 100 (Fz 1)))]>
            (<["X_test" := VFrame (mkFrame 100 [("age", mkSeries int64 (replicate 100 (Fz 40)))])]>
             (<["rf" := VModel rf]> ∅)))) ∅ [].

(** A dataset whose amount column is empty throughout. *)
Definition demo_all_missing : DataFrame :=
  mkFrame 3
    [ (claim_amount_SZL, mkSeries float64 [NaN; NaN; NaN]);
      ("age", ints [25; 31; 47]%Z) ].

Definition demo_amount : Series :=
  mkSeries float64 [Fz 100; NaN; Fz 300; Fz 400; Fz 500; NaN; Fz 700; Fz 800; Fz 900; Fz 1000].

Definition demo_raw : DataFrame :=
  mkFrame 10
    [ (claim_amount_SZL, demo_amount);
      ("age", ints [25; 31; 47; 52; 38; 29; 61; 44; 35; 58]%Z);
      ("claim_type", strs ["theft"; "fire"; "theft"; "accident"; "fire";
                           "theft"; "accident"; "fire"; "theft"; "accident"]);
      ("gender", mkSeries object_ [Str "F"; NaN; Str "M"; Str "F"; Str "M";
                                   Str "F"; Str "M"; Str "F"; Str "M"; Str "F"]);
      ("location", strs ["Manzini"; "Hhohho"; "Lubombo"; "Manzini"; "Hhohho";
                         "Shiselweni"; "Manzini"; "Hhohho"; "Lubombo"; "Manzini"]);
      ("policy_type", strs ["basic"; "basic"; "gold"; "gold"; "basic";
                            "gold"; "basic"; "gold"; "basic"; "gold"]);
      ("insurance_provider", strs ["A"; "B"; "A"; "B"; "A"; "B"; "A"; "B"; "A"; "B"]);
      ("claim_date", strs ["2024-01-15"; "2024-01-15"; "2024-01-15"; "2024-01-15";
                           "2024-01-15"; "2024-01-15"; "2024-01-15"; "2024-01-15";
                           "2024-01-15"; "2024-01-15"]) ].


(** ** Further code of the script *)

(** Line 69: [df.isna().sum().sum()], the number of missing cells. *)
Definition missing_values (df : DataFrame) : nat :=
  sum_list (map (λ c, length (filter (λ v, isna v) (s_values c.2))) (columns df)).

(** The value lines 71-72 put in the missing cells of a column: its median
    where line 71 applies and finds one, the string 'Unknown' otherwise. *)
Definition fill_of (s : Series) : cell :=
  if is_numeric_or_bool (s_dtype s)
  then match median (s_values s) with NaN => Unknown | m => m end
  else Unknown.

(** The names of the three columns line 79-81 derive from a date column. *)
Definition date_parts (col : string) : list string :=
  [col +:+ "_year"; col +:+ "_month"; col +:+ "_day"].

(** A library whose date parser rejects the string 'Unknown', as
    [pd.to_datetime] does. *)
Definition strict_lib : Library := {|
  to_datetime := λ c, if cell_eqb c Unknown then None else Some (Some (2024, 1, 15)%Z);
  dt_part_dtype := int32;
  dummy_dtype := bool_;
  number_str := λ q, pretty (Qfloor q);
  generator := Z;
  RandomState := λ seed, seed;
  randint := @randint demo_lib;
  KMeans_fit_predict := @KMeans_fit_predict demo_lib;
  split_indices := @split_indices demo_lib;
  model := unit;
  RandomForest_fit := λ _ _ _ _, Some tt;
  predict := @predict demo_lib;
  predict_proba := @predict_proba demo_lib;
  feature_names_in_ := λ _, None;
  roc_auc := λ _ _, Some (1 # 2)%Q;
  writable := λ _, true
|}.

(** An upload with an undated claim. *)
Definition demo_undated : DataFrame :=
  mkFrame 3
    [ (claim_amount_SZL, mkSeries float64 [Fz 100; Fz 250; Fz 900]);
      ("claim_date", mkSeries object_ [Str "2024-01-15"; NaN; Str "2024-03-02"]) ].

(** A library whose date parser maps the string 'NaT' to the missing date,
    as [pd.to_datetime] does, and an upload with such a cell. *)
Definition nat_lib : Library := {|
  to_datetime := λ c, if cell_eqb c (Str "NaT") then Some None
                      else Some (Some (2024, 1, 15)%Z);
  dt_part_dtype := int32;
  dummy_dtype := bool_;
  number_str := λ q, pretty (Qfloor q);
  generator := Z;
  RandomState := λ seed, seed;
  randint := @randint demo_lib;
  KMeans_fit_predict := @KMeans_fit_predict demo_lib;
  split_indices := @split_indices demo_lib;
  model := unit;
  RandomForest_fit := λ _ _ _ _, Some tt;
  predict := @predict demo_lib;
  predict_proba := @predict_proba demo_lib;
  feature_names_in_ := λ _, None;
  roc_auc := λ _ _, Some (1 # 2)%Q;
  writable := λ _, true
|}.

Definition demo_not_a_time : DataFrame :=
  mkFrame 3
    [ (claim_amount_SZL, mkSeries float64 [Fz 100; Fz 250; Fz 900]);
      ("claim_date", strs ["2024-01-15"; "NaT"; "2024-03-02"]) ].

(** The list line 89 starts from, and the five of its columns that must come
    with the upload ([customer_segment] is added by line 88). *)
Definition base_categoricals : list string :=
  ["claim_type"; "gender"; "location"; "policy_type";
   "insurance_provider"; customer_segment].

Definition required_columns : list string :=
  ["claim_type"; "gender"; "location"; "policy_type"; "insurance_provider"].

(** The step of the loop of lines 90-93. *)
Definition discover (acc : list string) (c : string * Series) : list string :=
  if decide (s_dtype c.2 = object_ ∧ (c.1 ∉ date_cols)
             ∧ (c.1 ∉ [claim_amount_SZL; claim_risk]) ∧ (c.1 ∉ acc))
  then acc ++ [c.1] else acc.

(** An upload without a [gender] column. *)
Definition demo_no_gender : DataFrame :=
  mkFrame 2
    [ (claim_amount_SZL, mkSeries float64 [Fz 100; Fz 250]);
      ("claim_type", strs ["theft"; "fire"]);
      ("location", strs ["Manzini"; "Hhohho"]);
      ("policy_type", strs ["basic"; "gold"]);
      ("insurance_provider", strs ["A"; "B"]) ].

(** Lines 322-327: the sample handed to the explainer.  Only the
    categorical columns the sample still has are encoded, then the frame is
    aligned to the features of the model. *)
Section Explainer.
Context `{L : Library}.

Definition sample_encoded (cats expected : list string) (sample_data : DataFrame)
    : option DataFrame :=
  get_dummies (filter (λ col, col ∈ names sample_data) cats) sample_data
  ≫= align expected.

End Explainer.

(** A training frame without a high-risk row. *)
Definition demo_no_positive : DataFrame :=
  mkFrame 3 [ ("age", ints [25; 31; 47]%Z); (claim_risk, ints [0; 0; 0]%Z) ].

(** Lines 398-402 and 447-451: the rows of a segment, or of a region, as
    they are handed to the explainer: the amount and the label are dropped,
    the categorical columns encoded, and the frame aligned to the features
    of the model. *)
Section Drilldown.
Context `{L : Library}.

Definition segment_encoded (cats expected : list string) (segment_data : DataFrame)
    : option DataFrame :=
  (drop_columns [claim_amount_SZL; claim_risk] segment_data ≫= get_dummies cats)
  ≫= align expected.

End Drilldown.

(** [df.values]: the cells of a frame column by column, labels and dtypes
    left behind. *)
Definition values (df : DataFrame) : list (list cell) :=
  map (λ c, s_values c.2) (columns df).

Global Instance Q_eq_dec : EqDecision Q.
Proof. solve_decision. Defined.

Global Instance cell_eq_dec : EqDecision cell.
Proof. solve_decision. Defined.

(** Cells of a column that compare equal are the same cell: true of text,
    and of numbers that are written in one way. *)
Definition same_written (vs : list cell) : Prop :=
  Forall (λ x, Forall (λ y, cell_eqb x y = true → x = y) vs) vs.

(** A frame as line 88 leaves it, with the segment of every record. *)
Definition demo_segmented : DataFrame :=
  mkFrame 4
    [ (claim_amount_SZL, mkSeries float64 [Fz 100; Fz 250; Fz 900; Fz 400]);
      ("age", ints [25; 31; 47; 52]%Z);
      ("claim_type", strs ["theft"; "fire"; "theft"; "fire"]);
      ("gender", strs ["F"; "M"; "M"; "F"]);
      ("location", strs ["Manzini"; "Hhohho"; "Manzini"; "Lubombo"]);
      ("policy_type", strs ["basic"; "gold"; "basic"; "gold"]);
      ("insurance_provider", strs ["A"; "B"; "A"; "B"]);
      (claim_risk, ints [0; 0; 1; 0]%Z);
      (customer_segment, strs ["0"; "1"; "0"; "2"]) ].

Definition demo_encoded : DataFrame :=
  default (mkFrame 0 []) (@df_encoded demo_lib demo_segmented).

Definition demo_X : DataFrame :=
  default (mkFrame 0 []) (features demo_encoded).

(** What pandas guarantees of an upload: a column of an integer or float
    dtype holds numbers and missing cells, nothing else. *)
Definition well_typed (df : DataFrame) : Prop :=
  Forall (λ c, s_dtype c.2 = int64 ∨ s_dtype c.2 = float64 →
               Forall (λ v, is_num v = true ∨ v = NaN) (s_values c.2))
         (columns df).

(** ** The region under a clicked marker (lines 154-159, 191 and 428-433)

    A string stands for a Python [str] whose code points are below 256, one
    character each. *)

(** [str.isspace] on one character. *)
Definition isspace (c : ascii) : bool :=
  let n := nat_of_ascii c in
  ((9 <=? n) && (n <=? 13)) || ((28 <=? n) && (n <=? 32)) || (n =? 133) || (n =? 160).

Fixpoint lstrip (s : string) : string :=
  match s with
  | EmptyString => EmptyString
  | String c s' => if isspace c then lstrip s' else s
  end.

Fixpoint rstrip (s : string) : string :=
  match s with
  | EmptyString => EmptyString
  | String c s' =>
      match rstrip s' with
      | EmptyString => if isspace c then EmptyString else String c EmptyString
      | r => String c r
      end
  end.

(** [s.strip()]. *)
Definition strip (s : string) : string := rstrip (lstrip s).

(** [s.split(':')[0]]: the text before the first colon, all of [s] when it
    has none. *)
Fixpoint before_colon (s : string) : string :=
  match s with
  | EmptyString => EmptyString
  | String c s' => if Ascii.eqb c ":"%char then EmptyString else String c (before_colon s')
  end.

(** Lines 154-159. *)
Definition region_coords : list (string * (Q * Q)) :=
  [ ("Lubombo", (- (263 # 10), 318 # 10)%Q);
    ("Hhohho", (- (26 # 1), 311 # 10)%Q);
    ("Manzini", (- (265 # 10), 314 # 10)%Q);
    ("Shiselweni", (- (27 # 1), 313 # 10)%Q) ].

(** Line 191: the tooltip of the marker of a location and a segment;
    [risk_level] and [percent] are the two formatted values. *)
Definition tooltip (location segment risk_level percent : string) : string :=
  location +:+ " (Segment " +:+ segment +:+ "): " +:+ risk_level
  +:+ " Risk (" +:+ percent +:+ "%)".

(** Line 428, on what [st_folium] reports as the tooltip last clicked. *)
Definition selected_region (clicked : option string) : option string :=
  match clicked with
  | Some t => if decide (t = "") then None else Some (strip (before_colon t))
  | None => None
  end.

(** Line 432: [df[df['location'] == selected_region]]. *)
Definition region_data (selected : string) (df : DataFrame) : option DataFrame :=
  locs ← getitem "location" df;
  Some (take_rows (filter (λ i, cell_eqb (s_values locs !!! i) (Str selected))
                          (seq 0 (length (s_values locs)))) df).

(** ** The prediction log (lines 250-259 and 300-304) *)

(** [os.path.join(save_dir, 'prediction_log.csv')] with [save_dir = './']. *)
Definition log_file : string := "./prediction_log.csv".

Definition log_header : list string :=
  ["timestamp"; "prediction"; "probability_high_risk"].

(** Lines 245 and 252. *)
Definition prediction_text (pred : cell) : string :=
  if is_one pred then "High Risk" else "Low Risk".

(** The line of one prediction; [timestamp] and [prob] are the two values
    as [to_csv] prints them. *)
Definition log_line (p : string * cell * string) : list string :=
  [p.1.1; prediction_text p.1.2; p.2].

(** Lines 250-259 on the files of the working directory, a file being the
    list of its lines and a line the list of its fields: the line is
    appended without a header when the log exists, and written under the
    header otherwise. *)
Definition log_prediction (fs : gmap string (list (list string)))
    (p : string * cell * string) : gmap string (list (list string)) :=
  match fs !! log_file with
  | Some lines => <[log_file := lines ++ [log_line p]]> fs
  | None => <[log_file := [log_header; log_line p]]> fs
  end.

(** Lines 301-302: the records [pd.read_csv] finds under the first line of
    the log, if there is a log. *)
Definition read_log (fs : gmap string (list (list string))) : option (list (list string)) :=
  match fs !! log_file with
  | Some (_ :: records) => Some records
  | _ => None
  end.

(** ** The risk map (lines 153-203)

    Lines 161-192 (the aggregation by region and segment, the filters and the
    markers) and the heat-map layer of line 196 are library calls behind two
    parameters, each of which may raise; line 195 is modelled as written. *)
Section RiskMap.
Variable folium_map : Type.
Variable draw_markers :
  DataFrame → folium_map → list string → list string → list string → option folium_map.
Variable add_heat_map : list (cell * cell) → folium_map → option folium_map.

(** Line 195 on one record: its coordinates when its label is 1. *)
Definition heat_point (df : DataFrame) (i : nat) : option (option (cell * cell)) :=
  risk ← cell_at claim_risk df i;
  if cell_eqb risk (Fz 1)
  then lat ← cell_at "Latitude" df i;
       lon ← cell_at "Longitude" df i;
       Some (Some (lat, lon))
  else Some None.

Definition heat_data (df : DataFrame) : option (list (cell * cell)) :=
  omap id <$> mapM (heat_point df) (seq 0 (nrows df)).

Definition plot_from_df (df : DataFrame) (m : folium_map)
    (selected_risk_levels selected_regions selected_segments : list string)
    : option folium_map :=
  m1 ← draw_markers df m selected_risk_levels selected_regions selected_segments;
  h ← heat_data df;
  add_heat_map h m1.

(** Lines 199-203; [init_map] is the empty map of line 201. *)
Definition load_map (init_map : folium_map) (df : DataFrame)
    (selected_risk_levels selected_regions selected_segments : list string)
    : option folium_map :=
  plot_from_df df init_map selected_risk_levels selected_regions selected_segments.

End RiskMap.

(** * Properties *)

(** ** Columns of a frame *)

Lemma lookup_col_map_snd (f : Series → Series) name cols :
  lookup_col name (map (λ c, (c.1, f c.2)) cols) = f <$> lookup_col name cols.
Proof.
  induction cols as [|c cols IH]; [done|].
  simpl. case_decide; [done|]. exact IH.
Qed.

Lemma lookup_col_app name a b :
  lookup_col name (a ++ b) =
  match lookup_col name a with Some s => Some s | None => lookup_col name b end.
Proof.
  induction a as [|c a IH]; [done|].
  simpl. case_decide; [done|]. exact IH.
Qed.

Lemma lookup_col_None name cols :
  lookup_col name cols = None ↔ name ∉ cols.*1.
Proof.
  induction cols as [|c cols IH]; simpl.
  - split; [intros _; apply not_elem_of_nil | done].
  - rewrite not_elem_of_cons. case_decide as Hc.
    + split; [done | intros [Hne _]; congruence].
    + rewrite IH. split; [intros ?; split; [congruence | done] | tauto].
Qed.

Lemma lookup_col_is_Some name cols :
  is_Some (lookup_col name cols) ↔ name ∈ cols.*1.
Proof.
  rewrite <- not_eq_None_Some, lookup_col_None.
  destruct (decide (name ∈ cols.*1)); tauto.
Qed.

Lemma lookup_col_replace name s cols :
  name ∈ cols.*1 →
  lookup_col name (map (λ c, if decide (c.1 = name) then (c.1, s) else c) cols) = Some s.
Proof.
  induction cols as [|c cols IH]; simpl.
  - intros H. by apply elem_of_nil in H.
  - intros H. destruct (decide (c.1 = name)) as [Hc|Hc]; simpl.
    + by rewrite decide_True.
    + rewrite decide_False by done. apply IH.
      apply elem_of_cons in H as [H|H]; [congruence | done].
Qed.

Lemma lookup_col_replace_ne name other s cols :
  name ≠ other →
  lookup_col name (map (λ c, if decide (c.1 = other) then (c.1, s) else c) cols)
  = lookup_col name cols.
Proof.
  intros Hne. induction cols as [|c cols IH]; [done|].
  simpl. destruct (decide (c.1 = other)) as [Hc|Hc]; simpl.
  - rewrite !decide_False by congruence. exact IH.
  - case_decide; [done | exact IH].
Qed.

Lemma lookup_col_filter (P : string * Series → Prop) `{∀ c, Decision (P c)} name cols :
  (∀ c, c.1 = name → P c) →
  lookup_col name (filter P cols) = lookup_col name cols.
Proof.
  intros HP. induction cols as [|c cols IH]; [done|].
  rewrite filter_cons. simpl. destruct (decide (c.1 = name)) as [Hc|Hc].
  - rewrite decide_True by auto. simpl. by rewrite decide_True.
  - case_decide; simpl; [by rewrite decide_False|]; exact IH.
Qed.

Lemma getitem_setitem_eq name s df :
  getitem name (setitem name s df) = Some s.
Proof.
  unfold getitem, setitem. case_decide as Hin; simpl.
  - by apply lookup_col_replace.
  - rewrite lookup_col_app.
    apply lookup_col_None in Hin. rewrite Hin. simpl. by rewrite decide_True.
Qed.

Lemma getitem_setitem_ne name other s df :
  name ≠ other → getitem name (setitem other s df) = getitem name df.
Proof.
  intros Hne. unfold getitem, setitem. case_decide; simpl.
  - by apply lookup_col_replace_ne.
  - rewrite lookup_col_app. destruct (lookup_col name (columns df)); [done|].
    simpl. by rewrite decide_False.
Qed.

Lemma getitem_drop_columns_ignore name labels df :
  name ∉ labels →
  getitem name (drop_columns_ignore labels df) = getitem name df.
Proof.
  intros Hn. unfold getitem, drop_columns_ignore. simpl.
  apply lookup_col_filter. by intros c ->.
Qed.

Lemma getitem_drop_columns name labels df df' :
  drop_columns labels df = Some df' → name ∉ labels →
  getitem name df' = getitem name df.
Proof.
  unfold drop_columns. case_decide; [|done]. intros [= <-] Hn.
  by apply (getitem_drop_columns_ignore name labels df).
Qed.

(** ** Imputation leaves a column without missing cells alone *)

Lemma fillna_value_id v vs : existsb isna vs = false → fillna_value v vs = vs.
Proof.
  induction vs as [|c vs IH]; [done|]. simpl.
  intros H. apply orb_false_iff in H as [Hc Hvs].
  rewrite Hc. f_equal. by apply IH.
Qed.

Lemma fillna_median_series_id s :
  existsb isna (s_values s) = false → fillna_median_series s = s.
Proof.
  intros H. unfold fillna_median_series.
  destruct (is_numeric_or_bool (s_dtype s)); [|done].
  destruct (median (s_values s)); [done| |]; rewrite fillna_value_id by done; by destruct s.
Qed.

Lemma fillna_unknown_series_id s :
  existsb isna (s_values s) = false → fillna_unknown_series s = s.
Proof. intros H. unfold fillna_unknown_series. by rewrite H. Qed.

Lemma labels_not_missing (f : cell → bool) vs :
  existsb isna (map (λ c, bool_to_int (f c)) vs) = false.
Proof. induction vs as [|c vs IH]; [done|]. simpl. rewrite IH. by destruct (f c). Qed.

(** ** The risk label (lines 70-72) *)

Lemma cell_ge_at_least a t : cell_ge a t = true ↔ at_least a t.
Proof.
  unfold at_least. destruct a as [|x|s], t as [|y|u]; simpl;
    try (split; [done | intros (? & ? & ? & ? & ?); congruence]).
  rewrite Qle_bool_iff. split.
  - intros H. by exists x, y.
  - intros (x' & y' & [= ->] & [= ->] & H). exact H.
Qed.

(** The label column a run of lines 70-72 ends with is the one computed
    from the uploaded amounts: both imputations pass it by. *)
Lemma preprocess_claim_risk raw amt :
  getitem claim_amount_SZL raw = Some amt →
  is_int_or_float (s_dtype amt) = true →
  ∃ df, preprocess raw = Some df ∧ getitem claim_risk df = Some (raw_labels amt).
Proof.
  intros Hamt Hnum. unfold preprocess, derive_claim_risk.
  rewrite Hamt. simpl. rewrite Hnum. simpl. eexists. split; [done|].
  unfold getitem, fillna_unknown, fillna_median. simpl.
  rewrite !lookup_col_map_snd.
  pose proof (getitem_setitem_eq claim_risk (raw_labels amt) raw) as Hset.
  unfold getitem in Hset. rewrite Hset. simpl.
  rewrite fillna_median_series_id by apply labels_not_missing.
  rewrite fillna_unknown_series_id by apply labels_not_missing.
  done.
Qed.

(** C1: on every dataset whose amount column is numeric, lines 70-72 succeed
    and the label of a record is 1 exactly when its uploaded amount is at
    least the 0.75 quantile of the uploaded amount column; the later median
    and 'Unknown' imputations do not touch the label. *)
Theorem claim_risk_iff_raw_quantile raw amt :
  getitem claim_amount_SZL raw = Some amt →
  is_int_or_float (s_dtype amt) = true →
  ∃ df, preprocess raw = Some df ∧
    ∀ i a, s_values amt !! i = Some a →
      ∃ label, cell_at claim_risk df i = Some label ∧
        (label = Fz 0 ∨ label = Fz 1) ∧
        (label = Fz 1 ↔ at_least a (quantile (3 # 4) (s_values amt))).
Proof.
  intros Hamt Hnum.
  destruct (preprocess_claim_risk raw amt Hamt Hnum) as (df & Hdf & Hrisk).
  exists df. split; [done|]. intros i a Hi.
  unfold cell_at. rewrite Hrisk. simpl.
  rewrite list_lookup_fmap, Hi. simpl. eexists. split; [done|].
  rewrite <- cell_ge_at_least.
  destruct (cell_ge a _); simpl; (split; [auto|]); split; done.
Qed.

Lemma claim_risk_iff_raw_quantile_witness :
  getitem claim_amount_SZL demo_raw = Some demo_amount ∧
  is_int_or_float (s_dtype demo_amount) = true ∧
  ∃ df, preprocess demo_raw = Some df ∧
    ∀ i a, s_values demo_amount !! i = Some a →
      ∃ label, cell_at claim_risk df i = Some label ∧
        (label = Fz 0 ∨ label = Fz 1) ∧
        (label = Fz 1 ↔ at_least a (quantile (3 # 4) (s_values demo_amount))).
Proof.
  split; [reflexivity|]. split; [reflexivity|].
  apply (claim_risk_iff_raw_quantile demo_raw demo_amount); reflexivity.
Defined.

(** On the sample dataset the threshold is 825 on the uploaded amounts and
    775 on the imputed ones, and record 7 (amount 800) lies in between:
    deriving the label after the imputation would label it differently. *)
Example threshold_before_imputation :
  quantile (3 # 4) (s_values demo_amount) = Num 825 ∧
  (preprocess demo_raw ≫= λ df, quantile (3 # 4) <$> (s_values <$> getitem claim_amount_SZL df))
    = Some (Num 775) ∧
  (preprocess demo_raw ≫= λ df, cell_at claim_risk df 7) = Some (Fz 0) ∧
  cell_ge (Fz 800) (Num 775) = true.
Proof. vm_compute. done. Qed.

(** C8: a record whose uploaded amount is missing gets label 0, whatever the
    rest of the dataset holds. *)
Theorem missing_amount_label_zero raw amt i :
  getitem claim_amount_SZL raw = Some amt →
  is_int_or_float (s_dtype amt) = true →
  s_values amt !! i = Some NaN →
  ∃ df, preprocess raw = Some df ∧ cell_at claim_risk df i = Some (Fz 0).
Proof.
  intros Hamt Hnum Hi.
  destruct (preprocess_claim_risk raw amt Hamt Hnum) as (df & Hdf & Hrisk).
  exists df. split; [done|].
  unfold cell_at. rewrite Hrisk. simpl.
  by rewrite list_lookup_fmap, Hi.
Qed.

Lemma missing_amount_label_zero_witness :
  getitem claim_amount_SZL demo_raw = Some demo_amount ∧
  is_int_or_float (s_dtype demo_amount) = true ∧
  s_values demo_amount !! 1 = Some NaN ∧
  ∃ df, preprocess demo_raw = Some df ∧ cell_at claim_risk df 1 = Some (Fz 0).
Proof.
  split; [reflexivity|]. split; [reflexivity|]. split; [reflexivity|].
  apply (missing_amount_label_zero demo_raw demo_amount 1); reflexivity.
Defined.

(** ** Schema alignment (lines 238-241) *)

Section Groups.
Implicit Types (cols : list (string * Series)) (l : string).

Lemma group_nil l cols : l ∉ cols.*1 → group l cols = [].
Proof.
  intros Hl. unfold group. induction cols as [|c cols IH]; [done|].
  simpl in Hl. apply not_elem_of_cons in Hl as [Hne Hl].
  rewrite filter_cons_False by congruence. by apply IH.
Qed.

Lemma group_not_nil l cols : l ∈ cols.*1 → group l cols ≠ [].
Proof.
  intros Hl Hnil. apply list_elem_of_fmap in Hl as (c & -> & Hc).
  assert (c ∈ group c.1 cols) as Hin by (by apply list_elem_of_filter).
  rewrite Hnil in Hin. by apply elem_of_nil in Hin.
Qed.

Lemma group_app l a b : group l (a ++ b) = group l a ++ group l b.
Proof. apply filter_app. Qed.

Lemma group_group l l' cols :
  group l (group l' cols) = if decide (l = l') then group l cols else [].
Proof.
  unfold group. induction cols as [|c cols IH]; [by case_decide|].
  destruct (decide (c.1 = l')) as [Hc|Hc].
  - rewrite (filter_cons_True (λ c, c.1 = l')) by done.
    destruct (decide (c.1 = l)) as [Hl|Hl].
    + rewrite !filter_cons_True by done. rewrite IH.
      rewrite !decide_True by congruence. done.
    + rewrite !filter_cons_False by done. rewrite IH.
      case_decide; [done|]. done.
  - rewrite (filter_cons_False (λ c, c.1 = l')) by done. rewrite IH.
    case_decide as Hll; [|done]. subst l'. by rewrite filter_cons_False.
Qed.

Lemma group_concat l (ls : list (list (string * Series))) :
  group l (concat ls) = concat (map (group l) ls).
Proof.
  induction ls as [|x ls IH]; [done|]. simpl. by rewrite group_app, IH.
Qed.

(** With distinct labels, a label selects exactly its column. *)
Lemma group_singleton l s cols :
  NoDup cols.*1 → lookup_col l cols = Some s → group l cols = [(l, s)].
Proof.
  unfold group. induction cols as [|c cols IH]; [done|].
  simpl. intros Hnd Hl. apply NoDup_cons in Hnd as [Hc Hnd].
  destruct (decide (c.1 = l)) as [Hcl|Hcl].
  - injection Hl as <-. rewrite filter_cons_True by done.
    fold (group l cols). rewrite group_nil by (by rewrite <- Hcl).
    destruct c; simpl in *; by subst.
  - rewrite filter_cons_False by done. by apply IH.
Qed.

(** Reselecting the labels of a selection gives the selection back when no
    label is listed twice. *)
Lemma regroup labels l cols :
  NoDup labels → l ∈ labels →
  concat (map (λ l', group l (group l' cols)) labels) = group l cols.
Proof.
  induction labels as [|a labels IH]; intros Hnd Hl.
  - by apply elem_of_nil in Hl.
  - apply NoDup_cons in Hnd as [Ha Hnd]. simpl. rewrite group_group.
    destruct (decide (l = a)) as [->|Hne].
    + assert (concat (map (λ l', group a (group l' cols)) labels) = []) as ->.
      { clear IH Hl Hnd. induction labels as [|b labels IH]; [done|].
        apply not_elem_of_cons in Ha as [Hab Ha]. simpl.
        rewrite group_group, decide_False by done. by apply IH. }
      by rewrite app_nil_r.
    + apply elem_of_cons in Hl as [Hl|Hl]; [done|]. by apply IH.
Qed.

End Groups.

Lemma getitem_list_present labels df :
  Forall (λ l, l ∈ names df) labels →
  getitem_list labels df
  = Some (mkFrame (nrows df) (concat (map (λ l, group l (columns df)) labels))).
Proof.
  intros Hall. unfold getitem_list.
  rewrite (proj2 (mapM_Some _ _ (map (λ l, group l (columns df)) labels))); [done|].
  induction Hall as [|l labels Hl Hall IH]; simpl; constructor; [|done].
  pose proof (group_not_nil l (columns df) Hl) as Hne.
  unfold group in *. by destruct (filter _ (columns df)).
Qed.

Lemma getitem_list_absent labels df :
  ¬ Forall (λ l, l ∈ names df) labels → getitem_list labels df = None.
Proof.
  intros Hnot. unfold getitem_list.
  rewrite (proj2 (mapM_None _ _)); [done|].
  apply not_Forall_Exists in Hnot; [|apply _].
  eapply Exists_impl; [exact Hnot|]. simpl. intros l Hl.
  fold (group l (columns df)). by rewrite group_nil.
Qed.

Lemma setitem_fresh name s df :
  name ∉ names df →
  setitem name s df = mkFrame (nrows df) (columns df ++ [(name, s)]).
Proof. intros H. unfold setitem. by rewrite decide_False. Qed.

Lemma add_missing_nrows S df : nrows (add_missing S df) = nrows df.
Proof.
  unfold add_missing. revert df. induction S as [|col S IH]; intros df; [done|].
  simpl. rewrite IH. case_decide; [done|]. by rewrite setitem_fresh.
Qed.

Lemma add_missing_names S df l :
  l ∈ names (add_missing S df) ↔ l ∈ names df ∨ l ∈ S.
Proof.
  unfold add_missing. revert df. induction S as [|col S IH]; intros df; simpl.
  - rewrite elem_of_nil. tauto.
  - rewrite IH, elem_of_cons. case_decide as Hcol.
    + split; [tauto|]. intros [?|[->|?]]; auto.
    + rewrite setitem_fresh by done. unfold names. simpl.
      rewrite fmap_app, elem_of_app. simpl. rewrite list_elem_of_singleton. tauto.
Qed.

(** Columns the frame already has are left as they are. *)
Lemma add_missing_present S df l :
  l ∈ names df → group l (columns (add_missing S df)) = group l (columns df).
Proof.
  unfold add_missing. revert df. induction S as [|col S IH]; intros df Hl; [done|].
  simpl. case_decide as Hcol; [by apply IH|].
  rewrite IH.
  - rewrite setitem_fresh by done. simpl. rewrite group_app.
    unfold group at 2. rewrite filter_cons_False, filter_nil, app_nil_r; [done|].
    simpl. congruence.
  - rewrite setitem_fresh by done. unfold names. simpl.
    rewrite fmap_app, elem_of_app. by left.
Qed.

(** A label of the schema the frame lacks gets one column of zeros. *)
Lemma add_missing_absent S df l :
  l ∉ names df → l ∈ S →
  group l (columns (add_missing S df)) = [(l, zeros (nrows df))].
Proof.
  unfold add_missing. revert df. induction S as [|col S IH]; intros df Hl HS.
  - by apply elem_of_nil in HS.
  - simpl. destruct (decide (l = col)) as [->|Hne].
    + rewrite decide_False by done.
      pose proof (add_missing_present S (setitem col (zeros (nrows df)) df) col) as Hp.
      unfold add_missing in Hp. rewrite Hp.
      * rewrite setitem_fresh by done. simpl. rewrite group_app, group_nil by done.
        unfold group. by rewrite filter_cons_True.
      * rewrite setitem_fresh by done. unfold names. simpl.
        rewrite fmap_app, elem_of_app. right. simpl. apply list_elem_of_singleton. done.
    + apply elem_of_cons in HS as [HS|HS]; [done|].
      case_decide as Hcol; [by apply IH|].
      rewrite IH; [by rewrite setitem_fresh| |done].
      rewrite setitem_fresh by done. unfold names. simpl.
      rewrite fmap_app, not_elem_of_app. split; [done|].
      simpl. rewrite list_elem_of_singleton. done.
Qed.

Lemma add_missing_id S df :
  Forall (λ l, l ∈ names df) S → add_missing S df = df.
Proof.
  unfold add_missing. induction 1 as [|col S Hcol HS IH]; [done|].
  simpl. by rewrite decide_True.
Qed.

(** Alignment never fails and selects the groups of the schema's labels. *)
Lemma align_groups S X :
  align S X = Some (mkFrame (nrows X)
                      (concat (map (λ l, group l (columns (add_missing S X))) S))).
Proof.
  unfold align. rewrite getitem_list_present.
  - by rewrite add_missing_nrows.
  - apply Forall_forall. intros l Hl. apply add_missing_names. by right.
Qed.

Lemma lookup_col_elem name s cols : lookup_col name cols = Some s → (name, s) ∈ cols.
Proof.
  induction cols as [|c cols IH]; [done|]. simpl. case_decide as Hc.
  - intros [= <-]. subst name. destruct c. apply elem_of_cons. by left.
  - intros H. apply elem_of_cons. right. by apply IH.
Qed.

Lemma concat_singletons {A B} (f : A → B) (l : list A) :
  concat (map (λ x, [f x]) l) = map f l.
Proof. induction l as [|x l IH]; [done|]. simpl. by rewrite IH. Qed.

Lemma zeros_length n : length (s_values (zeros n)) = n.
Proof. apply length_replicate. Qed.

(** C5: aligning a record set with distinct column labels to a schema [S]
    yields exactly the columns of [S] in the order of [S]: a column of the
    input is passed through unchanged, a column the input lacks is a column
    of zeros, columns outside [S] are gone, and the row count is kept. *)
Theorem align_exact_schema S X :
  NoDup (names X) →
  ∃ Y, align S X = Some Y ∧
    columns Y = map (λ col, (col, default (zeros (nrows X)) (getitem col X))) S ∧
    names Y = S ∧
    nrows Y = nrows X ∧
    (wf_frame X → wf_frame Y).
Proof.
  intros Hnd. eexists. split; [apply align_groups|]. simpl.
  assert (concat (map (λ l, group l (columns (add_missing S X))) S)
          = map (λ col, (col, default (zeros (nrows X)) (getitem col X))) S) as Hcols.
  { rewrite <- (concat_singletons
                  (λ col, (col, default (zeros (nrows X)) (getitem col X))) S).
    f_equal. apply Forall_fmap_ext, Forall_forall. intros l Hl. unfold getitem.
    destruct (lookup_col l (columns X)) as [s|] eqn:Hlook; simpl.
    - rewrite add_missing_present by (apply lookup_col_is_Some; by rewrite Hlook).
      by apply group_singleton.
    - apply add_missing_absent; [|done]. by apply lookup_col_None. }
  rewrite Hcols. split; [done|]. split; [|split; [done|]].
  - unfold names. simpl. rewrite <- list_fmap_compose. apply list_fmap_id.
  - unfold wf_frame. simpl. intros Hwf. apply Forall_fmap, Forall_forall.
    intros l _. simpl. unfold getitem.
    destruct (lookup_col l (columns X)) as [s|] eqn:Hlook; simpl.
    + apply lookup_col_elem in Hlook.
      by apply (proj1 (Forall_forall _ _) Hwf (l, s)).
    + apply zeros_length.
Qed.

Lemma align_exact_schema_witness :
  NoDup (names demo_input) ∧
  ∃ Y, align demo_schema demo_input = Some Y ∧
    columns Y = map (λ col, (col, default (zeros (nrows demo_input)) (getitem col demo_input)))
                  demo_schema ∧
    names Y = demo_schema ∧
    nrows Y = nrows demo_input ∧
    (wf_frame demo_input → wf_frame Y).
Proof.
  assert (NoDup (names demo_input)) as Hnd by (apply (bool_decide_unpack _); vm_compute; exact I).
  split; [exact Hnd|]. exact (align_exact_schema demo_schema demo_input Hnd).
Defined.

(** C4: alignment against a schema whose labels are distinct is idempotent:
    it always succeeds, and aligning its result again returns that result. *)
Theorem align_idempotent S X :
  NoDup S →
  ∃ Y, align S X = Some Y ∧ align S Y = Some Y.
Proof.
  intros Hnd. eexists. split; [apply align_groups|].
  set (am := columns (add_missing S X)).
  set (Y := mkFrame (nrows X) (concat (map (λ l, group l am) S))).
  assert (∀ l, l ∈ S → group l (columns Y) = group l am) as Hre.
  { intros l Hl. simpl. rewrite group_concat, map_map. by apply regroup. }
  assert (Forall (λ l, l ∈ names Y) S) as Hnames.
  { apply Forall_forall. intros l Hl.
    destruct (decide (l ∈ names Y)) as [|Hnot]; [done|].
    apply group_nil in Hnot. rewrite Hre in Hnot by done.
    exfalso. revert Hnot. apply group_not_nil.
    apply add_missing_names. by right. }
  rewrite align_groups, add_missing_id by done.
  unfold Y at 2. do 3 f_equal.
  apply Forall_fmap_ext, Forall_forall. intros l Hl. by apply Hre.
Qed.

Lemma align_idempotent_witness :
  NoDup demo_schema ∧
  ∃ Y, align demo_schema demo_input = Some Y ∧ align demo_schema Y = Some Y.
Proof.
  assert (NoDup demo_schema) as Hnd by (apply (bool_decide_unpack _); vm_compute; exact I).
  split; [exact Hnd|]. exact (align_idempotent demo_schema demo_input Hnd).
Defined.

(** What pandas does with a label carried twice: selecting it returns every
    column that carries it, so a repeated label multiplies columns. *)
Example align_repeated_label :
  let X := mkFrame 1 [("a", ints [5]%Z)] in
  (names <$> align ["a"; "a"] X) = Some ["a"; "a"] ∧
  (names <$> (align ["a"; "a"] X ≫= align ["a"; "a"])) = Some ["a"; "a"; "a"; "a"] ∧
  (names <$> align ["a"] (mkFrame 1 [("a", ints [5]%Z); ("a", ints [6]%Z)]))
    = Some ["a"; "a"].
Proof. vm_compute. done. Qed.

(** C4 for every schema fails on a schema that names a column twice: the
    first alignment selects the column ["a"] twice, the second selects both
    of these columns for each of the two entries of the schema, and the
    frame of four columns is not the frame of two. *)
Lemma align_twice_differs :
  (names <$> align demo_repeated_schema demo_single) = Some ["a"; "a"] ∧
  (names <$> (align demo_repeated_schema demo_single ≫= align demo_repeated_schema))
    = Some ["a"; "a"; "a"; "a"] ∧
  (align demo_repeated_schema demo_single ≫= align demo_repeated_schema)
    ≠ align demo_repeated_schema demo_single.
Proof. vm_compute. repeat split; try done. Qed.

(** C5 for every record set fails on one that carries a label twice: the
    selection returns both columns ["a"], and the result has two columns
    where the schema has one. *)
Lemma align_keeps_both_columns :
  names demo_repeated_input = ["a"; "a"] ∧
  (names <$> align ["a"] demo_repeated_input) = Some ["a"; "a"] ∧
  (names <$> align ["a"] demo_repeated_input) ≠ Some ["a"].
Proof. vm_compute. repeat split; try done. Qed.

(** ** Class balancing (lines 100-106) *)

Lemma filter_lookup_seq {A} `{!Inhabited A} (P : A → Prop) `{∀ x, Decision (P x)}
    (pre l : list A) :
  length (filter (λ i, P ((pre ++ l) !!! i)) (seq (length pre) (length l)))
  = length (filter P l).
Proof.
  revert pre. induction l as [|x l IH]; intros pre; [done|].
  simpl. rewrite !filter_cons.
  rewrite list_lookup_total_middle by done.
  specialize (IH (pre ++ [x])). rewrite <- app_assoc, length_app in IH.
  simpl in IH. rewrite Nat.add_1_r in IH.
  destruct (decide (P x)); simpl; by rewrite IH.
Qed.

Lemma length_where_eq v s : length (where_eq v s) = count_eq v s.
Proof.
  unfold where_eq, count_eq.
  exact (filter_lookup_seq (λ c, cell_eqb c (Num v)) [] (s_values s)).
Qed.







Lemma getitem_take_rows name idx df :
  getitem name (take_rows idx df) = take_series idx <$> getitem name df.
Proof. unfold getitem, take_rows. simpl. apply lookup_col_map_snd. Qed.

Lemma names_take_rows idx df : names (take_rows idx df) = names df.
Proof.
  unfold names, take_rows. simpl. rewrite <- list_fmap_compose.
  by apply list_fmap_ext.
Qed.



(** In the script the label column of [train_data] is [y_train]: the
    features carry no column of that name. *)
Lemma train_data_labels X_train y_train :
  claim_risk ∉ names X_train →
  getitem claim_risk (train_data X_train y_train) = Some y_train.
Proof.
  intros Hnot. unfold getitem, train_data, concat_columns. cbn [columns].
  rewrite lookup_col_app. apply lookup_col_None in Hnot. rewrite Hnot.
  cbn [lookup_col fst snd]. by rewrite decide_True.
Qed.

Section Balancing.
Context `{L : Library} `{!LibrarySpec L}.



End Balancing.



(** ** The script as a store transformer *)

Section StoreLemmas.
Context `{L : Library}.

Lemma bind_inv {A B} (m : M A) (k : A → M B) σ r :
  bind m k σ = Some r → ∃ a σ1, m σ = Some (a, σ1) ∧ k a σ1 = Some r.
Proof.
  unfold bind. destruct (m σ) as [[a σ1]|]; [|done]. intros H. by exists a, σ1.
Qed.

Lemma lift_inv {A} (o : option A) σ a σ' :
  lift o σ = Some (a, σ') → o = Some a ∧ σ' = σ.
Proof. unfold lift. destruct o; simpl; [|done]. by intros [= -> ->]. Qed.

Lemma frame_inv x σ df σ' :
  frame x σ = Some (df, σ') → globals σ !! x = Some (VFrame df) ∧ σ' = σ.
Proof.
  unfold frame. destruct (globals σ !! x) as [[]|]; try done. by intros [= -> ->].
Qed.

Lemma series_inv x σ s σ' :
  series x σ = Some (s, σ') → globals σ !! x = Some (VSeries s) ∧ σ' = σ.
Proof.
  unfold series. destruct (globals σ !! x) as [[]|]; try done. by intros [= -> ->].
Qed.

Lemma fitted_inv x σ m σ' :
  fitted x σ = Some (m, σ') → globals σ !! x = Some (VModel m) ∧ σ' = σ.
Proof.
  unfold fitted. destruct (globals σ !! x) as [[]|]; try done. by intros [= -> ->].
Qed.

Lemma float_inv x σ q σ' :
  float x σ = Some (q, σ') → globals σ !! x = Some (VFloat q) ∧ σ' = σ.
Proof.
  unfold float. destruct (globals σ !! x) as [[]|]; try done. by intros [= -> ->].
Qed.

Lemma assign_inv x v σ u σ' :
  assign x v σ = Some (u, σ') →
  σ' = mkState (<[x := v]> (globals σ)) (files σ) (log σ).
Proof. by intros [= _ <-]. Qed.

Lemma logger_info_inv r σ u σ' :
  logger_info r σ = Some (u, σ') →
  σ' = mkState (globals σ) (files σ) (log σ ++ [r]).
Proof. by intros [= _ <-]. Qed.

Lemma joblib_dump_inv m path σ u σ' :
  joblib_dump m path σ = Some (u, σ') →
  writable path = true ∧
  σ' = mkState (globals σ) (<[path := m]> (files σ)) (log σ).
Proof. unfold joblib_dump. destruct (writable path); [|done]. by intros [= _ <-]. Qed.

Lemma keeps_bind {A B} x (m : M A) (k : A → M B) :
  keeps x m → (∀ a, keeps x (k a)) → keeps x (bind m k).
Proof.
  intros Hm Hk σ b σ' (a & σ1 & H1 & H2)%bind_inv.
  rewrite (Hk a _ _ _ H2). by apply (Hm _ _ _ H1).
Qed.

Lemma keeps_lift {A} x (o : option A) : keeps x (lift o).
Proof. by intros σ a σ' [_ ->]%lift_inv. Qed.

Lemma keeps_frame x y : keeps x (frame y).
Proof. by intros σ a σ' [_ ->]%frame_inv. Qed.

Lemma keeps_series x y : keeps x (series y).
Proof. by intros σ a σ' [_ ->]%series_inv. Qed.

Lemma keeps_fitted x y : keeps x (fitted y).
Proof. by intros σ a σ' [_ ->]%fitted_inv. Qed.

Lemma keeps_float x y : keeps x (float y).
Proof. by intros σ a σ' [_ ->]%float_inv. Qed.

Lemma keeps_assign x y v : x ≠ y → keeps x (assign y v).
Proof.
  intros Hne σ a σ' ->%assign_inv. simpl. by rewrite lookup_insert_ne.
Qed.

Lemma keeps_logger_info x r : keeps x (logger_info r).
Proof. by intros σ a σ' ->%logger_info_inv. Qed.

Lemma keeps_joblib_dump x m path : keeps x (joblib_dump m path).
Proof. by intros σ a σ' [_ ->]%joblib_dump_inv. Qed.

End StoreLemmas.

Ltac keeps_step :=
  first [ apply keeps_bind; [|intros ?]
        | apply keeps_lift
        | apply keeps_frame
        | apply keeps_series
        | apply keeps_fitted
        | apply keeps_float
        | apply keeps_logger_info
        | apply keeps_joblib_dump
        | apply keeps_assign; first [assumption | discriminate]
        | match goal with |- keeps _ (if ?c then _ else _) => destruct c end ].

Section Frame.
Context `{L : Library}.

(** The balancing statements rebind neither [X_test] nor [y_test]. *)
Lemma balancing_keeps (ambient : generator) x :
  x = "X_test" ∨ x = "y_test" → keeps x (balancing_stage ambient).
Proof.
  intros Hx. unfold balancing_stage. destruct Hx as [-> | ->]; repeat keeps_step.
Qed.

(** C6: the balancing statements assign only the training-side variables:
    after them [X_test] and [y_test] hold the very values they held before
    (same rows, same cells, same row count). *)
Theorem balancing_keeps_test_set (ambient : generator) σ u σ' :
  balancing_stage ambient σ = Some (u, σ') →
  globals σ' !! "X_test" = globals σ !! "X_test" ∧
  globals σ' !! "y_test" = globals σ !! "y_test".
Proof.
  intros Hrun. split.
  - apply (balancing_keeps ambient "X_test" (or_introl eq_refl) _ _ _ Hrun).
  - apply (balancing_keeps ambient "y_test" (or_intror eq_refl) _ _ _ Hrun).
Qed.

End Frame.

Lemma balancing_keeps_test_set_witness :
  match @balancing_stage demo_lib 0%Z demo_split_state with
  | Some (_, σ') =>
      globals σ' !! "X_test" = globals demo_split_state !! "X_test" ∧
      globals σ' !! "y_test" = globals demo_split_state !! "y_test"
  | None => False
  end.
Proof.
  destruct (@balancing_stage demo_lib 0%Z demo_split_state) as [[u σ']|] eqn:Hrun.
  - exact (@balancing_keeps_test_set demo_lib 0%Z demo_split_state u σ' Hrun).
  - assert (bool_decide (is_Some (@balancing_stage demo_lib 0%Z demo_split_state)) = true)
      as Hsome by (vm_compute; reflexivity).
    rewrite Hrun in Hsome. discriminate Hsome.
Defined.

Ltac store_inv :=
  repeat (cbv beta zeta in *;
    match goal with
    | H : bind _ _ _ = Some _ |- _ =>
        let a := fresh "a" in let σ1 := fresh "σ" in let H1 := fresh "Hstep" in
        apply bind_inv in H as (a & σ1 & H1 & H)
    | H : frame _ _ = Some _ |- _ => apply frame_inv in H as [H ->]
    | H : series _ _ = Some _ |- _ => apply series_inv in H as [H ->]
    | H : fitted _ _ = Some _ |- _ => apply fitted_inv in H as [H ->]
    | H : float _ _ = Some _ |- _ => apply float_inv in H as [H ->]
    | H : lift _ _ = Some _ |- _ => apply lift_inv in H as [H ->]
    | H : assign _ _ _ = Some _ |- _ => apply assign_inv in H; subst
    | H : logger_info _ _ = Some _ |- _ => apply logger_info_inv in H; subst
    | H : joblib_dump _ _ _ = Some _ |- _ => apply joblib_dump_inv in H as [? ->]
    end).

Section Gate.
Context `{L : Library}.

(** The store the metrics of lines 121-124 leave. *)
Lemma metrics_stage_inv σ u σ1 y_test y_pred :
  globals σ !! "y_test" = Some (VSeries y_test) →
  globals σ !! "y_pred_rf" = Some (VSeries y_pred) →
  metrics_stage σ = Some (u, σ1) →
  ∃ r area,
    recall_of (s_values y_test) (s_values y_pred) = Some r ∧
    σ1 = mkState (<["roc_auc" := VFloat area]>
                    (<["recall_class_1" := VFloat r]> (globals σ)))
           (files σ) (log σ).
Proof.
  intros Hy Hp Hrun. unfold metrics_stage in Hrun. store_inv.
  rewrite Hy in Hstep. injection Hstep as <-.
  rewrite Hp in Hstep0. injection Hstep0 as <-.
  eexists _, _. split; [eassumption|]. reflexivity.
Qed.

(** C2, as the code has it: whenever lines 121-129 run through, the recall
    of class 1 is the one of [y_pred_rf] against [y_test], the model file
    has been written exactly when that recall is strictly above 0.39 (not
    at 0.39, at 0.40 it has), and the fitted model, like every variable
    that lines 121-124 do not assign, is left as it was.  They do run
    through once the metrics can be computed and either the recall is at
    most 0.39 or the model file can be written. *)
Theorem persistence_gate_threshold σ y_test y_pred rf :
  globals σ !! "y_test" = Some (VSeries y_test) →
  globals σ !! "y_pred_rf" = Some (VSeries y_pred) →
  globals σ !! "rf" = Some (VModel rf) →
  (∀ u σ', (metrics_stage >> persistence_gate) σ = Some (u, σ') →
     ∃ r, recall_of (s_values y_test) (s_values y_pred) = Some r ∧
       globals σ' !! "recall_class_1" = Some (VFloat r) ∧
       globals σ' !! "rf" = Some (VModel rf) ∧
       (∀ x, x ∉ ["report"; "recall_class_1"; "fpr"; "tpr"; "_"; "roc_auc"] →
             globals σ' !! x = globals σ !! x) ∧
       ((39 # 100 < r)%Q → files σ' = <[model_path := rf]> (files σ)) ∧
       ((r <= 39 # 100)%Q → files σ' = files σ) ∧
       ((r == 39 # 100)%Q → files σ' = files σ) ∧
       ((r == 40 # 100)%Q → files σ' = <[model_path := rf]> (files σ))) ∧
  (∀ X_test r scores area,
     globals σ !! "X_test" = Some (VFrame X_test) →
     recall_of (s_values y_test) (s_values y_pred) = Some r →
     predict_proba rf X_test = Some scores →
     roc_auc (s_values y_test) scores = Some area →
     (r <= 39 # 100)%Q ∨ writable model_path = true →
     is_Some ((metrics_stage >> persistence_gate) σ)).
Proof.
  intros Hy Hp Hm. split.
  - intros u σ' Hrun. apply bind_inv in Hrun as (u1 & σ1 & Hmetrics & Hgate).
    destruct (metrics_stage_inv σ u1 σ1 y_test y_pred Hy Hp Hmetrics)
      as (r & area & Hr & ->).
    exists r. split; [done|].
    assert (files σ' = (if Qlt_le_dec (39 # 100) r
                        then <[model_path := rf]> (files σ) else files σ)
            ∧ globals σ' = <["roc_auc" := VFloat area]>
                             (<["recall_class_1" := VFloat r]> (globals σ)))
      as [Hfiles Hglobals].
    { unfold persistence_gate in Hgate. store_inv. simpl in Hstep.
      rewrite lookup_insert_ne, lookup_insert_eq in Hstep by done.
      injection Hstep as <-.
      destruct (Qlt_le_dec (39 # 100) r) as [Hlt|Hle]; store_inv; simpl in *.
      - rewrite !lookup_insert_ne in Hstep by done. rewrite Hm in Hstep.
        injection Hstep as <-. done.
      - done. }
    rewrite Hglobals.
    split; [rewrite lookup_insert_ne by done; by rewrite lookup_insert_eq|].
    split; [by rewrite !lookup_insert_ne by done|].
    split; [intros x Hx; rewrite !lookup_insert_ne; [done|..];
            intros ?; subst x; apply Hx; set_solver|].
    rewrite Hfiles. destruct (Qlt_le_dec (39 # 100) r) as [Hlt|Hle].
    + split; [done|].
      split; [intros Hle; exfalso; by apply (Qlt_not_le _ _ Hlt)|].
      split; [|done].
      intros Heq. exfalso. rewrite Heq in Hlt. by apply (Qlt_irrefl _ Hlt).
    + split; [intros Hlt; exfalso; by apply (Qlt_not_le _ _ Hlt)|].
      split; [done|]. split; [done|].
      intros Heq. exfalso. rewrite Heq in Hle. revert Hle. by apply Qlt_not_le.
  - intros X_test r scores area HX Hr Hscores Harea Hok.
    unfold metrics_stage, persistence_gate, bind, series, frame, fitted, float, lift,
      assign, logger_info, joblib_dump.
    rewrite Hy, Hp, Hr. simpl.
    rewrite lookup_insert_ne by done. rewrite Hm. simpl.
    rewrite lookup_insert_ne by done. rewrite HX. simpl.
    rewrite Hscores. simpl. rewrite Harea. simpl.
    rewrite lookup_insert_ne by done. rewrite lookup_insert_eq.
    destruct (Qlt_le_dec (39 # 100) r) as [Hlt|Hle]; simpl; [|by eexists].
    rewrite !lookup_insert_ne by done. rewrite Hm.
    destruct Hok as [Hle|Hw]; [exfalso; by apply (Qlt_not_le _ _ Hlt)|].
    rewrite Hw. simpl. by eexists.
Qed.

End Gate.

Lemma persistence_gate_threshold_witness :
  globals (@demo_evaluated demo_lib tt 40) !! "y_test"
    = Some (VSeries (mkSeries int64 (replicate 100 (Fz 1)))) ∧
  globals (@demo_evaluated demo_lib tt 40) !! "y_pred_rf"
    = Some (VSeries (mkSeries int64 (replicate 40 (Fz 1) ++ replicate 60 (Fz 0)))) ∧
  globals (@demo_evaluated demo_lib tt 40) !! "rf" = Some (@VModel demo_lib tt) ∧
  match (@metrics_stage demo_lib >> @persistence_gate demo_lib)
          (@demo_evaluated demo_lib tt 40) with
  | Some (_, σ') =>
      (∃ r, recall_of (replicate 100 (Fz 1)) (replicate 40 (Fz 1) ++ replicate 60 (Fz 0))
              = Some r ∧ (r == 40 # 100)%Q) ∧
      files σ' = <[model_path := tt]> ∅
  | None => False
  end.
Proof.
  split; [reflexivity|]. split; [reflexivity|]. split; [reflexivity|].
  destruct (@persistence_gate_threshold demo_lib (@demo_evaluated demo_lib tt 40)
              _ _ tt eq_refl eq_refl eq_refl) as [Hdone Hruns].
  destruct ((@metrics_stage demo_lib >> @persistence_gate demo_lib)
              (@demo_evaluated demo_lib tt 40)) as [[u σ']|] eqn:Hrun.
  - destruct (Hdone u σ' eq_refl) as (r & Hr & _ & _ & _ & _ & _ & _ & H40).
    assert (r == 40 # 100)%Q as Heq.
    { revert Hr. unfold recall_of. simpl. intros [= <-]. reflexivity. }
    split; [by exists r|]. exact (H40 Heq).
  - destruct (Hruns _ (40 / 100)%Q (replicate 100 1%Q) (1 # 2)%Q
                eq_refl eq_refl eq_refl eq_refl (or_intror eq_refl)) as [? [=]].
Defined.

(** C2 as the specification words it fails on a machine without the
    directory [/content]: with recall 0.40 line 126 raises, the run of
    lines 121-129 ends there, and no model file exists. *)
Lemma gate_fails_without_content_directory :
  recall_of (replicate 100 (Fz 1)) (replicate 40 (Fz 1) ++ replicate 60 (Fz 0))
    = Some (40 / 100)%Q ∧
  (39 # 100 < 40 / 100)%Q ∧
  (@metrics_stage no_content_lib >> @persistence_gate no_content_lib)
    (@demo_evaluated no_content_lib tt 40) = None.
Proof.
  split; [reflexivity|]. split; [reflexivity|].
  assert (bool_decide (is_Some
            ((@metrics_stage no_content_lib >> @persistence_gate no_content_lib)
               (@demo_evaluated no_content_lib tt 40))) = false) as Hnone
    by (vm_compute; reflexivity).
  destruct ((@metrics_stage no_content_lib >> @persistence_gate no_content_lib) _)
    as [r|]; [|done].
  exfalso. rewrite bool_decide_eq_false in Hnone. apply Hnone. by eexists.
Qed.

(** The two boundary runs: 39 of 100 positives found, then 40 of 100. *)
Example gate_at_039_and_040 :
  recall_of (replicate 100 (Fz 1)) (replicate 39 (Fz 1) ++ replicate 61 (Fz 0))
    = Some (39 / 100)%Q ∧
  (persistence_gate (demo_gate_state (39 / 100)) ≫= λ r, files r.2 !! model_path) = None ∧
  recall_of (replicate 100 (Fz 1)) (replicate 40 (Fz 1) ++ replicate 60 (Fz 0))
    = Some (40 / 100)%Q ∧
  (persistence_gate (demo_gate_state (40 / 100)) ≫= λ r, files r.2 !! model_path) = Some tt.
Proof. vm_compute. done. Qed.

(** ** The clustering features (lines 85-86) *)

Lemma present_median vs : present vs ≠ [] → ∃ m, median vs = Num m.
Proof.
  unfold median. intros Hne.
  destruct (present vs) as [|x xs]; [done|]. cbn [Qsort foldr].
  fold (Qsort xs).
  destruct (Qinsert x (Qsort xs)) as [|y ys] eqn:Hins.
  - exfalso. revert Hins. generalize (Qsort xs). intros l.
    destruct l as [|z l]; cbn [Qinsert]; [done|]. by destruct (Qle_bool x z).
  - destruct (Nat.even (length (y :: ys))); eexists; reflexivity.
Qed.

Lemma fillna_value_full x vs : existsb isna (fillna_value (Num x) vs) = false.
Proof.
  induction vs as [|c vs IH]; [done|]. simpl. rewrite IH. by destruct c.
Qed.

Lemma fillna_value_present v vs i x :
  vs !! i = Some (Num x) → fillna_value v vs !! i = Some (Num x).
Proof. intros H. unfold fillna_value. by rewrite list_lookup_fmap, H. Qed.

Lemma preprocess_amount raw amt df :
  getitem claim_amount_SZL raw = Some amt →
  s_dtype amt = int64 ∨ s_dtype amt = float64 →
  present (s_values amt) ≠ [] →
  preprocess raw = Some df →
  getitem claim_amount_SZL df = Some (imputed amt).
Proof.
  intros Hamt Hnum Hpres. unfold preprocess, derive_claim_risk.
  rewrite Hamt. simpl.
  destruct (is_int_or_float (s_dtype amt)); simpl; [|done]. intros [= <-].
  unfold getitem, fillna_unknown, fillna_median. simpl.
  rewrite !lookup_col_map_snd.
  pose proof (getitem_setitem_ne claim_amount_SZL claim_risk
                (raw_labels amt) raw) as Hset.
  unfold getitem in Hset. rewrite Hset by done.
  unfold getitem in Hamt. rewrite Hamt. simpl. f_equal.
  destruct (present_median _ Hpres) as [m Hm].
  unfold fillna_median_series, imputed. rewrite Hm.
  assert (is_numeric_or_bool (s_dtype amt) = true) as -> by (by destruct Hnum as [-> | ->]).
  unfold fillna_unknown_series. simpl. by rewrite fillna_value_full.
Qed.

Section Segmentation.
Context `{L : Library}.

Lemma date_features_keeps name col df df' :
  name ≠ col → name ≠ col +:+ "_year" → name ≠ col +:+ "_month" →
  name ≠ col +:+ "_day" →
  date_features col df = Some df' → getitem name df' = getitem name df.
Proof.
  intros Hc Hy Hm Hd. unfold date_features.
  destruct (getitem col df) as [s|]; [|by intros [= <-]].
  destruct (mapM to_datetime (s_values s)) as [ds|]; simpl; [|done].
  intros Hdrop. rewrite (getitem_drop_columns name [col] _ _ Hdrop).
  - by rewrite !getitem_setitem_ne.
  - apply not_elem_of_cons. split; [done | apply not_elem_of_nil].
Qed.

Lemma convert_dates_keeps name df df' :
  name = claim_amount_SZL ∨ name = claim_risk →
  convert_dates df = Some df' → getitem name df' = getitem name df.
Proof.
  intros Hname. unfold convert_dates, date_cols. simpl.
  destruct (date_features "policy_start_date" df) as [df1|] eqn:H1; simpl; [|done].
  intros H2.
  rewrite (date_features_keeps name "claim_date" df1 df');
    [|by destruct Hname as [-> | ->]..|done].
  apply (date_features_keeps name "policy_start_date" df df1);
    [by destruct Hname as [-> | ->]..|done].
Qed.

End Segmentation.

Lemma lookup_col_group name l cols :
  lookup_col name (group l cols) = if decide (l = name) then lookup_col name cols else None.
Proof.
  unfold group. induction cols as [|c cols IH]; [by case_decide|].
  rewrite filter_cons. destruct (decide (c.1 = l)) as [Hc|Hc]; simpl.
  - rewrite IH. destruct (decide (c.1 = name)), (decide (l = name)); congruence.
  - rewrite IH. destruct (decide (c.1 = name)), (decide (l = name)); congruence.
Qed.

(** A column selection by labels finds a label's column where the frame
    does, provided the label was asked for. *)
Lemma lookup_col_groups name labels cols :
  lookup_col name (concat (map (λ l, group l cols) labels))
  = if decide (name ∈ labels) then lookup_col name cols else None.
Proof.
  induction labels as [|a labels IH]; cbn [map concat].
  - cbn [lookup_col]. case_decide as H; [by apply elem_of_nil in H|done].
  - rewrite lookup_col_app, lookup_col_group, IH.
    destruct (decide (a = name)) as [->|Hne].
    + rewrite (decide_True (P := name ∈ name :: labels)) by (apply elem_of_cons; by left).
      destruct (lookup_col name cols); [done|]. by case_decide.
    + destruct (decide (name ∈ labels)) as [Hin|Hnin].
      * rewrite decide_True; [done|]. apply elem_of_cons. by right.
      * rewrite decide_False; [done|]. apply not_elem_of_cons. split; [congruence|done].
Qed.

Lemma lookup_col_drop name (labels : list string) cols :
  lookup_col name (filter (λ c, c.1 ∉ labels) cols)
  = if decide (name ∈ labels) then None else lookup_col name cols.
Proof.
  induction cols as [|c cols IH]; [by case_decide|].
  rewrite filter_cons. cbn [lookup_col].
  destruct (decide (c.1 ∉ labels)) as [Hc|Hc]; cbn [lookup_col]; rewrite IH.
  - destruct (decide (c.1 = name)) as [Heq|Hne]; [|done].
    rewrite decide_False; [done|]. by rewrite <- Heq.
  - destruct (decide (c.1 = name)) as [Heq|Hne]; [|done].
    assert (name ∈ labels) as Hin by (rewrite <- Heq; by apply dec_stable).
    by repeat case_decide.
Qed.

Lemma numeric_cols_names df n : n ∈ numeric_cols df → n ∈ names df.
Proof.
  unfold numeric_cols, names. intros (c & -> & Hc)%list_elem_of_fmap.
  apply list_elem_of_filter in Hc as [_ Hc]. apply list_elem_of_fmap. eauto.
Qed.

Lemma numeric_cols_lookup df n s :
  getitem n df = Some s → s_dtype s = int64 ∨ s_dtype s = float64 →
  n ∈ numeric_cols df.
Proof.
  intros Hget Hnum. apply lookup_col_elem in Hget.
  unfold numeric_cols. apply list_elem_of_fmap. exists (n, s). split; [done|].
  by apply list_elem_of_filter.
Qed.

Lemma X_segment_columns df :
  X_segment df
  = Some (mkFrame (nrows df)
            (filter (λ c, c.1 ∉ [claim_risk])
               (concat (map (λ l, group l (columns df)) (numeric_cols df))))).
Proof.
  unfold X_segment. rewrite getitem_list_present; [done|].
  apply Forall_forall. intros n. apply numeric_cols_names.
Qed.

Section ClusteringFeatures.
Context `{L : Library}.

Lemma prepare_inv raw df :
  prepare raw = Some df →
  ∃ df0, preprocess raw = Some df0 ∧ convert_dates df0 = Some df.
Proof.
  unfold prepare. destruct (preprocess raw) as [df0|]; simpl; [|done]. eauto.
Qed.

(** C10, as the code has it: when the amount column is numeric and holds at
    least one value, the frame handed to the clustering consists of the
    numeric columns other than [claim_risk] and contains the amount column
    as it stands after the median imputation.  A record whose uploaded
    amount is present is clustered on that same amount; a record whose
    amount is missing is clustered on the column median. *)
Theorem X_segment_imputed_amount raw amt df :
  getitem claim_amount_SZL raw = Some amt →
  s_dtype amt = int64 ∨ s_dtype amt = float64 →
  present (s_values amt) ≠ [] →
  prepare raw = Some df →
  ∃ X, X_segment df = Some X ∧
    (∀ n, n ∈ names X ↔ n ∈ numeric_cols df ∧ n ≠ claim_risk) ∧
    claim_amount_SZL ∈ names X ∧
    getitem claim_amount_SZL X = Some (imputed amt) ∧
    (∀ i x, s_values amt !! i = Some (Num x) →
            cell_at claim_amount_SZL X i = Some (Num x)) ∧
    (∀ i, s_values amt !! i = Some NaN →
          cell_at claim_amount_SZL X i = Some (median (s_values amt))).
Proof.
  intros Hamt Hnum Hpres (df0 & Hpre & Hdates)%prepare_inv.
  assert (getitem claim_amount_SZL df = Some (imputed amt)) as Hdf.
  { rewrite (convert_dates_keeps claim_amount_SZL df0 df) by auto.
    by apply (preprocess_amount raw). }
  eexists. split; [apply X_segment_columns|].
  assert (∀ n, n ∈ numeric_cols df → n ≠ claim_risk →
            getitem n (mkFrame (nrows df)
              (filter (λ c, c.1 ∉ [claim_risk])
                 (concat (map (λ l, group l (columns df)) (numeric_cols df)))))
            = getitem n df) as Hsel.
  { intros n Hn Hne. unfold getitem. simpl.
    rewrite lookup_col_drop, decide_False, lookup_col_groups, decide_True; try done.
    apply not_elem_of_cons. split; [done | apply not_elem_of_nil]. }
  assert (claim_amount_SZL ∈ numeric_cols df) as Hin
    by (by apply (numeric_cols_lookup df _ (imputed amt))).
  split; [|split; [|split; [|split]]].
  - intros n. unfold names. simpl. rewrite <- lookup_col_is_Some.
    rewrite lookup_col_drop, lookup_col_groups. split.
    + intros Hsome. destruct (decide (n ∈ [claim_risk])) as [|Hn].
      { by destruct Hsome. }
      destruct (decide (n ∈ numeric_cols df)); [|by destruct Hsome].
      split; [done|]. intros ->. apply Hn, elem_of_cons. by left.
    + intros [Hn Hne]. rewrite decide_False, decide_True; try done.
      * apply lookup_col_is_Some. by apply numeric_cols_names.
      * apply not_elem_of_cons. split; [done | apply not_elem_of_nil].
  - unfold names. apply lookup_col_is_Some.
    pose proof (Hsel claim_amount_SZL Hin ltac:(done)) as H.
    unfold getitem in H, Hdf. cbn [columns] in H |- *. rewrite H, Hdf. done.
  - rewrite Hsel by done. exact Hdf.
  - intros i x Hi. unfold cell_at. rewrite Hsel, Hdf by done. simpl.
    by apply fillna_value_present.
  - intros i Hi. unfold cell_at. rewrite Hsel, Hdf by done. simpl.
    unfold fillna_value. by rewrite list_lookup_fmap, Hi.
Qed.

End ClusteringFeatures.

Lemma X_segment_imputed_amount_witness :
  getitem claim_amount_SZL demo_raw = Some demo_amount ∧
  (s_dtype demo_amount = int64 ∨ s_dtype demo_amount = float64) ∧
  present (s_values demo_amount) ≠ [] ∧
  match @prepare demo_lib demo_raw with
  | Some df =>
      ∃ X, X_segment df = Some X ∧
        (∀ n, n ∈ names X ↔ n ∈ numeric_cols df ∧ n ≠ claim_risk) ∧
        claim_amount_SZL ∈ names X ∧
        getitem claim_amount_SZL X = Some (imputed demo_amount) ∧
        (∀ i x, s_values demo_amount !! i = Some (Num x) →
                cell_at claim_amount_SZL X i = Some (Num x)) ∧
        (∀ i, s_values demo_amount !! i = Some NaN →
              cell_at claim_amount_SZL X i = Some (median (s_values demo_amount)))
  | None => False
  end.
Proof.
  assert (present (s_values demo_amount) ≠ []) as Hpres by (vm_compute; discriminate).
  split; [reflexivity|]. split; [by right|]. split; [exact Hpres|].
  destruct (@prepare demo_lib demo_raw) as [df|] eqn:Hprep.
  - exact (@X_segment_imputed_amount demo_lib demo_raw demo_amount df
             eq_refl (or_intror eq_refl) Hpres Hprep).
  - vm_compute in Hprep. discriminate Hprep.
Defined.

(** C10 as the specification words it fails on a dataset with missing
    amounts.  On the sample dataset record 1 has no amount, its label comes
    from that missing value, and the clustering sees 600 (the median) in its
    place, so the clustered column is not the uploaded one.  When every
    amount is missing, the column is turned into 'Unknown' strings by line 72
    and does not reach the clustering at all. *)
Lemma X_segment_amount_not_raw :
  getitem claim_amount_SZL demo_raw = Some demo_amount ∧
  s_dtype demo_amount = float64 ∧
  ((@prepare demo_lib demo_raw ≫= X_segment) ≫= getitem claim_amount_SZL)
    ≠ Some demo_amount ∧
  s_values demo_amount !! 1 = Some NaN ∧
  ((@prepare demo_lib demo_raw ≫= X_segment) ≫= λ X, cell_at claim_amount_SZL X 1)
    = Some (Num 600) ∧
  (s_dtype <$> getitem claim_amount_SZL demo_all_missing) = Some float64 ∧
  (names <$> (@prepare demo_lib demo_all_missing ≫= X_segment)) = Some ["age"].
Proof. vm_compute. repeat split; try done. Qed.

(** ** The feature matrices of the classifier (lines 97-117) *)

Lemma names_concat_rows a b c : concat_rows a b = Some c → names c = names a.
Proof.
  unfold concat_rows. case_decide as Hnames; [|done]. intros [= <-].
  unfold names in *. simpl.
  revert Hnames. generalize (columns b). induction (columns a) as [|x xs IH];
    intros [|y ys]; simpl; try done.
  intros [= _ H]. f_equal. by apply IH.
Qed.

Lemma names_drop_columns labels df df' n :
  drop_columns labels df = Some df' → n ∈ names df' → n ∈ names df ∧ n ∉ labels.
Proof.
  unfold drop_columns. case_decide; [|done]. intros [= <-].
  unfold names. simpl. intros (c & -> & Hc)%list_elem_of_fmap.
  apply list_elem_of_filter in Hc as [Hc Hin]. split; [|done].
  apply list_elem_of_fmap. eauto.
Qed.

Lemma names_majority td maj : majority td = Some maj → names maj = names td.
Proof.
  unfold majority. destruct (getitem claim_risk td); simpl; [|done].
  intros [= <-]. apply names_take_rows.
Qed.

Ltac run_inv :=
  repeat (cbv beta zeta in *;
    match goal with
    | H : bind _ _ _ = Some _ |- _ =>
        let a := fresh "a" in let σ1 := fresh "σ" in let H1 := fresh "Hstep" in
        apply bind_inv in H as (a & σ1 & H1 & H)
    | H : frame _ _ = Some _ |- _ => apply frame_inv in H as [H ->]
    | H : series _ _ = Some _ |- _ => apply series_inv in H as [H ->]
    | H : lift _ _ = Some _ |- _ => apply lift_inv in H as [H ->]
    | H : assign _ _ _ = Some _ |- _ => apply assign_inv in H; subst
    end).

Section FeatureMatrices.
Context `{L : Library}.

(** The split binds [X_train] and [X_test] to row selections of [X]. *)
Lemma split_stage_spec (ambient : generator) σ u σ' X :
  globals σ !! "X" = Some (VFrame X) →
  split_stage ambient σ = Some (u, σ') →
  ∃ tr te,
    globals σ' !! "X_train" = Some (VFrame (take_rows tr X)) ∧
    globals σ' !! "X_test" = Some (VFrame (take_rows te X)).
Proof.
  intros HX Hrun. unfold split_stage in Hrun. run_inv.
  rewrite HX in Hstep. injection Hstep as <-.
  exists a1.1, a1.2. simpl.
  rewrite !lookup_insert_ne by done. rewrite lookup_insert_eq.
  rewrite !lookup_insert_ne by done. by rewrite lookup_insert_eq.
Qed.

(** The balancing binds [X_train_balanced] to a frame whose columns are
    columns of [X_train]. *)
Lemma balancing_stage_spec (ambient : generator) σ u σ' X_train :
  globals σ !! "X_train" = Some (VFrame X_train) →
  balancing_stage ambient σ = Some (u, σ') →
  ∃ Xb, globals σ' !! "X_train_balanced" = Some (VFrame Xb) ∧
    ∀ n, n ∈ names Xb → n ∈ names X_train ∧ n ≠ claim_risk.
Proof.
  intros HX Hrun. unfold balancing_stage in Hrun. run_inv.
  rewrite HX in Hstep. injection Hstep as <-.
  eexists. split.
  { simpl. rewrite lookup_insert_ne by done. by rewrite lookup_insert_eq. }
  intros n Hn.
  match goal with
  | Hd : drop_columns [claim_risk] ?bal = Some _,
    Hc : concat_rows ?maj _ = Some ?bal,
    Hm : majority _ = Some ?maj |- _ =>
      apply (names_drop_columns _ _ _ n Hd) in Hn as [Hn Hne];
      rewrite (names_concat_rows _ _ _ Hc), (names_majority _ _ Hm) in Hn
  end.
  assert (n ≠ claim_risk) as Hr by (intros ->; apply Hne, elem_of_cons; by left).
  split; [|done].
  unfold train_data, concat_columns, names in Hn. simpl in Hn.
  rewrite fmap_app, elem_of_app in Hn. simpl in Hn.
  destruct Hn as [Hn | Hn%list_elem_of_singleton]; done.
Qed.

(** The frames the balancing statements bind are the ones computed by
    [minority_oversampled] and [train_data_balanced]. *)
Lemma balancing_stage_binds (ambient : generator) σ u σ' X_train y_train :
  globals σ !! "X_train" = Some (VFrame X_train) →
  globals σ !! "y_train" = Some (VSeries y_train) →
  balancing_stage ambient σ = Some (u, σ') →
  globals σ' !! "minority_oversampled"
    = VFrame <$> minority_oversampled ambient (train_data X_train y_train) ∧
  globals σ' !! "train_data_balanced"
    = VFrame <$> train_data_balanced ambient (train_data X_train y_train).
Proof.
  intros HX Hy Hrun. unfold balancing_stage in Hrun. run_inv.
  rewrite HX in Hstep. injection Hstep as <-.
  rewrite Hy in Hstep0. injection Hstep0 as <-.
  unfold train_data_balanced, minority_oversampled. simpl.
  repeat match goal with
         | H : majority _ = Some _ |- _ => rewrite H; clear H
         | H : minority _ = Some _ |- _ => rewrite H; clear H
         end.
  simpl.
  repeat match goal with
         | H : resample _ _ _ _ = Some _ |- _ => rewrite H; clear H
         end.
  simpl.
  repeat match goal with
         | H : concat_rows _ _ = Some _ |- _ => rewrite H; clear H
         end.
  split.
  - rewrite !lookup_insert_ne by done. by rewrite lookup_insert_eq.
  - rewrite !lookup_insert_ne by done. by rewrite lookup_insert_eq.
Qed.

Lemma later_stages_keep (ambient : generator) x :
  x = "X_test" ∨ x = "X_train_balanced" →
  keeps x (training_stage ambient) ∧ keeps x metrics_stage ∧ keeps x persistence_gate.
Proof.
  intros Hx. unfold training_stage, metrics_stage, persistence_gate.
  destruct Hx as [-> | ->]; (split; [|split]); repeat keeps_step.
Qed.

(** C9: in every run that gets through the script, the matrix the forest is
    fitted on ([X_train_balanced]) and the matrix it is evaluated on
    ([X_test]) have no column named [claim_amount_SZL] and none named
    [claim_risk]. *)
Theorem features_exclude_amount_and_label (ambient : generator) raw σ :
  run ambient raw = Some σ →
  ∃ Xb Xt,
    globals σ !! "X_train_balanced" = Some (VFrame Xb) ∧
    globals σ !! "X_test" = Some (VFrame Xt) ∧
    (claim_amount_SZL ∉ names Xb) ∧ (claim_risk ∉ names Xb) ∧
    (claim_amount_SZL ∉ names Xt) ∧ (claim_risk ∉ names Xt).
Proof.
  unfold run. intros Hrun.
  destruct (prepare raw) as [df0|]; simpl in Hrun; [|done].
  destruct (assign_segments ambient df0) as [df|]; simpl in Hrun; [|done].
  destruct (df_encoded df) as [enc|]; simpl in Hrun; [|done].
  destruct (features enc) as [X|] eqn:HX; simpl in Hrun; [|done].
  destruct (target enc) as [y|]; simpl in Hrun; [|done].
  destruct (script ambient _) as [[u σ']|] eqn:Hscript; simpl in Hrun; [|done].
  injection Hrun as ->.
  assert (∀ n, n ∈ names X → n ∉ [claim_amount_SZL; claim_risk]) as HnX.
  { intros n. by apply (names_drop_columns _ enc X n HX). }
  unfold script in Hscript.
  apply bind_inv in Hscript as (u1 & σ1 & Hsplit & Hscript).
  apply bind_inv in Hscript as (u2 & σ2 & Hbal & Hscript).
  apply bind_inv in Hscript as (u3 & σ3 & Htrain & Hscript).
  apply bind_inv in Hscript as (u4 & σ4 & Hmetrics & Hgate).
  apply split_stage_spec with (X := X) in Hsplit as (tr & te & Htr & Hte);
    [|simpl; rewrite !lookup_insert_ne by done; by rewrite lookup_insert_eq].
  pose proof (balancing_keeps ambient "X_test" (or_introl eq_refl) _ _ _ Hbal) as Hte2.
  apply balancing_stage_spec with (X_train := take_rows tr X) in Hbal
    as (Xb & HXb & Hnames); [|done].
  destruct (later_stages_keep ambient "X_test" (or_introl eq_refl)) as (K1 & K2 & K3).
  destruct (later_stages_keep ambient "X_train_balanced" (or_intror eq_refl))
    as (K1' & K2' & K3').
  exists Xb, (take_rows te X).
  rewrite (K3 _ _ _ Hgate), (K2 _ _ _ Hmetrics), (K1 _ _ _ Htrain), Hte2.
  rewrite (K3' _ _ _ Hgate), (K2' _ _ _ Hmetrics), (K1' _ _ _ Htrain).
  split; [done|]. split; [done|].
  assert (∀ n, n ∈ [claim_amount_SZL; claim_risk] → n ∉ names Xb) as HXbn.
  { intros n Hn Hin. apply Hnames in Hin as [Hin _].
    rewrite names_take_rows in Hin. by apply (HnX n). }
  rewrite names_take_rows.
  repeat split.
  - apply HXbn. repeat constructor.
  - apply HXbn. repeat constructor.
  - intros Hin. apply (HnX _ Hin). repeat constructor.
  - intros Hin. apply (HnX _ Hin). repeat constructor.
Qed.

End FeatureMatrices.

Lemma features_exclude_amount_and_label_witness :
  match @run demo_lib 0%Z demo_raw with
  | Some σ =>
      ∃ Xb Xt,
        globals σ !! "X_train_balanced" = Some (VFrame Xb) ∧
        globals σ !! "X_test" = Some (VFrame Xt) ∧
        (claim_amount_SZL ∉ names Xb) ∧ (claim_risk ∉ names Xb) ∧
        (claim_amount_SZL ∉ names Xt) ∧ (claim_risk ∉ names Xt)
  | None => False
  end.
Proof.
  destruct (@run demo_lib 0%Z demo_raw) as [σ|] eqn:Hrun.
  - exact (@features_exclude_amount_and_label demo_lib 0%Z demo_raw σ Hrun).
  - assert (bool_decide (is_Some (@run demo_lib 0%Z demo_raw)) = true)
      as Hsome by (vm_compute; reflexivity).
    rewrite Hrun in Hsome. discriminate Hsome.
Defined.

(** * Further properties *)

(** ** Imputation (lines 69-72) *)

Lemma fillna_value_length v vs : length (fillna_value v vs) = length vs.
Proof. apply length_map. Qed.

Lemma fillna_value_no_missing v vs :
  isna v = false → filter (λ c, isna c) (fillna_value v vs) = [].
Proof.
  intros Hv. induction vs as [|c vs IH]; [done|]. simpl.
  rewrite filter_cons_False; [done|].
  destruct (isna c) eqn:Hc; rewrite ?Hv, ?Hc; by intros [].
Qed.

Lemma existsb_isna_filter vs :
  existsb isna vs = false → filter (λ c, isna c) vs = [].
Proof.
  induction vs as [|c vs IH]; [done|]. simpl. intros H.
  apply orb_false_iff in H as [Hc Hvs].
  rewrite filter_cons_False; [by apply IH|]. rewrite Hc. by intros [].
Qed.

Lemma fillna_unknown_series_no_missing s :
  filter (λ c, isna c) (s_values (fillna_unknown_series s)) = [].
Proof.
  unfold fillna_unknown_series. destruct (existsb isna (s_values s)) eqn:H; simpl.
  - by apply fillna_value_no_missing.
  - by apply existsb_isna_filter.
Qed.

Lemma fillna_value_filled v vs :
  isna v = false → existsb isna (fillna_value v vs) = false.
Proof.
  intros Hv. induction vs as [|c vs IH]; [done|]. simpl. rewrite IH.
  destruct c; simpl; by rewrite ?Hv.
Qed.

(** The two imputations on one column. *)
Lemma impute_series s :
  s_values (fillna_unknown_series (fillna_median_series s))
  = fillna_value (fill_of s) (s_values s).
Proof.
  unfold fillna_median_series, fill_of.
  destruct (is_numeric_or_bool (s_dtype s)).
  - destruct (median (s_values s)) as [|m|m] eqn:Hm.
    + unfold fillna_unknown_series.
      destruct (existsb isna (s_values s)) eqn:H; simpl; [done|].
      by rewrite fillna_value_id.
    + rewrite fillna_unknown_series_id; [done|]. simpl. by apply fillna_value_filled.
    + rewrite fillna_unknown_series_id; [done|]. simpl. by apply fillna_value_filled.
  - unfold fillna_unknown_series.
    destruct (existsb isna (s_values s)) eqn:H; simpl; [done|].
    by rewrite fillna_value_id.
Qed.

Lemma names_setitem name s df :
  names (setitem name s df)
  = if decide (name ∈ names df) then names df else names df ++ [name].
Proof.
  unfold setitem, names. case_decide; simpl.
  - rewrite <- list_fmap_compose. apply list_fmap_ext. intros i c _. simpl.
    by case_decide.
  - by rewrite fmap_app.
Qed.

Lemma names_map_snd (f : Series → Series) n cols :
  names (mkFrame n (map (λ c, (c.1, f c.2)) cols)) = cols.*1.
Proof.
  unfold names. simpl. rewrite <- list_fmap_compose. by apply list_fmap_ext.
Qed.

Lemma wf_setitem name s df :
  wf_frame df → length (s_values s) = nrows df → wf_frame (setitem name s df).
Proof.
  unfold wf_frame, setitem. intros Hwf Hs. case_decide; simpl.
  - apply Forall_fmap. eapply Forall_impl; [exact Hwf|]. intros c Hc. simpl.
    by case_decide.
  - apply Forall_app. split; [done|]. by repeat constructor.
Qed.

Lemma wf_getitem name s df :
  wf_frame df → getitem name df = Some s → length (s_values s) = nrows df.
Proof.
  intros Hwf Hs%lookup_col_elem.
  by apply (proj1 (Forall_forall _ _) Hwf (name, s)).
Qed.

Lemma length_raw_labels amt : length (s_values (raw_labels amt)) = length (s_values amt).
Proof. apply length_map. Qed.

Lemma missing_values_fillna_unknown df : missing_values (fillna_unknown df) = 0.
Proof.
  unfold missing_values, fillna_unknown. simpl. rewrite map_map. simpl.
  induction (columns df) as [|c cols IH]; [done|].
  simpl. by rewrite fillna_unknown_series_no_missing, IH.
Qed.

(** After lines 70-72 no cell is missing any more, whatever number line 69
    counted; the frame has the rows and the columns of the upload, in their
    order, with [claim_risk] added on the right unless the upload already had
    a column of that name, and every column still has one cell per row. *)
Theorem preprocess_shape raw df :
  preprocess raw = Some df →
  missing_values df = 0 ∧
  nrows df = nrows raw ∧
  names df = (if decide (claim_risk ∈ names raw) then names raw
              else names raw ++ [claim_risk]) ∧
  (wf_frame raw → wf_frame df).
Proof.
  unfold preprocess, derive_claim_risk.
  destruct (getitem claim_amount_SZL raw) as [amt|] eqn:Hamt; simpl; [|done].
  destruct (is_int_or_float (s_dtype amt)); simpl; [|done]. intros [= <-].
  split; [|split; [|split]].
  - apply missing_values_fillna_unknown.
  - unfold setitem. by case_decide.
  - unfold fillna_unknown, fillna_median. cbn [columns nrows].
    rewrite names_map_snd.
    pose proof (names_map_snd fillna_median_series 0
                  (columns (setitem claim_risk (raw_labels amt) raw))) as Hn.
    unfold names in Hn. simpl in Hn. rewrite Hn.
    apply (names_setitem claim_risk (raw_labels amt) raw).
  - intros Hwf.
    assert (wf_frame (setitem claim_risk (raw_labels amt) raw)) as Hwf1.
    { apply wf_setitem; [done|]. rewrite length_raw_labels.
      by apply (wf_getitem claim_amount_SZL). }
    assert (nrows (setitem claim_risk (raw_labels amt) raw) = nrows raw) as Hn
      by (unfold setitem; by case_decide).
    unfold wf_frame, fillna_unknown, fillna_median in *. simpl.
    rewrite map_map. apply Forall_fmap.
    eapply Forall_impl; [exact Hwf1|]. intros c Hc. simpl.
    by rewrite impute_series, fillna_value_length.
Qed.

Lemma preprocess_shape_witness :
  match preprocess demo_raw with
  | Some df =>
      missing_values df = 0 ∧
      nrows df = nrows demo_raw ∧
      names df = (if decide (claim_risk ∈ names demo_raw) then names demo_raw
                  else names demo_raw ++ [claim_risk]) ∧
      (wf_frame demo_raw → wf_frame df)
  | None => False
  end.
Proof.
  destruct (preprocess demo_raw) as [df|] eqn:Hrun.
  - exact (preprocess_shape demo_raw df Hrun).
  - vm_compute in Hrun. discriminate Hrun.
Defined.

(** Lines 71-72 change missing cells only: in every column of the upload
    other than [claim_risk], a present cell keeps its value and its place,
    and a missing cell takes the column's fill value (the median for a
    numeric column that has one, 'Unknown' otherwise). *)
Theorem imputation_keeps_present_cells raw df name s :
  preprocess raw = Some df →
  name ≠ claim_risk →
  getitem name raw = Some s →
  ∃ s', getitem name df = Some s' ∧
    s_values s' = fillna_value (fill_of s) (s_values s) ∧
    ∀ i v, s_values s !! i = Some v → v ≠ NaN → s_values s' !! i = Some v.
Proof.
  unfold preprocess, derive_claim_risk.
  destruct (getitem claim_amount_SZL raw) as [amt|] eqn:Hamt; simpl; [|done].
  destruct (is_int_or_float (s_dtype amt)); simpl; [|done].
  intros [= <-] Hne Hs.
  exists (fillna_unknown_series (fillna_median_series s)).
  split; [|split].
  - unfold getitem, fillna_unknown, fillna_median. simpl.
    rewrite !lookup_col_map_snd.
    pose proof (getitem_setitem_ne name claim_risk (raw_labels amt) raw Hne) as Hset.
    unfold getitem in Hset, Hs. by rewrite Hset, Hs.
  - apply impute_series.
  - intros i v Hi Hv. rewrite impute_series. unfold fillna_value.
    rewrite list_lookup_fmap, Hi. simpl. by destruct v.
Qed.

Lemma imputation_keeps_present_cells_witness :
  match preprocess demo_raw with
  | Some df =>
      "gender" ≠ claim_risk ∧
      ∃ s', getitem "gender" df = Some s' ∧
        s_values s' = fillna_value (fill_of (mkSeries object_
                         [Str "F"; NaN; Str "M"; Str "F"; Str "M";
                          Str "F"; Str "M"; Str "F"; Str "M"; Str "F"]))
                        [Str "F"; NaN; Str "M"; Str "F"; Str "M";
                         Str "F"; Str "M"; Str "F"; Str "M"; Str "F"] ∧
        ∀ i v, [Str "F"; NaN; Str "M"; Str "F"; Str "M";
                Str "F"; Str "M"; Str "F"; Str "M"; Str "F"] !! i = Some v →
               v ≠ NaN → s_values s' !! i = Some v
  | None => False
  end.
Proof.
  destruct (preprocess demo_raw) as [df|] eqn:Hrun.
  - split; [done|].
    exact (imputation_keeps_present_cells demo_raw df "gender" _ Hrun
             ltac:(done) eq_refl).
  - vm_compute in Hrun. discriminate Hrun.
Defined.

(** ** Date columns (lines 75-82) *)

Lemma names_drop_columns_ignore labels df n :
  n ∈ names (drop_columns_ignore labels df) ↔ n ∈ names df ∧ n ∉ labels.
Proof.
  unfold names, drop_columns_ignore. simpl. split.
  - intros (c & -> & Hc)%list_elem_of_fmap.
    apply list_elem_of_filter in Hc as [Hc Hin]. split; [|done].
    apply list_elem_of_fmap. eauto.
  - intros [(c & -> & Hc)%list_elem_of_fmap Hn].
    apply list_elem_of_fmap. exists c. split; [done|].
    by apply list_elem_of_filter.
Qed.

Lemma drop_columns_Some labels df df' :
  drop_columns labels df = Some df' → df' = drop_columns_ignore labels df.
Proof. unfold drop_columns. case_decide; [|done]. by intros [= <-]. Qed.

Lemma elem_of_names_setitem n name s df :
  n ∈ names (setitem name s df) ↔ n = name ∨ n ∈ names df.
Proof.
  rewrite names_setitem. case_decide as Hin.
  - split; [auto|]. by intros [->|].
  - rewrite elem_of_app, list_elem_of_singleton. tauto.
Qed.

Lemma nrows_setitem name s df : nrows (setitem name s df) = nrows df.
Proof. unfold setitem. by case_decide. Qed.

Lemma mapM_lookup_None {A B} (f : A → option B) l i x :
  l !! i = Some x → f x = None → mapM f l = None.
Proof.
  intros Hi Hx. apply mapM_None, Exists_exists. exists x. split; [|done].
  by eapply list_elem_of_lookup_2.
Qed.

(** Any column, through lines 70-72. *)
Lemma preprocess_column raw df name s :
  preprocess raw = Some df → name ≠ claim_risk → getitem name raw = Some s →
  getitem name df = Some (fillna_unknown_series (fillna_median_series s)).
Proof.
  unfold preprocess, derive_claim_risk.
  destruct (getitem claim_amount_SZL raw) as [amt|] eqn:Hamt; simpl; [|done].
  destruct (is_int_or_float (s_dtype amt)); simpl; [|done].
  intros [= <-] Hne Hs.
  unfold getitem, fillna_unknown, fillna_median. simpl.
  rewrite !lookup_col_map_snd.
  pose proof (getitem_setitem_ne name claim_risk (raw_labels amt) raw Hne) as Hset.
  unfold getitem in Hset, Hs. by rewrite Hset, Hs.
Qed.

Section Dates.
Context `{L : Library}.

(** One date column: what its conversion leaves in the frame. *)
Lemma date_features_spec col df df' :
  col +:+ "_year" ≠ col → col +:+ "_month" ≠ col → col +:+ "_day" ≠ col →
  col +:+ "_year" ≠ col +:+ "_month" → col +:+ "_year" ≠ col +:+ "_day" →
  col +:+ "_month" ≠ col +:+ "_day" →
  date_features col df = Some df' →
  nrows df' = nrows df ∧
  (col ∉ names df') ∧
  (∀ n, n ∈ names df' → n ∈ names df ∨ n ∈ date_parts col) ∧
  ∀ s, getitem col df = Some s →
    ∃ ds, mapM to_datetime (s_values s) = Some ds ∧
      getitem (col +:+ "_year") df' = Some (date_part (λ d, d.1.1) ds) ∧
      getitem (col +:+ "_month") df' = Some (date_part (λ d, d.1.2) ds) ∧
      getitem (col +:+ "_day") df' = Some (date_part (λ d, d.2) ds).
Proof.
  intros Hy Hm Hd Hym Hyd Hmd. unfold date_features.
  destruct (getitem col df) as [s|] eqn:Hcol.
  - destruct (mapM to_datetime (s_values s)) as [ds|] eqn:Hds; simpl; [|done].
    intros Hdrop. cbv zeta in Hdrop.
    pose proof (drop_columns_Some _ _ _ Hdrop) as ->.
    split; [unfold drop_columns_ignore; cbn [nrows]; by rewrite !nrows_setitem|].
    split; [|split].
    + rewrite names_drop_columns_ignore. intros [_ Hn]. apply Hn, elem_of_cons. by left.
    + intros n [Hn _]%names_drop_columns_ignore.
      rewrite !elem_of_names_setitem in Hn. unfold date_parts.
      rewrite !elem_of_cons. tauto.
    + intros s' [= <-]. exists ds. split; [done|].
      assert (∀ n, n ≠ col → n ∉ [col]) as Hnot.
      { intros n Hn. apply not_elem_of_cons. split; [done | apply not_elem_of_nil]. }
      rewrite !getitem_drop_columns_ignore by auto.
      rewrite (getitem_setitem_ne (col +:+ "_year") (col +:+ "_day")) by done.
      rewrite (getitem_setitem_ne (col +:+ "_year") (col +:+ "_month")) by done.
      rewrite (getitem_setitem_ne (col +:+ "_month") (col +:+ "_day")) by done.
      by rewrite !getitem_setitem_eq.
  - intros [= <-]. split; [done|]. split; [|split].
    + by apply lookup_col_None.
    + auto.
    + done.
Qed.

Lemma convert_dates_inv df df' :
  convert_dates df = Some df' →
  ∃ df1, date_features "policy_start_date" df = Some df1 ∧
         date_features "claim_date" df1 = Some df'.
Proof.
  unfold convert_dates, date_cols. simpl.
  destruct (date_features "policy_start_date" df) as [df1|]; simpl; [|done]. eauto.
Qed.

(** Lines 75-82: a run of the loop leaves no date column behind, keeps the
    rows, and for each date column the frame had, all of its cells went
    through [pd.to_datetime] without an error and the frame now holds its
    year, month and day columns ([date_part]: the part of each date, and a
    missing value where the date is [NaT]). *)
Theorem convert_dates_replaces df df' :
  convert_dates df = Some df' →
  nrows df' = nrows df ∧
  ∀ col, col ∈ date_cols →
    (col ∉ names df') ∧
    ∀ s, getitem col df = Some s →
      ∃ ds, mapM to_datetime (s_values s) = Some ds ∧
        getitem (col +:+ "_year") df' = Some (date_part (λ d, d.1.1) ds) ∧
        getitem (col +:+ "_month") df' = Some (date_part (λ d, d.1.2) ds) ∧
        getitem (col +:+ "_day") df' = Some (date_part (λ d, d.2) ds).
Proof.
  intros (df1 & H1 & H2)%convert_dates_inv.
  pose proof (date_features_spec "policy_start_date" df df1
                ltac:(done) ltac:(done) ltac:(done) ltac:(done) ltac:(done) ltac:(done) H1)
    as (Hn1 & Hnot1 & Hnames1 & Hparts1).
  pose proof (date_features_spec "claim_date" df1 df'
                ltac:(done) ltac:(done) ltac:(done) ltac:(done) ltac:(done) ltac:(done) H2)
    as (Hn2 & Hnot2 & Hnames2 & Hparts2).
  split; [congruence|].
  intros col Hcol. unfold date_cols in Hcol.
  apply elem_of_cons in Hcol as [->|Hcol];
    [|apply list_elem_of_singleton in Hcol as ->].
  - split.
    + intros Hin. apply Hnames2 in Hin as [Hin|Hin]; [done|].
      unfold date_parts in Hin. simpl in Hin.
      rewrite !elem_of_cons, elem_of_nil in Hin. by destruct Hin as [|[|[|]]].
    + intros s Hs. destruct (Hparts1 s Hs) as (ds & Hds & Hy & Hm & Hd).
      exists ds. split; [done|].
      rewrite !(date_features_keeps _ "claim_date" df1 df') by done. done.
  - split; [done|].
    intros s Hs. apply Hparts2.
    by rewrite (date_features_keeps "claim_date" "policy_start_date" df df1).
Qed.

(** A date column read as text with an empty cell stops the run: line 72
    writes 'Unknown' into the cell and [pd.to_datetime] rejects it. *)
Theorem missing_date_aborts raw col s i :
  to_datetime Unknown = None →
  col ∈ date_cols →
  getitem col raw = Some s →
  s_dtype s = object_ →
  s_values s !! i = Some NaN →
  prepare raw = None.
Proof.
  intros Hparse Hcol Hs Hobj Hi. unfold prepare.
  destruct (preprocess raw) as [df0|] eqn:Hpre; simpl; [|done].
  assert (col ≠ claim_risk) as Hne.
  { unfold date_cols in Hcol. rewrite !elem_of_cons, elem_of_nil in Hcol.
    by destruct Hcol as [->|[->|]]. }
  pose proof (preprocess_column raw df0 col s Hpre Hne Hs) as Hcol0.
  set (s0 := fillna_unknown_series (fillna_median_series s)) in *.
  assert (s_values s0 !! i = Some Unknown) as Hi0.
  { unfold s0. rewrite impute_series. unfold fillna_value, fill_of.
    rewrite list_lookup_fmap, Hi, Hobj. done. }
  assert (∀ d, getitem col d = Some s0 → date_features col d = None) as Hfail.
  { intros d Hd. unfold date_features. rewrite Hd.
    by rewrite (mapM_lookup_None to_datetime _ i Unknown). }
  unfold convert_dates, date_cols in *. simpl.
  rewrite !elem_of_cons, elem_of_nil in Hcol. destruct Hcol as [->|[->|[]]].
  - by rewrite Hfail.
  - destruct (date_features "policy_start_date" df0) as [df1|] eqn:H1; simpl; [|done].
    apply Hfail.
    by rewrite (date_features_keeps "claim_date" "policy_start_date" df0 df1).
Qed.

End Dates.

Lemma convert_dates_replaces_witness :
  match preprocess demo_raw with
  | Some df =>
      match @convert_dates demo_lib df with
      | Some df' =>
          nrows df' = nrows df ∧
          ∀ col, col ∈ date_cols →
            (col ∉ names df') ∧
            ∀ s, getitem col df = Some s →
              ∃ ds, mapM (@to_datetime demo_lib) (s_values s) = Some ds ∧
                getitem (col +:+ "_year") df'
                  = Some (@date_part demo_lib (λ d, d.1.1) ds) ∧
                getitem (col +:+ "_month") df'
                  = Some (@date_part demo_lib (λ d, d.1.2) ds) ∧
                getitem (col +:+ "_day") df'
                  = Some (@date_part demo_lib (λ d, d.2) ds)
      | None => False
      end
  | None => False
  end.
Proof.
  destruct (preprocess demo_raw) as [df|] eqn:Hpre;
    [|vm_compute in Hpre; discriminate Hpre].
  destruct (@convert_dates demo_lib df) as [df'|] eqn:Hrun.
  - exact (@convert_dates_replaces demo_lib df df' Hrun).
  - assert (bool_decide (is_Some (preprocess demo_raw ≫= @convert_dates demo_lib)) = true)
      as Hsome by (vm_compute; reflexivity).
    rewrite Hpre in Hsome. simpl in Hsome. rewrite Hrun in Hsome. discriminate Hsome.
Defined.

Lemma missing_date_aborts_witness :
  @to_datetime strict_lib Unknown = None ∧
  "claim_date" ∈ date_cols ∧
  getitem "claim_date" demo_undated
    = Some (mkSeries object_ [Str "2024-01-15"; NaN; Str "2024-03-02"]) ∧
  @prepare strict_lib demo_undated = None.
Proof.
  assert ("claim_date" ∈ date_cols) as Hin
    by (unfold date_cols; apply elem_of_cons; right; apply elem_of_cons; by left).
  split; [reflexivity|]. split; [exact Hin|]. split; [reflexivity|].
  exact (@missing_date_aborts strict_lib demo_undated "claim_date" _ 1
           eq_refl Hin eq_refl eq_refl eq_refl).
Defined.

(** ** Categorical columns and one-hot encoding (lines 89-98) *)

Lemma categorical_cols_fold df :
  categorical_cols df = foldl discover base_categoricals (columns df).
Proof. reflexivity. Qed.

Lemma discover_fold acc cols :
  NoDup acc →
  NoDup (foldl discover acc cols) ∧
  (∃ k, foldl discover acc cols = acc ++ k) ∧
  ∀ n, n ∈ foldl discover acc cols ↔
       n ∈ acc ∨ ∃ s, (n, s) ∈ cols ∧ s_dtype s = object_ ∧ (n ∉ date_cols)
                      ∧ (n ∉ [claim_amount_SZL; claim_risk]).
Proof.
  revert acc. induction cols as [|c cols IH]; intros acc Hnd; simpl.
  - split; [done|]. split; [exists []; by rewrite app_nil_r|].
    intros n. split; [auto|]. intros [H|(s & H & _)]; [done|]. by apply elem_of_nil in H.
  - assert (NoDup (discover acc c)) as Hnd'.
    { unfold discover. case_decide as Hc; [|done].
      apply NoDup_app. split; [done|]. split; [|apply NoDup_singleton].
      intros x Hx Hx'%list_elem_of_singleton. subst x. tauto. }
    destruct (IH _ Hnd') as (IH1 & [k IH2] & IH3). split; [done|]. split.
    { rewrite IH2. unfold discover. case_decide.
      - exists ([c.1] ++ k). by rewrite app_assoc.
      - by exists k. }
    intros n. rewrite IH3. unfold discover. split.
    + intros [Hn|(s & Hs & Hrest)].
      * case_decide as Hc; [|by left].
        apply elem_of_app in Hn as [Hn|Hn%list_elem_of_singleton]; [by left|].
        right. exists c.2. subst n. split; [|tauto].
        apply elem_of_cons. left. by destruct c.
      * right. exists s. split; [|done]. apply elem_of_cons. by right.
    + intros [Hn|(s & Hs & Hobj & Hd & Ht)].
      * left. case_decide; [|done]. apply elem_of_app. by left.
      * apply elem_of_cons in Hs as [Hs|Hs]; [|right; eauto].
        left. subst c. simpl. case_decide as Hc.
        -- apply elem_of_app. right. by apply list_elem_of_singleton.
        -- destruct (decide (n ∈ acc)); [done|]. exfalso. apply Hc. tauto.
Qed.

Lemma base_categoricals_NoDup : NoDup base_categoricals.
Proof. apply (bool_decide_unpack _). vm_compute. exact I. Qed.

Lemma categorical_cols_elem df n :
  n ∈ categorical_cols df ↔
  n ∈ base_categoricals ∨
  ∃ s, (n, s) ∈ columns df ∧ s_dtype s = object_ ∧ (n ∉ date_cols)
       ∧ (n ∉ [claim_amount_SZL; claim_risk]).
Proof.
  rewrite categorical_cols_fold.
  apply (discover_fold base_categoricals (columns df) base_categoricals_NoDup).
Qed.

(** Lines 89-93: the list of categorical columns starts with the six
    hard-coded names, names no column twice, and holds beside them exactly
    the text columns of the frame that are neither a date column nor
    [claim_amount_SZL] nor [claim_risk]. *)
Theorem categorical_cols_spec df :
  NoDup (categorical_cols df) ∧
  (∃ found, categorical_cols df = base_categoricals ++ found) ∧
  ∀ n, n ∈ categorical_cols df ↔
       n ∈ base_categoricals ∨
       ∃ s, (n, s) ∈ columns df ∧ s_dtype s = object_ ∧ (n ∉ date_cols)
            ∧ (n ∉ [claim_amount_SZL; claim_risk]).
Proof.
  rewrite categorical_cols_fold.
  exact (discover_fold base_categoricals (columns df) base_categoricals_NoDup).
Qed.

Lemma preprocess_names raw df n :
  preprocess raw = Some df → n ∈ names df → n ∈ names raw ∨ n = claim_risk.
Proof.
  unfold preprocess, derive_claim_risk.
  destruct (getitem claim_amount_SZL raw) as [amt|]; simpl; [|done].
  destruct (is_int_or_float (s_dtype amt)); simpl; [|done]. intros [= <-].
  unfold fillna_unknown, fillna_median. cbn [columns nrows].
  rewrite names_map_snd.
  pose proof (names_map_snd fillna_median_series 0
                (columns (setitem claim_risk (raw_labels amt) raw))) as Hn.
  unfold names in Hn. simpl in Hn. rewrite Hn.
  fold (names (setitem claim_risk (raw_labels amt) raw)).
  rewrite elem_of_names_setitem. tauto.
Qed.

Section Encoding.
Context `{L : Library}.

Lemma convert_dates_names df df' :
  convert_dates df = Some df' →
  (∀ d, d ∈ date_cols → d ∉ names df') ∧
  ∀ n, n ∈ names df' →
       n ∈ names df ∨ n ∈ date_parts "policy_start_date" ∨ n ∈ date_parts "claim_date".
Proof.
  intros (df1 & H1 & H2)%convert_dates_inv.
  pose proof (date_features_spec "policy_start_date" df df1
                ltac:(done) ltac:(done) ltac:(done) ltac:(done) ltac:(done) ltac:(done) H1)
    as (_ & Hnot1 & Hnames1 & _).
  pose proof (date_features_spec "claim_date" df1 df'
                ltac:(done) ltac:(done) ltac:(done) ltac:(done) ltac:(done) ltac:(done) H2)
    as (_ & Hnot2 & Hnames2 & _).
  split.
  - intros d Hd. unfold date_cols in Hd.
    rewrite !elem_of_cons, elem_of_nil in Hd. destruct Hd as [->|[->|[]]]; [|done].
    intros Hin. apply Hnames2 in Hin as [Hin|Hin]; [done|].
    unfold date_parts in Hin. simpl in Hin.
    rewrite !elem_of_cons, elem_of_nil in Hin. by destruct Hin as [|[|[|]]].
  - intros n Hn. apply Hnames2 in Hn as [Hn|Hn]; [|auto].
    apply Hnames1 in Hn as [Hn|Hn]; auto.
Qed.

Lemma assign_segments_names (ambient : generator) df0 df n :
  assign_segments ambient df0 = Some df →
  n ∈ names df ↔ n = customer_segment ∨ n ∈ names df0.
Proof.
  unfold assign_segments. destruct (X_segment df0); simpl; [|done].
  destruct (KMeans_fit_predict _ _ _); simpl; [|done]. intros [= <-].
  apply elem_of_names_setitem.
Qed.

(** The names a frame can carry when line 89 is reached. *)
Lemma segmented_names (ambient : generator) raw df0 df n :
  prepare raw = Some df0 → assign_segments ambient df0 = Some df →
  n ∈ names df →
  n ∈ names raw ∨
  n ∈ claim_risk :: customer_segment
        :: date_parts "policy_start_date" ++ date_parts "claim_date".
Proof.
  intros (dfp & Hpre & Hdates)%prepare_inv Hseg Hn.
  apply (assign_segments_names ambient df0 df n Hseg) in Hn as [->|Hn].
  { right. apply elem_of_cons. right. apply elem_of_cons. by left. }
  apply (proj2 (convert_dates_names dfp df0 Hdates)) in Hn as [Hn|Hn].
  - apply (preprocess_names raw dfp n Hpre) in Hn as [Hn| ->]; [by left|].
    right. apply elem_of_cons. by left.
  - right. do 2 (apply elem_of_cons; right). apply elem_of_app. tauto.
Qed.

Lemma df_encoded_is_Some df :
  is_Some (df_encoded df) ↔ Forall (λ n, n ∈ names df) base_categoricals.
Proof.
  unfold df_encoded, get_dummies.
  destruct (decide (Forall (λ l, l ∈ names df) (categorical_cols df))) as [Hall|Hnot].
  - rewrite getitem_list_present by done. simpl. split; [|by eexists].
    intros _. apply Forall_forall. intros n Hn.
    apply (proj1 (Forall_forall _ _) Hall).
    apply categorical_cols_elem. by left.
  - rewrite getitem_list_absent by done. simpl. split; [by intros [? [=]]|].
    intros Hbase. exfalso. apply Hnot, Forall_forall. intros n Hn.
    apply categorical_cols_elem in Hn as [Hn|(s & Hs & _)].
    + by apply (proj1 (Forall_forall _ _) Hbase).
    + apply list_elem_of_fmap. by exists (n, s).
Qed.

(** An upload without [claim_type], [gender], [location], [policy_type] or
    [insurance_provider] never gets through the script, whatever else it
    holds: the name stays in the list of line 89 and line 94 raises
    [KeyError] at the latest ([df_encoded_is_Some]). *)
Theorem run_needs_required_columns (ambient : generator) raw n :
  n ∈ required_columns → n ∉ names raw → run ambient raw = None.
Proof.
  intros Hreq Hnot. unfold run.
  destruct (prepare raw) as [df0|] eqn:Hprep; simpl; [|done].
  destruct (assign_segments ambient df0) as [df|] eqn:Hseg; simpl; [|done].
  destruct (df_encoded df) as [enc|] eqn:Henc; simpl; [|done].
  exfalso.
  assert (n ∈ names df) as Hin.
  { assert (is_Some (df_encoded df)) as Hsome by (by eexists).
    apply df_encoded_is_Some in Hsome.
    apply (proj1 (Forall_forall _ _) Hsome).
    unfold required_columns in Hreq. unfold base_categoricals.
    rewrite !elem_of_cons in *. tauto. }
  apply (segmented_names ambient raw df0 df n Hprep Hseg) in Hin as [Hin|Hin]; [done|].
  unfold required_columns in Hreq. rewrite !elem_of_cons in Hreq.
  destruct Hreq as [->|[->|[->|[->|[->|Hreq]]]]];
    [..|by apply elem_of_nil in Hreq];
    revert Hin; apply (bool_decide_unpack _); vm_compute; exact I.
Qed.

(** The feature matrix of line 97 has no text column left, provided the
    indicator columns of [get_dummies] are not of object dtype: every text
    column of the frame was either encoded or is one of the two dropped
    columns. *)
Theorem features_have_no_text_column (ambient : generator) raw df0 df enc X :
  dummy_dtype ≠ object_ →
  prepare raw = Some df0 →
  assign_segments ambient df0 = Some df →
  df_encoded df = Some enc →
  features enc = Some X →
  Forall (λ c, s_dtype c.2 ≠ object_) (columns X).
Proof.
  intros Hdummy Hprep Hseg Henc HX. apply Forall_forall. intros c Hc Hobj.
  apply drop_columns_Some in HX as ->. unfold drop_columns_ignore in Hc. simpl in Hc.
  apply list_elem_of_filter in Hc as [Hkeep Hc].
  unfold df_encoded, get_dummies in Henc.
  destruct (getitem_list (categorical_cols df) df) as [sel|]; simpl in Henc; [|done].
  injection Henc as <-. simpl in Hc.
  apply elem_of_app in Hc as [Hc|Hc].
  - apply list_elem_of_filter in Hc as [Hncat Hc].
    assert (c.1 ∈ date_cols) as Hdate.
    { destruct (decide (c.1 ∈ date_cols)) as [|Hnd]; [done|]. exfalso.
      apply Hncat, categorical_cols_elem. right. exists c.2.
      split; [by destruct c|]. done. }
    destruct (prepare_inv raw df0 Hprep) as (dfp & _ & Hdates).
    apply (proj1 (convert_dates_names dfp df0 Hdates) c.1 Hdate).
    assert (c.1 ∈ names df) as Hin by (apply list_elem_of_fmap; eauto).
    apply (assign_segments_names ambient df0 df c.1 Hseg) in Hin as [Heq|Hin]; [|done].
    exfalso. rewrite Heq in Hdate. unfold date_cols in Hdate.
    rewrite !elem_of_cons, elem_of_nil in Hdate. by destruct Hdate as [|[|]].
  - apply list_elem_of_In, in_concat in Hc as (ds & Hds & Hc).
    apply in_map_iff in Hds as (c0 & <- & _).
    unfold get_dummies_1d in Hc. apply in_map_iff in Hc as (lv & <- & _).
    by simpl in Hobj.
Qed.

End Encoding.

Lemma run_needs_required_columns_witness :
  "gender" ∈ required_columns ∧ ("gender" ∉ names demo_no_gender) ∧
  @run demo_lib 0%Z demo_no_gender = None.
Proof.
  assert ("gender" ∈ required_columns) as Hin
    by (apply (bool_decide_unpack _); vm_compute; exact I).
  assert ("gender" ∉ names demo_no_gender) as Hnot
    by (apply (bool_decide_unpack _); vm_compute; exact I).
  split; [exact Hin|]. split; [exact Hnot|].
  exact (@run_needs_required_columns demo_lib 0%Z demo_no_gender "gender" Hin Hnot).
Defined.

Lemma features_have_no_text_column_witness :
  @dummy_dtype demo_lib ≠ object_ ∧
  match @prepare demo_lib demo_raw with
  | Some df0 =>
      match @assign_segments demo_lib 0%Z df0 with
      | Some df =>
          match @df_encoded demo_lib df with
          | Some enc =>
              match features enc with
              | Some X => Forall (λ c, s_dtype c.2 ≠ object_) (columns X)
              | None => False
              end
          | None => False
          end
      | None => False
      end
  | None => False
  end.
Proof.
  assert (@dummy_dtype demo_lib ≠ object_) as Hd by done.
  split; [exact Hd|].
  assert (bool_decide (is_Some
            (((@prepare demo_lib demo_raw ≫= @assign_segments demo_lib 0%Z)
               ≫= @df_encoded demo_lib) ≫= features)) = true) as Hsome
    by (vm_compute; reflexivity).
  destruct (@prepare demo_lib demo_raw) as [df0|] eqn:H0; [|discriminate Hsome].
  simpl in Hsome.
  destruct (@assign_segments demo_lib 0%Z df0) as [df|] eqn:H1; [|discriminate Hsome].
  simpl in Hsome.
  destruct (@df_encoded demo_lib df) as [enc|] eqn:H2; [|discriminate Hsome].
  simpl in Hsome.
  destruct (features enc) as [X|] eqn:H3; [|discriminate Hsome].
  exact (@features_have_no_text_column demo_lib 0%Z demo_raw df0 df enc X Hd H0 H1 H2 H3).
Defined.

(** ** One indicator per value (line 94) *)

Lemma cell_eqb_refl v : v ≠ NaN → cell_eqb v v = true.
Proof.
  destruct v as [|x|s]; simpl; [done| |]; intros _.
  - apply Qeq_bool_refl.
  - apply String.eqb_refl.
Qed.

Lemma cell_eqb_sym a b : cell_eqb a b = true → cell_eqb b a = true.
Proof.
  destruct a as [|x|s], b as [|y|t]; simpl; try done.
  - apply Qeq_bool_sym.
  - by rewrite String.eqb_sym.
Qed.

Lemma cell_eqb_trans a b c :
  cell_eqb a b = true → cell_eqb b c = true → cell_eqb a c = true.
Proof.
  destruct a as [|x|s], b as [|y|t], c as [|z|u]; simpl; try done.
  - apply Qeq_bool_trans.
  - intros ->%String.eqb_eq. done.
Qed.

Lemma filter_none {A} (P : A → Prop) `{∀ x, Decision (P x)} (l : list A) :
  (∀ x, x ∈ l → ¬ P x) → filter P l = [].
Proof.
  induction l as [|x l IH]; [done|]. intros Hall.
  rewrite filter_cons_False by (apply Hall, elem_of_cons; by left).
  apply IH. intros y Hy. apply Hall, elem_of_cons. by right.
Qed.

Lemma matches_insert_cell v x l :
  length (filter (λ lv, cell_eqb v lv) (insert_cell x l))
  = length (filter (λ lv, cell_eqb v lv) (x :: l)).
Proof.
  induction l as [|y l IH]; [done|]. simpl.
  destruct (cell_leb x y); [done|].
  rewrite !filter_cons in *.
  destruct (decide (cell_eqb v y)), (decide (cell_eqb v x)); simpl in *; lia.
Qed.

Lemma matches_sorted v l :
  length (filter (λ lv, cell_eqb v lv) (foldr insert_cell [] l))
  = length (filter (λ lv, cell_eqb v lv) l).
Proof.
  induction l as [|x l IH]; [done|]. simpl.
  rewrite matches_insert_cell, !filter_cons.
  destruct (decide (cell_eqb v x)); simpl; by rewrite IH.
Qed.

(** A value has one representative among the distinct values, or none. *)
Lemma matches_unique v l :
  length (filter (λ lv, cell_eqb v lv) (unique l))
  = if existsb (cell_eqb v) l then 1 else 0.
Proof.
  induction l as [|a l IH]; [done|]. cbn [unique existsb]. rewrite filter_cons.
  destruct (decide (cell_eqb v a)) as [Hva|Hva].
  - apply Is_true_true in Hva. rewrite Hva. simpl. f_equal.
    rewrite filter_none; [done|].
    intros x [Hax _]%list_elem_of_filter Hvx.
    apply Is_true_true in Hvx. apply negb_prop_elim in Hax. apply Hax.
    apply Is_true_true. apply cell_eqb_trans with v; [|done]. by apply cell_eqb_sym.
  - apply Is_true_false in Hva. rewrite Hva. simpl.
    rewrite list_filter_filter_l; [exact IH|].
    intros x Hvx. apply negb_prop_intro. intros Hax.
    apply Is_true_true in Hvx, Hax.
    assert (cell_eqb v a = true) as H; [|congruence].
    apply cell_eqb_trans with x; [done|]. by apply cell_eqb_sym.
Qed.

Lemma matches_levels v vs :
  v ∈ vs → v ≠ NaN →
  length (filter (λ lv, cell_eqb v lv) (levels vs)) = 1.
Proof.
  intros Hin Hv. unfold levels.
  assert (existsb (cell_eqb v) (filter (λ c, negb (isna c)) vs) = true) as Hex.
  { apply existsb_exists. exists v. split; [|by apply cell_eqb_refl].
    apply list_elem_of_In, list_elem_of_filter. split; [|done]. by destruct v. }
  destruct (_ || _); rewrite ?matches_sorted, matches_unique, Hex; done.
Qed.

Lemma single_match {A} (P : A → Prop) `{∀ x, Decision (P x)} (l : list A) :
  length (filter P l) = 1 →
  ∃ k x, l !! k = Some x ∧ P x ∧ ∀ j y, l !! j = Some y → P y → j = k.
Proof.
  induction l as [|a l IH]; [done|]. rewrite filter_cons.
  destruct (decide (P a)) as [Ha|Ha]; simpl.
  - intros [= Hnil%length_zero_iff_nil]. exists 0, a. split; [done|]. split; [done|].
    intros [|j] y Hj Hy; [done|]. exfalso.
    apply (filter_nil_not_elem_of P l y Hnil Hy). by eapply list_elem_of_lookup_2.
  - intros (k & x & Hk & Hx & Huniq)%IH. exists (S k), x. split; [done|]. split; [done|].
    intros [|j] y Hj Hy.
    + injection Hj as <-. done.
    + f_equal. by apply (Huniq j y).
Qed.

Section OneHot.
Context `{L : Library}.

(** With [drop_first=False] every value keeps its indicator: in the row of a
    present cell exactly one indicator column of the encoded column is 1,
    the one named after the cell's value, and the others are 0. *)
Theorem one_indicator_per_value prefix s i v :
  s_values s !! i = Some v → v ≠ NaN →
  ∃ k lv,
    levels (s_values s) !! k = Some lv ∧ cell_eqb v lv = true ∧
    (fst <$> get_dummies_1d prefix s !! k) = Some (prefix +:+ "_" +:+ cell_str lv) ∧
    ∀ j c, get_dummies_1d prefix s !! j = Some c →
      s_values c.2 !! i = Some (if decide (j = k) then Num 1 else Num 0).
Proof.
  intros Hi Hv.
  assert (v ∈ s_values s) as Hin by (by eapply list_elem_of_lookup_2).
  destruct (single_match (λ lv, cell_eqb v lv) (levels (s_values s))
              (matches_levels v (s_values s) Hin Hv)) as (k & lv & Hk & Hlv & Huniq).
  apply Is_true_true in Hlv.
  exists k, lv. split; [done|]. split; [done|]. unfold get_dummies_1d. split.
  - by rewrite list_lookup_fmap, Hk.
  - intros j c Hj. rewrite list_lookup_fmap in Hj.
    destruct (levels (s_values s) !! j) as [lvj|] eqn:Hlvj; [|done].
    injection Hj as <-. simpl. rewrite list_lookup_fmap, Hi. simpl. f_equal.
    case_decide as Hjk.
    + subst j. rewrite Hk in Hlvj. injection Hlvj as <-. by rewrite Hlv.
    + destruct (cell_eqb v lvj) eqn:Hvj; [|done].
      exfalso. apply Hjk. apply (Huniq j lvj Hlvj). by apply Is_true_true.
Qed.

End OneHot.

Lemma one_indicator_per_value_witness :
  s_values (strs ["Manzini"; "Hhohho"; "Lubombo"; "Manzini"]) !! 3 = Some (Str "Manzini") ∧
  Str "Manzini" ≠ NaN ∧
  ∃ k lv,
    levels (s_values (strs ["Manzini"; "Hhohho"; "Lubombo"; "Manzini"])) !! k = Some lv ∧
    cell_eqb (Str "Manzini") lv = true ∧
    (fst <$> @get_dummies_1d demo_lib "location"
               (strs ["Manzini"; "Hhohho"; "Lubombo"; "Manzini"]) !! k)
      = Some ("location" +:+ "_" +:+ @cell_str demo_lib lv) ∧
    ∀ j c, @get_dummies_1d demo_lib "location"
             (strs ["Manzini"; "Hhohho"; "Lubombo"; "Manzini"]) !! j = Some c →
      s_values c.2 !! 3 = Some (if decide (j = k) then Num 1 else Num 0).
Proof.
  split; [reflexivity|]. split; [done|].
  exact (@one_indicator_per_value demo_lib "location"
           (strs ["Manzini"; "Hhohho"; "Lubombo"; "Manzini"]) 3 (Str "Manzini")
           eq_refl ltac:(done)).
Defined.

(** ** Alignment without assumptions on the labels (lines 238-241, 322-327) *)

(** Alignment never raises: whatever the frame and the schema, labels
    repeated or not, it returns a frame with the rows of the input whose
    column labels are those of the schema, none added and none left out. *)
Theorem align_total S X :
  ∃ Y, align S X = Some Y ∧
    nrows Y = nrows X ∧
    ∀ n, n ∈ names Y ↔ n ∈ S.
Proof.
  eexists. split; [apply align_groups|]. split; [done|].
  intros n. unfold names. simpl.
  rewrite <- lookup_col_is_Some, lookup_col_groups.
  destruct (decide (n ∈ S)) as [Hin|Hnot].
  - split; [done|]. intros _. apply lookup_col_is_Some.
    apply add_missing_names. by right.
  - split; [by intros [? [=]] | done].
Qed.

Lemma groups_of_names cols :
  NoDup cols.*1 → concat (map (λ l, group l cols) cols.*1) = cols.
Proof.
  induction cols as [|c cols IH]; [done|]. simpl.
  intros [Hc Hnd]%NoDup_cons.
  unfold group at 1. rewrite filter_cons_True by done.
  fold (group c.1 cols). rewrite group_nil by done. simpl. f_equal.
  rewrite <- (IH Hnd) at 2. f_equal.
  apply Forall_fmap_ext, Forall_forall. intros l Hl. unfold group.
  rewrite filter_cons_False; [done|]. intros Heq. simpl in Heq. by rewrite Heq in Hc.
Qed.

(** Aligning a frame that already has the columns of the schema, in its
    order and each once, gives the frame back unchanged. *)
Theorem align_conforming S X :
  names X = S → NoDup S → align S X = Some X.
Proof.
  intros <- Hnd. unfold align.
  assert (Forall (λ l, l ∈ names X) (names X)) as Hall by (by apply Forall_forall).
  rewrite add_missing_id, getitem_list_present by done.
  unfold names in *. rewrite groups_of_names by done. by destruct X.
Qed.

Lemma align_conforming_witness :
  names demo_features = ["age"; "gender_F"] ∧ NoDup ["age"; "gender_F"] ∧
  align ["age"; "gender_F"] demo_features = Some demo_features.
Proof.
  assert (NoDup ["age"; "gender_F"]) as Hnd
    by (apply (bool_decide_unpack _); vm_compute; exact I).
  split; [reflexivity|]. split; [exact Hnd|].
  exact (align_conforming ["age"; "gender_F"] demo_features eq_refl Hnd).
Defined.

Section ExplainerProps.
Context `{L : Library}.

Lemma filter_drop_nothing (cols : list (string * Series)) :
  filter (λ c, c.1 ∉ @nil string) cols = cols.
Proof.
  induction cols as [|c cols IH]; [done|].
  rewrite filter_cons_True by apply not_elem_of_nil. by rewrite IH.
Qed.

(** Lines 322-327 never raise [KeyError] on a sample that has a column at
    all: only columns the sample has are encoded, and the alignment supplies
    the rest.  The result has the rows of the sample and the labels of the
    model's features; a sample that already has exactly those columns, none
    of them categorical, comes out unchanged.  (On a frame without any
    column pandas' [get_dummies] has nothing to concatenate; that case is
    left out.) *)
Theorem sample_encoded_total cats S X :
  columns X ≠ [] →
  ∃ Y, sample_encoded cats S X = Some Y ∧
    nrows Y = nrows X ∧
    (∀ n, n ∈ names Y ↔ n ∈ S) ∧
    (names X = S → NoDup S → (∀ c, c ∈ cats → c ∉ S) → Y = X).
Proof.
  intros _. unfold sample_encoded, get_dummies.
  rewrite getitem_list_present
    by (apply Forall_forall; by intros l [Hl _]%list_elem_of_filter).
  cbn [mbind option_bind].
  match goal with |- ∃ Y, align S ?E = _ ∧ _ => set (enc := E) end.
  rewrite align_groups. eexists. split; [done|]. split; [done|]. split.
  - intros n. unfold names. cbn [columns].
    rewrite <- lookup_col_is_Some, lookup_col_groups.
    destruct (decide (n ∈ S)) as [Hin|Hnot].
    + split; [done|]. intros _. apply lookup_col_is_Some.
      apply add_missing_names. by right.
    + split; [by intros [? [=]] | done].
  - intros Hnames Hnd Hcats.
    assert (filter (λ col, col ∈ names X) cats = []) as Hnone.
    { apply filter_none. intros c Hc. rewrite Hnames. by apply Hcats. }
    assert (enc = X) as Henc.
    { unfold enc. rewrite Hnone. simpl. rewrite app_nil_r, filter_drop_nothing.
      by destruct X. }
    pose proof (align_groups S enc) as Hal. rewrite Henc in Hal |- *.
    assert (align S X = Some X) as Hid.
    { unfold align.
      assert (Forall (λ l, l ∈ names X) S) as Hall
        by (rewrite <- Hnames; by apply Forall_forall).
      rewrite add_missing_id, getitem_list_present by done.
      rewrite <- Hnames. unfold names. rewrite groups_of_names; [by destruct X|].
      unfold names in Hnames. by rewrite Hnames. }
    rewrite Hid in Hal. by injection Hal.
Qed.

End ExplainerProps.

Lemma sample_encoded_total_witness :
  columns demo_held_out ≠ [] ∧
  ∃ Y, @sample_encoded demo_lib ["gender"; "location"] ["age"; "gender_F"] demo_held_out = Some Y ∧
    nrows Y = nrows demo_held_out ∧
    (∀ n, n ∈ names Y ↔ n ∈ ["age"; "gender_F"]) ∧
    (names demo_held_out = ["age"; "gender_F"] → NoDup ["age"; "gender_F"] →
     (∀ c, c ∈ ["gender"; "location"] → c ∉ ["age"; "gender_F"]) → Y = demo_held_out).
Proof.
  split; [done|].
  exact (@sample_encoded_total demo_lib ["gender"; "location"] ["age"; "gender_F"]
           demo_held_out ltac:(done)).
Defined.

(** ** Recall of the positive class (lines 121-122) *)

Lemma nat_ratio_bounds (a b : nat) :
  a ≤ b → b ≠ 0 →
  (0 <= inject_Z (Z.of_nat a) / inject_Z (Z.of_nat b))%Q ∧
  (inject_Z (Z.of_nat a) / inject_Z (Z.of_nat b) <= 1)%Q.
Proof.
  intros Hab Hb.
  assert (0 < inject_Z (Z.of_nat b))%Q as Hpos.
  { change 0%Q with (inject_Z 0). rewrite <- Zlt_Qlt. lia. }
  split.
  - apply Qle_shift_div_l; [done|]. rewrite Qmult_0_l.
    change 0%Q with (inject_Z 0). rewrite <- Zle_Qle. lia.
  - apply Qle_shift_div_r; [done|]. rewrite Qmult_1_l.
    rewrite <- Zle_Qle. lia.
Qed.

(** Whenever the report has an entry for class 1, its recall lies between 0
    and 1; the report has no such entry (line 122 raises [KeyError]) exactly
    when class 1 occurs neither among the true nor among the predicted
    labels. *)
Theorem recall_of_bounds y_true y_pred :
  length y_true = length y_pred →
  (recall_of y_true y_pred = None ↔
     existsb is_one y_true = false ∧ existsb is_one y_pred = false) ∧
  ∀ r, recall_of y_true y_pred = Some r → (0 <= r)%Q ∧ (r <= 1)%Q.
Proof.
  intros Hlen. unfold recall_of. rewrite decide_True by done.
  destruct (existsb is_one y_true || existsb is_one y_pred) eqn:Hany.
  - split.
    + split; [done|]. intros [H1 H2]. by rewrite H1, H2 in Hany.
    + intros r [= <-]. case_decide as Hpos; [done|].
      apply nat_ratio_bounds; [apply length_filter | done].
  - split; [|done]. split; [|done]. intros _. by apply orb_false_iff.
Qed.

Lemma recall_of_bounds_witness :
  length [Fz 1; Fz 0; Fz 1] = length [Fz 1; Fz 1; Fz 0] ∧
  (recall_of [Fz 1; Fz 0; Fz 1] [Fz 1; Fz 1; Fz 0] = None ↔
     existsb is_one [Fz 1; Fz 0; Fz 1] = false ∧ existsb is_one [Fz 1; Fz 1; Fz 0] = false) ∧
  ∀ r, recall_of [Fz 1; Fz 0; Fz 1] [Fz 1; Fz 1; Fz 0] = Some r → (0 <= r)%Q ∧ (r <= 1)%Q.
Proof.
  split; [reflexivity|].
  exact (recall_of_bounds [Fz 1; Fz 0; Fz 1] [Fz 1; Fz 1; Fz 0] eq_refl).
Defined.

(** ** The balanced training set as the forest receives it (lines 100-106) *)

Lemma wf_take_rows idx df : wf_frame (take_rows idx df).
Proof.
  unfold wf_frame, take_rows. simpl. apply Forall_fmap, Forall_forall.
  intros c _. simpl. apply length_map.
Qed.

Lemma wf_concat_rows a b c :
  wf_frame a → wf_frame b → concat_rows a b = Some c → wf_frame c.
Proof.
  unfold concat_rows. case_decide as Hnames; [|done]. intros Ha Hb [= <-].
  unfold wf_frame in *. simpl.
  unfold names in Hnames. apply (f_equal length) in Hnames.
  rewrite !length_fmap in Hnames.
  revert Ha Hb Hnames. generalize (nrows a) (nrows b) (columns b).
  induction (columns a) as [|x xs IH]; intros na nb [|y ys] Ha Hb Hlen;
    simpl in *; try done.
  apply Forall_cons in Ha as [Hx Ha]. apply Forall_cons in Hb as [Hy Hb].
  constructor.
  - simpl. rewrite length_app. lia.
  - apply IH; [done|done|lia].
Qed.

Lemma wf_drop_columns labels df df' :
  wf_frame df → drop_columns labels df = Some df' → wf_frame df'.
Proof.
  intros Hwf ->%drop_columns_Some. unfold wf_frame, drop_columns_ignore in *. simpl.
  apply Forall_forall. intros c [_ Hc]%list_elem_of_filter.
  by apply (proj1 (Forall_forall _ _) Hwf).
Qed.

Section BalancedShape.
Context `{L : Library}.

Lemma resample_inv rs (ambient : generator) df n out :
  resample rs ambient df n = Some out →
  ∃ idx, randint (check_random_state rs ambient) (nrows df) n = Some idx ∧
         out = take_rows idx df.
Proof.
  unfold resample. case_decide; [done|].
  destruct (randint _ _ _) as [idx|]; simpl; [|done].
  intros [= <-]. eauto.
Qed.

(** Whenever the balancing statements run through, the features and the
    labels handed to [rf.fit] match row for row: [X_train_balanced] has one
    cell per row in every column, and [y_train_balanced] has as many labels
    as [X_train_balanced] has rows. *)
Theorem balanced_frame_matches_labels (ambient : generator) σ u σ' :
  balancing_stage ambient σ = Some (u, σ') →
  ∃ Xb yb,
    globals σ' !! "X_train_balanced" = Some (VFrame Xb) ∧
    globals σ' !! "y_train_balanced" = Some (VSeries yb) ∧
    wf_frame Xb ∧
    length (s_values yb) = nrows Xb.
Proof.
  intros Hrun. unfold balancing_stage in Hrun. run_inv.
  rename Hstep2 into Hmaj, Hstep6 into Hres, Hstep8 into Hcat,
         Hstep10 into Hdrop, Hstep12 into Hy.
  assert (wf_frame a8) as Hwf.
  { apply (wf_concat_rows a2 a6 a8); [| |done].
    - unfold majority in Hmaj.
      destruct (getitem claim_risk _); simpl in Hmaj; [|done].
      injection Hmaj as <-. apply wf_take_rows.
    - apply resample_inv in Hres as (idx & _ & ->). apply wf_take_rows. }
  exists a10, a12. simpl.
  split; [by rewrite lookup_insert_ne, lookup_insert_eq|].
  split; [by rewrite lookup_insert_eq|].
  split; [by apply (wf_drop_columns [claim_risk] a8)|].
  rewrite (wf_getitem claim_risk a12 a8 Hwf Hy).
  by apply drop_columns_Some in Hdrop as ->.
Qed.

(** A training split with low-risk rows but not one high-risk row cannot be
    balanced: [resample] has nothing to draw from and raises, since numpy's
    [randint] rejects an empty range. *)
Theorem balancing_needs_a_positive (ambient : generator) td labels :
  (∀ g size, 0 < size → randint g 0 size = None) →
  getitem claim_risk td = Some labels →
  0 < count_eq 0 labels →
  count_eq 1 labels = 0 →
  minority_oversampled ambient td = None ∧ train_data_balanced ambient td = None.
Proof.
  intros Hrand Hlab H0 H1.
  assert (minority_oversampled ambient td = None) as Hover.
  { unfold minority_oversampled, majority, minority, resample. rewrite Hlab.
    cbn [mbind option_bind nrows take_rows].
    rewrite !length_where_eq, H1. case_decide; [done|]. by rewrite Hrand. }
  split; [done|].
  unfold train_data_balanced. rewrite Hover. by destruct (majority td).
Qed.

End BalancedShape.

Lemma balanced_frame_matches_labels_witness :
  match @balancing_stage demo_lib 0%Z demo_split_state with
  | Some (_, σ') =>
      ∃ Xb yb,
        globals σ' !! "X_train_balanced" = Some (VFrame Xb) ∧
        globals σ' !! "y_train_balanced" = Some (VSeries yb) ∧
        wf_frame Xb ∧
        length (s_values yb) = nrows Xb
  | None => False
  end.
Proof.
  destruct (@balancing_stage demo_lib 0%Z demo_split_state) as [[u σ']|] eqn:Hrun.
  - exact (@balanced_frame_matches_labels demo_lib 0%Z demo_split_state u σ' Hrun).
  - assert (bool_decide (is_Some (@balancing_stage demo_lib 0%Z demo_split_state)) = true)
      as Hsome by (vm_compute; reflexivity).
    rewrite Hrun in Hsome. discriminate Hsome.
Defined.

Lemma balancing_needs_a_positive_witness :
  (∀ g size, 0 < size → @randint demo_lib g 0 size = None) ∧
  getitem claim_risk demo_no_positive = Some (ints [0; 0; 0]%Z) ∧
  0 < count_eq 0 (ints [0; 0; 0]%Z) ∧
  count_eq 1 (ints [0; 0; 0]%Z) = 0 ∧
  @minority_oversampled demo_lib 0%Z demo_no_positive = None ∧
  @train_data_balanced demo_lib 0%Z demo_no_positive = None.
Proof.
  assert (∀ g size, 0 < size → @randint demo_lib g 0 size = None) as Hrand by done.
  assert (0 < count_eq 0 (ints [0; 0; 0]%Z)) as H0 by (vm_compute; lia).
  split; [exact Hrand|]. split; [reflexivity|]. split; [exact H0|]. split; [reflexivity|].
  exact (@balancing_needs_a_positive demo_lib 0%Z demo_no_positive (ints [0; 0; 0]%Z)
           Hrand eq_refl H0 eq_refl).
Defined.

(** ** The rows of a segment as the explainer receives them
    (lines 398-402 and 447-451) *)

Lemma filter_map_snd (P : string * Series → Prop) `{∀ c, Decision (P c)}
    (f : Series → Series) (cols : list (string * Series)) :
  (∀ c, P (c.1, f c.2) ↔ P c) →
  filter P (map (λ c, (c.1, f c.2)) cols) = map (λ c, (c.1, f c.2)) (filter P cols).
Proof.
  intros HP. induction cols as [|c cols IH]; [done|]. simpl.
  rewrite !filter_cons. destruct (decide (P c)) as [Hc|Hc].
  - rewrite decide_True by (by apply HP). simpl. by rewrite IH.
  - rewrite decide_False by (by rewrite HP). done.
Qed.

Lemma group_map_snd (f : Series → Series) l cols :
  group l (map (λ c, (c.1, f c.2)) cols) = map (λ c, (c.1, f c.2)) (group l cols).
Proof. unfold group. by apply filter_map_snd. Qed.

Lemma group_filter_names (P : string * Series → Prop) `{∀ c, Decision (P c)} l
    (cols : list (string * Series)) :
  (∀ c, c.1 = l → P c) → group l (filter P cols) = group l cols.
Proof.
  intros Hl. unfold group. rewrite list_filter_filter.
  apply list_filter_iff. intros c. split; [tauto|].
  intros Heq. split; [done|]. by apply Hl.
Qed.

Lemma lookup_col_NoDup n s (cols : list (string * Series)) :
  NoDup cols.*1 → (n, s) ∈ cols → lookup_col n cols = Some s.
Proof.
  induction cols as [|c cols IH]; intros Hnd Hin; [by apply elem_of_nil in Hin|].
  simpl in *. apply NoDup_cons in Hnd as [Hc Hnd].
  apply elem_of_cons in Hin as [<-|Hin]; simpl.
  - by rewrite decide_True.
  - rewrite decide_False; [by apply IH|]. intros Heq. apply Hc.
    apply list_elem_of_fmap. exists (n, s). by split.
Qed.

Lemma elem_of_insert_cell y x l : y ∈ insert_cell x l ↔ y = x ∨ y ∈ l.
Proof.
  induction l as [|a l IH]; simpl.
  - rewrite list_elem_of_singleton, elem_of_nil. tauto.
  - destruct (cell_leb x a); rewrite !elem_of_cons; [tauto|]. rewrite IH. tauto.
Qed.

Lemma elem_of_sorted_cells y l : y ∈ foldr insert_cell [] l ↔ y ∈ l.
Proof.
  induction l as [|x l IH]; [done|]. simpl.
  rewrite elem_of_insert_cell, elem_of_cons, IH. tauto.
Qed.

Lemma elem_of_unique y l : y ∈ unique l → y ∈ l.
Proof.
  induction l as [|x l IH]; [done|]. simpl. rewrite !elem_of_cons.
  intros [->|[_ H]%list_elem_of_filter]; auto.
Qed.

Lemma elem_of_levels lv vs : lv ∈ levels vs → lv ∈ vs ∧ lv ≠ NaN.
Proof.
  unfold levels. cbv zeta. intros H.
  assert (lv ∈ unique (filter (λ c, negb (isna c)) vs)) as Hu.
  { revert H. destruct (_ || _); [|done]. by rewrite elem_of_sorted_cells. }
  apply elem_of_unique, list_elem_of_filter in Hu as [Hna Hin].
  split; [done|]. intros ->. done.
Qed.

Lemma levels_representative v vs :
  v ∈ vs → v ≠ NaN → ∃ lv, lv ∈ levels vs ∧ cell_eqb v lv = true.
Proof.
  intros Hin Hv. pose proof (matches_levels v vs Hin Hv) as Hlen.
  destruct (filter (λ lv, cell_eqb v lv) (levels vs)) as [|lv rest] eqn:Hf; [done|].
  assert (lv ∈ filter (λ lv, cell_eqb v lv) (levels vs)) as Hlv
    by (rewrite Hf; apply elem_of_cons; by left).
  apply list_elem_of_filter in Hlv as [Hm Hlv].
  exists lv. split; [done|]. by apply Is_true_true.
Qed.

Lemma NoDup_insert_cell x l : x ∉ l → NoDup l → NoDup (insert_cell x l).
Proof.
  induction l as [|a l IH]; simpl; intros Hx Hnd.
  - apply NoDup_singleton.
  - destruct (cell_leb x a); [by apply NoDup_cons|].
    apply NoDup_cons in Hnd as [Ha Hnd]. apply not_elem_of_cons in Hx as [Hxa Hx].
    apply NoDup_cons. split; [|by apply IH].
    rewrite elem_of_insert_cell. intros [Heq|?]; [by subst|done].
Qed.

Lemma NoDup_sorted_cells l : NoDup l → NoDup (foldr insert_cell [] l).
Proof.
  induction 1 as [|x l Hx Hnd IH]; simpl; [constructor|].
  apply NoDup_insert_cell; [by rewrite elem_of_sorted_cells|done].
Qed.

Lemma NoDup_unique l : Forall (λ v, v ≠ NaN) l → NoDup (unique l).
Proof.
  induction 1 as [|v l Hv Hall IH]; simpl; [constructor|].
  apply NoDup_cons. split; [|by apply NoDup_filter].
  intros [Hneg _]%list_elem_of_filter. by rewrite cell_eqb_refl in Hneg.
Qed.

Lemma NoDup_levels vs : NoDup (levels vs).
Proof.
  unfold levels.
  assert (NoDup (unique (filter (λ c, negb (isna c)) vs))) as H.
  { apply NoDup_unique, Forall_forall. intros v [Hna _]%list_elem_of_filter ->. done. }
  destruct (_ || _); [by apply NoDup_sorted_cells|done].
Qed.

Lemma same_written_eq vs x y :
  same_written vs → x ∈ vs → y ∈ vs → cell_eqb x y = true → x = y.
Proof.
  intros H Hx Hy. unfold same_written in H. rewrite Forall_forall in H.
  specialize (H x Hx). rewrite Forall_forall in H. exact (H y Hy).
Qed.

Lemma elem_of_selection (vs : list cell) idx v :
  Forall (λ i, i < length vs) idx → v ∈ map (λ i, vs !!! i) idx → v ∈ vs.
Proof.
  intros Hidx (i & -> & Hi)%list_elem_of_fmap.
  apply list_elem_of_lookup_total_2. by apply (proj1 (Forall_forall _ _) Hidx).
Qed.

(** The categories of a row selection are categories of the column. *)
Lemma levels_selection vs idx lv :
  same_written vs → Forall (λ i, i < length vs) idx →
  lv ∈ levels (map (λ i, vs !!! i) idx) → lv ∈ levels vs.
Proof.
  intros Hsw Hidx [Hin Hna]%elem_of_levels.
  apply elem_of_selection in Hin; [|done].
  destruct (levels_representative lv vs Hin Hna) as (lv' & Hlv' & Heq).
  by rewrite (same_written_eq vs lv lv' Hsw Hin (proj1 (elem_of_levels _ _ Hlv')) Heq).
Qed.

Lemma map_selection (f : cell → cell) (vs : list cell) idx :
  Forall (λ i, i < length vs) idx →
  map f (map (λ i, vs !!! i) idx) = map (λ i, map f vs !!! i) idx.
Proof.
  intros H. rewrite map_map. apply Forall_fmap_ext_1.
  eapply Forall_impl; [exact H|]. intros i Hi. simpl. symmetry.
  exact (list_lookup_total_fmap f vs i Hi).
Qed.

Lemma NoDup_submseteq_inv {A} (l k : list A) : l ⊆+ k → NoDup k → NoDup l.
Proof.
  intros [k' Hk]%submseteq_Permutation Hnd. rewrite Hk in Hnd.
  by apply NoDup_app in Hnd as [? _].
Qed.

Lemma elem_of_names_filter (P : string → Prop) `{∀ n, Decision (P n)} l
    (cols : list (string * Series)) :
  l ∈ (filter (λ c, P c.1) cols).*1 ↔ P l ∧ l ∈ cols.*1.
Proof.
  rewrite !list_elem_of_fmap. split.
  - intros (c & -> & [Hp Hc]%list_elem_of_filter). split; [done|]. by exists c.
  - intros (Hp & c & -> & Hc). exists c. split; [done|]. by apply list_elem_of_filter.
Qed.

Lemma align_columns S X :
  NoDup (names X) →
  align S X = Some (mkFrame (nrows X)
                      (map (λ col, (col, default (zeros (nrows X)) (getitem col X))) S)).
Proof.
  intros Hnd. rewrite align_groups. do 2 f_equal.
  rewrite <- (concat_singletons
                (λ col, (col, default (zeros (nrows X)) (getitem col X))) S).
  f_equal. apply Forall_fmap_ext, Forall_forall. intros l Hl. unfold getitem.
  destruct (lookup_col l (columns X)) as [s|] eqn:Hlook; simpl.
  - rewrite add_missing_present by (apply lookup_col_is_Some; by rewrite Hlook).
    by apply group_singleton.
  - apply add_missing_absent; [|done]. by apply lookup_col_None.
Qed.

Lemma elem_of_selected cats (cols : list (string * Series)) c :
  c ∈ concat (map (λ l, group l cols) cats) ↔ c ∈ cols ∧ c.1 ∈ cats.
Proof.
  induction cats as [|a cats IH]; simpl.
  - rewrite !elem_of_nil. tauto.
  - rewrite elem_of_app, IH, elem_of_cons. unfold group.
    rewrite list_elem_of_filter. tauto.
Qed.

Section SegmentRows.
Context `{L : Library}.

Lemma elem_of_get_dummies_1d p s0 c :
  c ∈ get_dummies_1d p s0 ↔
  ∃ lv, lv ∈ levels (s_values s0) ∧
        c = (p +:+ "_" +:+ cell_str lv,
             mkSeries dummy_dtype
               (map (λ v, bool_to_int (cell_eqb v lv)) (s_values s0))).
Proof.
  unfold get_dummies_1d. split.
  - intros (lv & -> & H)%list_elem_of_fmap. eauto.
  - intros (lv & H & ->). apply list_elem_of_fmap. eauto.
Qed.

Lemma names_get_dummies_1d p s0 :
  (get_dummies_1d p s0).*1
  = (λ lv, p +:+ "_" +:+ cell_str lv) <$> levels (s_values s0).
Proof.
  unfold get_dummies_1d. induction (levels (s_values s0)) as [|lv lvs IH]; [done|].
  simpl. f_equal. exact IH.
Qed.

Lemma elem_of_encoded (g : Series → Series) (CE : list (string * Series)) c :
  c ∈ concat (map (λ c0, get_dummies_1d c0.1 (g c0.2)) CE) ↔
  ∃ c0, c0 ∈ CE ∧ c ∈ get_dummies_1d c0.1 (g c0.2).
Proof.
  induction CE as [|a CE IH]; simpl.
  - rewrite elem_of_nil. split; [done|]. intros (c0 & H & _). by apply elem_of_nil in H.
  - rewrite elem_of_app, IH. split.
    + intros [H|(c0 & H0 & H)]; [exists a|exists c0]; (split; [|done]);
        apply elem_of_cons; auto.
    + intros (c0 & [->|H0]%elem_of_cons & H); [by left|right; eauto].
Qed.

Lemma get_dummies_inv cats df E :
  get_dummies cats df = Some E →
  Forall (λ l, l ∈ names df) cats ∧
  E = mkFrame (nrows df)
        (filter (λ c, c.1 ∉ cats) (columns df)
         ++ concat (map (λ c, get_dummies_1d c.1 c.2)
                        (concat (map (λ l, group l (columns df)) cats)))).
Proof.
  intros H. destruct (decide (Forall (λ l, l ∈ names df) cats)) as [Hall|Hnot].
  - split; [done|]. unfold get_dummies in H.
    rewrite getitem_list_present in H by done. simpl in H. by injection H as <-.
  - unfold get_dummies in H. by rewrite getitem_list_absent in H.
Qed.

Lemma selection_encoded_columns cats df idx :
  claim_amount_SZL ∈ names df → claim_risk ∈ names df →
  (claim_amount_SZL ∉ cats) → (claim_risk ∉ cats) →
  Forall (λ l, l ∈ names df) cats →
  drop_columns [claim_amount_SZL; claim_risk] (take_rows idx df) ≫= get_dummies cats
  = Some (mkFrame (length idx)
      (map (λ c, (c.1, take_series idx c.2))
           (filter (λ c, c.1 ∉ [claim_amount_SZL; claim_risk])
                   (filter (λ c, c.1 ∉ cats) (columns df)))
       ++ concat (map (λ c, get_dummies_1d c.1 (take_series idx c.2))
                      (concat (map (λ l, group l (columns df)) cats))))).
Proof.
  intros Ha Hr Hca Hcr Hall.
  assert (Forall (λ l, l ∉ [claim_amount_SZL; claim_risk]) cats) as Hkeep.
  { apply Forall_forall. intros l Hl. rewrite !elem_of_cons, elem_of_nil.
    intros [->|[->|[]]]; done. }
  unfold drop_columns. rewrite decide_True.
  2:{ rewrite names_take_rows. by repeat constructor. }
  cbn [mbind option_bind]. unfold get_dummies. rewrite getitem_list_present.
  2:{ apply Forall_forall. intros l Hl.
      pose proof (proj1 (Forall_forall _ _) Hall l Hl) as Hin.
      apply list_elem_of_fmap in Hin as (c & Heq & Hc).
      apply list_elem_of_fmap. exists (c.1, take_series idx c.2). split; [done|].
      cbn [columns take_rows]. apply list_elem_of_filter. split.
      - simpl. rewrite <- Heq. exact (proj1 (Forall_forall _ _) Hkeep l Hl).
      - apply list_elem_of_fmap. by exists c. }
  cbn [mbind option_bind nrows columns take_rows]. do 2 f_equal. f_equal.
  - rewrite !filter_map_snd by done. f_equal.
    rewrite !list_filter_filter. apply list_filter_iff. tauto.
  - assert (concat (map (λ l, group l
               (filter (λ c, c.1 ∉ [claim_amount_SZL; claim_risk])
                  (map (λ c, (c.1, take_series idx c.2)) (columns df)))) cats)
            = map (λ c, (c.1, take_series idx c.2))
                (concat (map (λ l, group l (columns df)) cats))) as ->.
    { clear Hca Hcr Hall. induction Hkeep as [|l cats Hl Hkeep IH]; [done|].
      simpl. rewrite map_app, IH. f_equal.
      rewrite filter_map_snd by done.
      rewrite group_map_snd. f_equal.
      apply group_filter_names. by intros c ->. }
    by rewrite map_map.
Qed.

Lemma selection_names_sub idx (CE : list (string * Series)) :
  Forall (λ c, same_written (s_values c.2)
               ∧ Forall (λ i, i < length (s_values c.2)) idx) CE →
  (concat (map (λ c, get_dummies_1d c.1 (take_series idx c.2)) CE)).*1
  ⊆+ (concat (map (λ c, get_dummies_1d c.1 c.2) CE)).*1.
Proof.
  induction 1 as [|c CE [Hsw Hidx] _ IH]; [done|]. simpl. rewrite !fmap_app.
  apply submseteq_app; [|done]. rewrite !names_get_dummies_1d.
  apply fmap_submseteq, NoDup_submseteq; [apply NoDup_levels|].
  intros lv. by apply levels_selection.
Qed.

End SegmentRows.
Lemma fst_map_snd (f : Series → Series) (cols : list (string * Series)) :
  (map (λ c, (c.1, f c.2)) cols).*1 = cols.*1.
Proof. exact (names_map_snd f 0 cols). Qed.

Lemma map_names {B} (g : string → B) (cols : list (string * Series)) :
  map g cols.*1 = map (λ c, g c.1) cols.
Proof. induction cols as [|c cols IH]; [done|]. simpl. f_equal. exact IH. Qed.

Section SegmentAgreement.
Context `{L : Library}.

Lemma segment_encoded_general cats df E X idx :
  wf_frame df →
  claim_amount_SZL ∈ names df → claim_risk ∈ names df →
  (claim_amount_SZL ∉ cats) → (claim_risk ∉ cats) →
  Forall (λ c, c.1 ∈ cats → same_written (s_values c.2)) (columns df) →
  get_dummies cats df = Some E → features E = Some X →
  NoDup (names E) →
  Forall (λ i, i < nrows df) idx →
  ∃ Y, segment_encoded cats (names X) (take_rows idx df) = Some Y ∧
       names Y = names X ∧ values Y = values (take_rows idx X).
Proof.
  intros Hwf Ha Hr Hca Hcr Hsw HE HX HndE Hidx.
  apply get_dummies_inv in HE as [Hall ->].
  apply drop_columns_Some in HX as ->.
  unfold segment_encoded.
  rewrite (selection_encoded_columns cats df idx Ha Hr Hca Hcr Hall).
  cbn [mbind option_bind].
  unfold names in HndE. cbn [columns] in HndE.
  set (CE := concat (map (λ l, group l (columns df)) cats)) in *.
  set (Ncat := filter (λ c, c.1 ∉ cats) (columns df)) in *.
  set (G := mkFrame (length idx) _).
  set (S := names (drop_columns_ignore _ _)).
  assert (Forall (λ c, same_written (s_values c.2)
                       ∧ Forall (λ i, i < length (s_values c.2)) idx) CE) as HCE.
  { apply Forall_forall. intros c [Hc Hcat]%elem_of_selected. split.
    - by apply (proj1 (Forall_forall _ _) Hsw c Hc).
    - by rewrite (proj1 (Forall_forall _ _) Hwf c Hc). }
  assert (NoDup (names G)) as HndG.
  { apply (NoDup_submseteq_inv _ _) with (2 := HndE).
    unfold names, G. cbn [columns]. rewrite !fmap_app.
    apply submseteq_app; [|by apply selection_names_sub].
    rewrite fst_map_snd.
    apply fmap_submseteq, sublist_submseteq, sublist_filter. }
  rewrite (align_columns S G HndG). eexists. split; [reflexivity|]. split.
  { unfold names at 1. cbn [columns]. rewrite <- list_fmap_compose. apply list_fmap_id. }
  unfold values. cbn [columns take_rows]. rewrite !map_map.
  unfold S, names. rewrite map_names. apply map_ext_in.
  intros c Hc%list_elem_of_In. cbn [fst snd].
  cbn [columns drop_columns_ignore] in Hc.
  apply list_elem_of_filter in Hc as [Hkeep Hc].
  apply elem_of_app in Hc as [Hc|Hc].
  - assert (getitem c.1 G = Some (take_series idx c.2)) as ->; [|done].
    unfold getitem. apply lookup_col_NoDup; [exact HndG|].
    unfold G. cbn [columns]. apply elem_of_app. left.
    apply list_elem_of_fmap. exists c. split; [done|]. by apply list_elem_of_filter.
  - apply (elem_of_encoded (λ s, s)) in Hc as (c0 & Hc0 & Hc).
    apply elem_of_get_dummies_1d in Hc as (lv & Hlv & ->). cbn [fst snd] in *.
    destruct (proj1 (Forall_forall _ _) HCE c0 Hc0) as [Hsw0 Hidx0].
    assert (∀ c1 lv1, c1 ∈ CE → lv1 ∈ levels (s_values c1.2) →
              (c1.1 +:+ "_" +:+ cell_str lv1,
               mkSeries dummy_dtype
                 (map (λ v, bool_to_int (cell_eqb v lv1)) (s_values c1.2)))
              ∈ Ncat ++ concat (map (λ c, get_dummies_1d c.1 c.2) CE)) as Hfull.
    { intros c1 lv1 Hc1 Hlv1. apply elem_of_app. right.
      apply (elem_of_encoded (λ s, s)). exists c1. split; [done|].
      apply elem_of_get_dummies_1d. eauto. }
    destruct (getitem (c0.1 +:+ "_" +:+ cell_str lv) G) as [s2|] eqn:HG; cbn [default].
    + apply lookup_col_elem in HG. unfold G in HG. cbn [columns] in HG.
      apply elem_of_app in HG as [HG|HG].
      * exfalso. apply list_elem_of_fmap in HG as (c1 & Heq & Hc1).
        apply list_elem_of_filter in Hc1 as [_ Hc1]. injection Heq as Hname _.
        rewrite fmap_app in HndE. apply NoDup_app in HndE as (_ & Hdisj & _).
        apply (Hdisj c1.1).
        -- apply list_elem_of_fmap. by exists c1.
        -- rewrite <- Hname. apply list_elem_of_fmap. eexists. split; [|
             apply (elem_of_encoded (λ s, s)); exists c0; split; [done|];
             apply elem_of_get_dummies_1d; eauto]. done.
      * apply (elem_of_encoded (take_series idx)) in HG as (c' & Hc' & HG).
        apply elem_of_get_dummies_1d in HG as (lv' & Hlv' & Heq).
        injection Heq as Hname ->.
        destruct (proj1 (Forall_forall _ _) HCE c' Hc') as [Hsw' Hidx'].
        apply levels_selection in Hlv'; [|done..].
        pose proof (lookup_col_NoDup _ _ _ HndE (Hfull c0 lv Hc0 Hlv)) as H1.
        pose proof (lookup_col_NoDup _ _ _ HndE (Hfull c' lv' Hc' Hlv')) as H2.
        rewrite <- Hname, H1 in H2. injection H2 as Hvals.
        cbn [s_values take_series]. rewrite Hvals. by apply map_selection.
    + cbn [s_values take_series zeros]. symmetry. apply const_fmap.
      intros k i Hk.
      assert (i ∈ idx) as Hi by (by eapply list_elem_of_lookup_2).
      assert (i < length (s_values c0.2)) as Hlt
        by (by apply (proj1 (Forall_forall _ _) Hidx0)).
      rewrite (list_lookup_total_fmap _ (s_values c0.2) i Hlt).
      destruct (cell_eqb (s_values c0.2 !!! i) lv) eqn:Heqb; [exfalso|done].
      assert (s_values c0.2 !!! i ≠ NaN) as Hna.
      { intros Hnan. by rewrite Hnan in Heqb. }
      assert (s_values c0.2 !!! i ∈ map (λ i, s_values c0.2 !!! i) idx) as Hin.
      { apply list_elem_of_fmap. by exists i. }
      destruct (levels_representative _ _ Hin Hna) as (lv2 & Hlv2 & He2).
      pose proof (levels_selection _ _ _ Hsw0 Hidx0 Hlv2) as Hlv2'.
      assert (lv2 = lv) as ->.
      { apply (same_written_eq (s_values c0.2)); [done| | |].
        - exact (proj1 (elem_of_levels _ _ Hlv2')).
        - exact (proj1 (elem_of_levels _ _ Hlv)).
        - eapply cell_eqb_trans; [|exact Heqb]. by apply cell_eqb_sym. }
      apply lookup_col_None in HG. apply HG. unfold G. cbn [columns].
      rewrite fmap_app. apply elem_of_app. right.
      apply list_elem_of_fmap. eexists. split; [|
        apply (elem_of_encoded (take_series idx)); exists c0; split; [done|];
        apply elem_of_get_dummies_1d; exists lv; split; [exact Hlv2|reflexivity]].
      done.
Qed.

End SegmentAgreement.
Section SegmentTheorem.
Context `{L : Library}.

(** The rows of a segment (lines 379 and 398-402) and the rows sampled from
    a region (lines 432 and 446-451) reach the explainer encoded as in
    training.  For any selection of rows of the frame: dropping the amount
    and the label, encoding the categorical columns of the selection alone,
    and aligning to the columns of the feature matrix [X] never fails and
    gives, label by label and cell by cell, the same rows of [X]; a category
    that does not occur in the selection is filled with the zeros its
    indicator holds there.  The frame is the one line 94 encodes, with
    distinct labels after encoding and equal cells of a categorical column
    written the same way. *)
Theorem segment_rows_encoded_as_trained df enc X idx :
  wf_frame df →
  claim_amount_SZL ∈ names df → claim_risk ∈ names df →
  Forall (λ c, c.1 ∈ categorical_cols df → same_written (s_values c.2)) (columns df) →
  df_encoded df = Some enc → features enc = Some X →
  NoDup (names enc) →
  Forall (λ i, i < nrows df) idx →
  ∃ Y, segment_encoded (categorical_cols df) (names X) (take_rows idx df) = Some Y ∧
       names Y = names X ∧ values Y = values (take_rows idx X).
Proof.
  intros Hwf Ha Hr Hsw Henc HX Hnd Hidx.
  assert (∀ n, n ∈ [claim_amount_SZL; claim_risk] → n ∉ categorical_cols df) as Hout.
  { intros n Hn [H|(s & _ & _ & _ & H)]%categorical_cols_elem; [|done].
    revert H. apply elem_of_cons in Hn as [->|Hn%list_elem_of_singleton]; [|subst n];
      apply (bool_decide_unpack _); vm_compute; exact I. }
  apply (segment_encoded_general (categorical_cols df) df enc X idx); try done.
  - apply Hout. repeat constructor.
  - apply Hout. repeat constructor.
Qed.

End SegmentTheorem.

Lemma segment_rows_encoded_as_trained_witness :
  wf_frame demo_segmented ∧
  claim_amount_SZL ∈ names demo_segmented ∧ claim_risk ∈ names demo_segmented ∧
  Forall (λ c, c.1 ∈ categorical_cols demo_segmented → same_written (s_values c.2))
         (columns demo_segmented) ∧
  @df_encoded demo_lib demo_segmented = Some demo_encoded ∧
  features demo_encoded = Some demo_X ∧
  NoDup (names demo_encoded) ∧
  Forall (λ i, i < nrows demo_segmented) [0; 2] ∧
  ∃ Y, @segment_encoded demo_lib (categorical_cols demo_segmented) (names demo_X)
         (take_rows [0; 2] demo_segmented) = Some Y ∧
       names Y = names demo_X ∧ values Y = values (take_rows [0; 2] demo_X).
Proof.
  assert (wf_frame demo_segmented) as Hwf
    by (apply (bool_decide_unpack _); vm_compute; exact I).
  assert (claim_amount_SZL ∈ names demo_segmented) as Ha
    by (apply (bool_decide_unpack _); vm_compute; exact I).
  assert (claim_risk ∈ names demo_segmented) as Hr
    by (apply (bool_decide_unpack _); vm_compute; exact I).
  assert (Forall (λ c, c.1 ∈ categorical_cols demo_segmented → same_written (s_values c.2))
                 (columns demo_segmented)) as Hsw
    by (apply (bool_decide_unpack _); vm_compute; exact I).
  assert (@df_encoded demo_lib demo_segmented = Some demo_encoded) as Henc
    by (vm_compute; reflexivity).
  assert (features demo_encoded = Some demo_X) as HX by (vm_compute; reflexivity).
  assert (NoDup (names demo_encoded)) as Hnd
    by (apply (bool_decide_unpack _); vm_compute; exact I).
  assert (Forall (λ i, i < nrows demo_segmented) [0; 2]) as Hidx
    by (apply (bool_decide_unpack _); vm_compute; exact I).
  repeat (split; [assumption|]).
  exact (@segment_rows_encoded_as_trained demo_lib demo_segmented demo_encoded demo_X
           [0; 2] Hwf Ha Hr Hsw Henc HX Hnd Hidx).
Defined.

Lemma names_filter (P : string * Series → Prop) (Q : string → Prop)
    `{∀ c, Decision (P c)} `{∀ n, Decision (Q n)} (cols : list (string * Series)) :
  (∀ c, P c ↔ Q c.1) → (filter P cols).*1 = filter Q cols.*1.
Proof.
  intros HPQ. induction cols as [|c cols IH]; [done|].
  rewrite fmap_cons, !filter_cons.
  destruct (decide (P c)) as [Hc|Hc].
  - rewrite decide_True by (by apply HPQ). by rewrite fmap_cons, IH.
  - rewrite decide_False by (by rewrite <- HPQ). done.
Qed.

Lemma filter_keeps_all {A} (P : A → Prop) `{∀ x, Decision (P x)} (l : list A) :
  Forall P l → filter P l = l.
Proof.
  induction 1 as [|x l Hx Hl IH]; [done|]. by rewrite filter_cons_True, IH.
Qed.

Section SameColumns.
Context `{L : Library}.

Lemma balancing_stage_names (ambient : generator) σ u σ' X_train :
  globals σ !! "X_train" = Some (VFrame X_train) →
  (claim_risk ∉ names X_train) →
  balancing_stage ambient σ = Some (u, σ') →
  ∃ Xb, globals σ' !! "X_train_balanced" = Some (VFrame Xb) ∧
        names Xb = names X_train.
Proof.
  intros HX Hnot Hrun. unfold balancing_stage in Hrun. run_inv.
  rewrite HX in Hstep. injection Hstep as <-.
  eexists. split.
  { simpl. rewrite lookup_insert_ne by done. by rewrite lookup_insert_eq. }
  match goal with
  | Hd : drop_columns [claim_risk] ?bal = Some _,
    Hc : concat_rows ?maj _ = Some ?bal,
    Hm : majority _ = Some ?maj |- _ =>
      apply drop_columns_Some in Hd as ->;
      pose proof (names_concat_rows _ _ _ Hc) as Hn1;
      pose proof (names_majority _ _ Hm) as Hn2
  end.
  unfold names, drop_columns_ignore. cbn [columns].
  rewrite (names_filter _ (λ n, n ∉ [claim_risk])) by done.
  unfold names in Hn1, Hn2. rewrite Hn1, Hn2.
  unfold train_data, concat_columns. cbn [columns].
  rewrite fmap_app, filter_app. cbn [fmap list_fmap fst].
  rewrite filter_cons_False, filter_nil, app_nil_r.
  2:{ intros H. apply H. by apply list_elem_of_singleton. }
  apply filter_keeps_all, Forall_forall. intros n Hn Hin.
  apply list_elem_of_singleton in Hin as ->. done.
Qed.

(** In every run that gets through the script, the forest is fitted
    ([X_train_balanced], line 116) and evaluated ([X_test], lines 117 and
    123) on frames with the same column labels in the same order, those of
    the feature matrix [X] of line 97. *)
Theorem train_and_test_share_columns (ambient : generator) raw σ :
  run ambient raw = Some σ →
  ∃ X Xb Xt,
    ((((prepare raw ≫= assign_segments ambient) ≫= df_encoded) ≫= features) = Some X) ∧
    globals σ !! "X_train_balanced" = Some (VFrame Xb) ∧
    globals σ !! "X_test" = Some (VFrame Xt) ∧
    names Xb = names X ∧ names Xt = names X.
Proof.
  unfold run. intros Hrun.
  destruct (prepare raw) as [df0|]; simpl in Hrun; [|done].
  destruct (assign_segments ambient df0) as [df|] eqn:Hseg; simpl in Hrun; [|done].
  destruct (df_encoded df) as [enc|] eqn:Henc; simpl in Hrun; [|done].
  destruct (features enc) as [X|] eqn:HX; simpl in Hrun; [|done].
  destruct (target enc) as [y|]; simpl in Hrun; [|done].
  destruct (script ambient _) as [[u σ']|] eqn:Hscript; simpl in Hrun; [|done].
  injection Hrun as ->.
  assert (claim_risk ∉ names X) as HnX.
  { intros Hin. apply (names_drop_columns _ enc X _ HX) in Hin as [_ Hin].
    apply Hin. repeat constructor. }
  unfold script in Hscript.
  apply bind_inv in Hscript as (u1 & σ1 & Hsplit & Hscript).
  apply bind_inv in Hscript as (u2 & σ2 & Hbal & Hscript).
  apply bind_inv in Hscript as (u3 & σ3 & Htrain & Hscript).
  apply bind_inv in Hscript as (u4 & σ4 & Hmetrics & Hgate).
  apply split_stage_spec with (X := X) in Hsplit as (tr & te & Htr & Hte);
    [|simpl; rewrite !lookup_insert_ne by done; by rewrite lookup_insert_eq].
  pose proof (balancing_keeps ambient "X_test" (or_introl eq_refl) _ _ _ Hbal) as Hte2.
  apply balancing_stage_names with (X_train := take_rows tr X) in Hbal
    as (Xb & HXb & Hnames); [|done|by rewrite names_take_rows].
  destruct (later_stages_keep ambient "X_test" (or_introl eq_refl)) as (K1 & K2 & K3).
  destruct (later_stages_keep ambient "X_train_balanced" (or_intror eq_refl))
    as (K1' & K2' & K3').
  exists X, Xb, (take_rows te X).
  split; [cbn [mbind option_bind]; rewrite Hseg; cbn [mbind option_bind]; by rewrite Henc|].
  rewrite (K3 _ _ _ Hgate), (K2 _ _ _ Hmetrics), (K1 _ _ _ Htrain), Hte2.
  rewrite (K3' _ _ _ Hgate), (K2' _ _ _ Hmetrics), (K1' _ _ _ Htrain).
  split; [done|]. split; [done|].
  rewrite Hnames, !names_take_rows. done.
Qed.

End SameColumns.

Lemma train_and_test_share_columns_witness :
  match @run demo_lib 0%Z demo_raw with
  | Some σ =>
      ∃ X Xb Xt,
        ((((@prepare demo_lib demo_raw ≫= @assign_segments demo_lib 0%Z)
             ≫= @df_encoded demo_lib) ≫= features) = Some X) ∧
        globals σ !! "X_train_balanced" = Some (VFrame Xb) ∧
        globals σ !! "X_test" = Some (VFrame Xt) ∧
        names Xb = names X ∧ names Xt = names X
  | None => False
  end.
Proof.
  destruct (@run demo_lib 0%Z demo_raw) as [σ|] eqn:Hrun.
  - exact (@train_and_test_share_columns demo_lib 0%Z demo_raw σ Hrun).
  - assert (bool_decide (is_Some (@run demo_lib 0%Z demo_raw)) = true)
      as Hsome by (vm_compute; reflexivity).
    rewrite Hrun in Hsome. discriminate Hsome.
Defined.

(** ** What the clustering is given (lines 85-86) *)

Lemma median_not_text vs s : median vs ≠ Str s.
Proof.
  unfold median. destruct (Qsort (present vs)); [done|].
  cbv zeta. by destruct (Nat.even _).
Qed.

Lemma fillna_median_series_dtype s : s_dtype (fillna_median_series s) = s_dtype s.
Proof.
  unfold fillna_median_series. destruct (is_numeric_or_bool _); [|done].
  by destruct (median _).
Qed.

Lemma fillna_median_series_cells s :
  Forall (λ v, is_num v = true ∨ v = NaN) (s_values s) →
  Forall (λ v, is_num v = true ∨ v = NaN) (s_values (fillna_median_series s)).
Proof.
  intros H. unfold fillna_median_series. destruct (is_numeric_or_bool _); [|done].
  destruct (median (s_values s)) as [|m|t] eqn:Hm; [done| |by apply median_not_text in Hm].
  simpl. unfold fillna_value. apply Forall_fmap. eapply Forall_impl; [exact H|].
  intros v Hv. simpl. destruct (isna v); [by left|done].
Qed.

Lemma numbers_when_none_missing vs :
  Forall (λ v, is_num v = true ∨ v = NaN) vs → existsb isna vs = false →
  Forall (λ v, is_num v = true) vs.
Proof.
  induction 1 as [|v vs Hv _ IH]; [done|]. simpl.
  intros [Hna Hrest]%orb_false_iff. constructor; [|by apply IH].
  destruct Hv as [Hv| ->]; done.
Qed.

(** A column that leaves lines 71-72 with an integer or float dtype holds
    numbers only. *)
Lemma imputed_numbers s :
  (s_dtype s = int64 ∨ s_dtype s = float64 →
   Forall (λ v, is_num v = true ∨ v = NaN) (s_values s)) →
  s_dtype (fillna_unknown_series (fillna_median_series s)) = int64
  ∨ s_dtype (fillna_unknown_series (fillna_median_series s)) = float64 →
  Forall (λ v, is_num v = true)
         (s_values (fillna_unknown_series (fillna_median_series s))).
Proof.
  intros Hwt. unfold fillna_unknown_series.
  destruct (existsb isna (s_values (fillna_median_series s))) eqn:He.
  - simpl. by intros [|].
  - rewrite fillna_median_series_dtype. intros Hnum.
    apply numbers_when_none_missing; [|done].
    by apply fillna_median_series_cells, Hwt.
Qed.

Lemma setitem_Forall (Q : Series → Prop) name s df :
  Forall (λ c, Q c.2) (columns df) → Q s →
  Forall (λ c, Q c.2) (columns (setitem name s df)).
Proof.
  unfold setitem. intros Hall Hs. case_decide; simpl.
  - apply Forall_fmap. eapply Forall_impl; [exact Hall|]. intros c Hc. simpl.
    by case_decide.
  - apply Forall_app. split; [done|]. by repeat constructor.
Qed.

Lemma setitem_NoDup name s df : NoDup (names df) → NoDup (names (setitem name s df)).
Proof.
  intros Hnd. rewrite names_setitem. case_decide as Hin; [done|].
  apply NoDup_app. split; [done|]. split; [|apply NoDup_singleton].
  intros n Hn Hn'%list_elem_of_singleton. by subst.
Qed.

Lemma drop_columns_Forall (P : string * Series → Prop) labels df df' :
  drop_columns labels df = Some df' →
  Forall P (columns df) → Forall P (columns df').
Proof.
  intros ->%drop_columns_Some Hall. unfold drop_columns_ignore. simpl.
  apply Forall_forall. intros c [_ Hc]%list_elem_of_filter.
  by apply (proj1 (Forall_forall _ _) Hall).
Qed.

Lemma drop_columns_NoDup labels df df' :
  drop_columns labels df = Some df' → NoDup (names df) → NoDup (names df').
Proof.
  intros ->%drop_columns_Some Hnd. unfold drop_columns_ignore, names. simpl.
  rewrite (names_filter _ (λ n, n ∉ labels)) by done. by apply NoDup_filter.
Qed.

Section Clustering.
Context `{L : Library}.

Lemma preprocess_columns raw df :
  preprocess raw = Some df →
  ∃ amt, df = fillna_unknown (fillna_median (setitem claim_risk (raw_labels amt) raw)).
Proof.
  unfold preprocess, derive_claim_risk. intros H.
  destruct (getitem claim_amount_SZL raw) as [amt|]; simpl in H; [|done].
  destruct (is_int_or_float (s_dtype amt)); simpl in H; [|done].
  injection H as <-. by exists amt.
Qed.

Lemma date_part_numbers (f : Z * Z * Z → Z) ds :
  Forall is_Some ds → Forall (λ v, is_num v = true) (s_values (date_part f ds)).
Proof.
  intros H. unfold date_part. simpl. apply Forall_fmap.
  eapply Forall_impl; [exact H|]. by intros d [ymd ->].
Qed.

Lemma parsed_dates vs ds :
  mapM to_datetime vs = Some ds →
  (∀ v, v ∈ vs → to_datetime v ≠ Some None) →
  Forall is_Some ds.
Proof.
  intros H%mapM_Some. induction H as [|v d vs ds Hv _ IH]; intros Hno; [done|].
  constructor.
  - destruct d as [ymd|]; [done|]. exfalso. apply (Hno v); [by left|done].
  - apply IH. intros w Hw. apply Hno. by right.
Qed.

Lemma date_features_invariants (Q : Series → Prop) col df df' :
  (∀ s ds f, getitem col df = Some s → mapM to_datetime (s_values s) = Some ds →
             Q (date_part f ds)) →
  date_features col df = Some df' →
  (Forall (λ c, Q c.2) (columns df) → Forall (λ c, Q c.2) (columns df')) ∧
  (NoDup (names df) → NoDup (names df')).
Proof.
  intros HQ. unfold date_features.
  destruct (getitem col df) as [s|] eqn:Hs; [|intros [= <-]; done].
  destruct (mapM to_datetime (s_values s)) as [ds|] eqn:Hds; simpl; [|done].
  intros Hdrop. split.
  - intros Hall. apply (drop_columns_Forall _ _ _ _ Hdrop).
    repeat apply setitem_Forall; try done; by apply (HQ s).
  - intros Hnd. apply (drop_columns_NoDup _ _ _ Hdrop).
    by repeat apply setitem_NoDup.
Qed.

(** Every cell handed to the clustering is a number: no missing value and
    no text reaches [KMeans], as long as no cell of a date column is read as
    the missing date [NaT].  Line 71 fills the numeric columns that have a
    median, and a numeric column without one is turned into text by line 72,
    so that line 85 no longer selects it; the year, month and day of a date
    column are whole numbers where every date is present.  The upload is one
    [read_csv] can produce: distinct column labels, and numbers or missing
    cells in the integer and float columns.  [dfp] is the frame as line 72
    leaves it, the one whose date columns line 78 parses. *)
Theorem clustering_sees_numbers_only raw dfp df X :
  NoDup (names raw) → well_typed raw →
  preprocess raw = Some dfp →
  (∀ col s v, col ∈ date_cols → getitem col dfp = Some s → v ∈ s_values s →
              to_datetime v ≠ Some None) →
  prepare raw = Some df → X_segment df = Some X →
  Forall (λ c, Forall (λ v, is_num v = true) (s_values c.2)) (columns X).
Proof.
  intros Hnd Hwt Hpre0 Hdated Hprep HX.
  destruct (prepare_inv raw df Hprep) as (df0 & Hpre & Hdates).
  assert (df0 = dfp) as -> by congruence. clear Hpre0.
  destruct (preprocess_columns raw dfp Hpre) as [amt Hdfp].
  set (Q := λ s : Series, s_dtype s = int64 ∨ s_dtype s = float64 →
                          Forall (λ v, is_num v = true) (s_values s)).
  assert (Forall (λ c, Q c.2) (columns df) ∧ NoDup (names df)) as [Hclean Hnd'].
  { apply convert_dates_inv in Hdates as (df1 & H1 & H2).
    assert (∀ s ds f, getitem "policy_start_date" dfp = Some s →
              mapM to_datetime (s_values s) = Some ds → Q (date_part f ds)) as HQ1.
    { intros s ds f Hs Hds _. apply date_part_numbers, (parsed_dates _ _ Hds).
      intros v Hv. apply (Hdated "policy_start_date" s v); [|done|done].
      unfold date_cols. by left. }
    assert (∀ s ds f, getitem "claim_date" df1 = Some s →
              mapM to_datetime (s_values s) = Some ds → Q (date_part f ds)) as HQ2.
    { intros s ds f Hs Hds _. apply date_part_numbers, (parsed_dates _ _ Hds).
      rewrite (date_features_keeps "claim_date" "policy_start_date" dfp df1) in Hs
        by done.
      intros v Hv. apply (Hdated "claim_date" s v); [|done|done].
      unfold date_cols. right. by left. }
    destruct (date_features_invariants Q _ _ _ HQ1 H1) as [A1 B1].
    destruct (date_features_invariants Q _ _ _ HQ2 H2) as [A2 B2].
    subst dfp. split.
    - apply A2, A1. unfold fillna_unknown, fillna_median. simpl.
      rewrite map_map. apply Forall_fmap. simpl.
      assert (Forall (λ c, s_dtype c.2 = int64 ∨ s_dtype c.2 = float64 →
                Forall (λ v, is_num v = true ∨ v = NaN) (s_values c.2))
                (columns (setitem claim_risk (raw_labels amt) raw))) as Hwt'.
      { apply (setitem_Forall (λ s, s_dtype s = int64 ∨ s_dtype s = float64 →
                Forall (λ v, is_num v = true ∨ v = NaN) (s_values s))); [done|].
        intros _. simpl. apply Forall_fmap, Forall_forall. intros v _. simpl.
        left. by destruct (cell_ge _ _). }
      eapply Forall_impl; [exact Hwt'|]. intros c Hc. simpl.
      exact (imputed_numbers c.2 Hc).
    - apply B2, B1. unfold fillna_unknown. rewrite names_map_snd.
      unfold fillna_median. cbn [columns]. rewrite fst_map_snd.
      by apply setitem_NoDup. }
  rewrite X_segment_columns in HX. injection HX as <-. simpl.
  apply Forall_forall. intros c [_ Hc]%list_elem_of_filter.
  apply elem_of_selected in Hc as [Hc Hnum].
  unfold numeric_cols in Hnum.
  apply list_elem_of_fmap in Hnum as (c' & Heq & [Hdt Hc']%list_elem_of_filter).
  assert (c'.2 = c.2) as Hsame.
  { assert (lookup_col c.1 (columns df) = Some c.2) as H1
      by (apply lookup_col_NoDup; [done|by destruct c]).
    assert (lookup_col c.1 (columns df) = Some c'.2) as H2
      by (apply lookup_col_NoDup; [done|rewrite Heq; by destruct c']).
    congruence. }
  rewrite <- Hsame. by apply (proj1 (Forall_forall _ _) Hclean c' Hc').
Qed.

End Clustering.

Lemma clustering_sees_numbers_only_witness :
  NoDup (names demo_raw) ∧ well_typed demo_raw ∧
  match preprocess demo_raw with
  | Some dfp =>
      (∀ col s v, col ∈ date_cols → getitem col dfp = Some s → v ∈ s_values s →
                  @to_datetime demo_lib v ≠ Some None) ∧
      match @prepare demo_lib demo_raw with
      | Some df =>
          match X_segment df with
          | Some X =>
              Forall (λ c, Forall (λ v, is_num v = true) (s_values c.2)) (columns X)
          | None => False
          end
      | None => False
      end
  | None => False
  end.
Proof.
  assert (NoDup (names demo_raw)) as Hnd
    by (apply (bool_decide_unpack _); vm_compute; exact I).
  assert (well_typed demo_raw) as Hwt
    by (apply (bool_decide_unpack _); vm_compute; exact I).
  split; [exact Hnd|]. split; [exact Hwt|].
  destruct (preprocess demo_raw) as [dfp|] eqn:Hpre;
    [|vm_compute in Hpre; discriminate Hpre].
  assert (∀ col s v, col ∈ date_cols → getitem col dfp = Some s → v ∈ s_values s →
                     @to_datetime demo_lib v ≠ Some None) as Hdated
    by (intros col s v _ _ _; discriminate).
  split; [exact Hdated|].
  assert (bool_decide (is_Some (@prepare demo_lib demo_raw ≫= X_segment)) = true)
    as Hsome by (vm_compute; reflexivity).
  destruct (@prepare demo_lib demo_raw) as [df|] eqn:Hprep; [|discriminate Hsome].
  simpl in Hsome.
  destruct (X_segment df) as [X|] eqn:HX; [|discriminate Hsome].
  exact (@clustering_sees_numbers_only demo_lib demo_raw dfp df X Hnd Hwt Hpre Hdated
           Hprep HX).
Defined.

(** Where a date is read as [NaT], its year is a missing value in a float
    column, which line 85 selects: the clustering is then handed a missing
    value. *)
Example not_a_time_reaches_clustering :
  (@prepare nat_lib demo_not_a_time ≫= X_segment) ≫= getitem "claim_date_year"
  = Some (mkSeries float64 [Fz 2024; NaN; Fz 2024]).
Proof. vm_compute. reflexivity. Qed.

(** ** The region under a clicked marker (lines 191 and 428-433) *)

Lemma lstrip_app_space pre s : lstrip pre = "" → lstrip (pre +:+ s) = lstrip s.
Proof.
  induction pre as [|c pre IH]; [done|]. simpl.
  destruct (isspace c); [exact IH|done].
Qed.

Lemma before_colon_app_space pre s :
  lstrip pre = "" → before_colon (pre +:+ s) = pre +:+ before_colon s.
Proof.
  induction pre as [|c pre IH]; [done|]. simpl.
  destruct (isspace c) eqn:Hc; [|done]. intros Hpre.
  destruct (Ascii.eqb c ":") eqn:Hcolon.
  - apply Ascii.eqb_eq in Hcolon. by subst c.
  - by rewrite IH.
Qed.

Lemma before_colon_app s t :
  before_colon s = s → before_colon (s +:+ String ":" t) = s.
Proof.
  induction s as [|c s IH]; simpl.
  - done.
  - destruct (Ascii.eqb c ":"); [done|]. intros [= Hs]. f_equal. by apply IH.
Qed.

(** A string that ends in a character that is no space is stripped on the
    right up to that character. *)
Lemma rstrip_app p c s :
  isspace c = false → rstrip (p +:+ String c s) = p +:+ String c (rstrip s).
Proof.
  intros Hc. induction p as [|a p IH].
  - simpl. destruct (rstrip s); by rewrite ?Hc.
  - simpl in *. rewrite IH. by destruct p.
Qed.
Lemma string_app_assoc (a b c : string) : (a +:+ b) +:+ c = a +:+ b +:+ c.
Proof.
  induction a as [|x a IH]; [done|].
  change (String x ((a +:+ b) +:+ c) = String x (a +:+ b +:+ c)). by rewrite IH.
Qed.

Lemma before_colon_app_plain s x :
  before_colon s = s → before_colon (s +:+ x) = s +:+ before_colon x.
Proof.
  induction s as [|c s IH]; [done|]. simpl.
  destruct (Ascii.eqb c ":"); [done|]. intros [= Hs]. by rewrite IH.
Qed.

(** What line 428 extracts from the tooltip of a marker: the location
    followed by the segment in brackets. *)
Lemma region_of_tooltip a loc segment risk_level percent pre post :
  lstrip pre = "" → isspace a = false → before_colon (String a loc) = String a loc →
  ∃ z, strip (before_colon (pre +:+ tooltip (String a loc) segment risk_level percent
                            +:+ post))
       = String a loc +:+ " (Segment" +:+ z ∧
       (before_colon segment = segment → z = " " +:+ segment +:+ ")").
Proof.
  intros Hpre Ha Hloc. unfold tooltip. rewrite !string_app_assoc.
  rewrite before_colon_app_space by done.
  rewrite (before_colon_app_plain (String a loc)) by done.
  unfold strip. rewrite lstrip_app_space by done.
  change (lstrip (String a loc +:+ ?x)) with
    (if isspace a then lstrip (loc +:+ x) else String a loc +:+ x).
  rewrite Ha.
  set (w := before_colon (segment +:+ "): " +:+ risk_level +:+ " Risk (" +:+ percent
                          +:+ "%)" +:+ post)).
  change (before_colon (" (Segment " +:+ ?x)) with (" (Segment " +:+ before_colon x).
  fold w.
  change (String a loc +:+ " (Segment " +:+ w)
    with (String a loc +:+ " (Segmen" +:+ String "t" (" " +:+ w)).
  rewrite <- string_app_assoc, rstrip_app by done. rewrite string_app_assoc.
  exists (rstrip (" " +:+ w)). split; [done|].
  intros Hseg. unfold w.
  change (segment +:+ "): " +:+ ?x) with (segment +:+ ")" +:+ String ":" (" " +:+ x)).
  rewrite <- string_app_assoc, before_colon_app.
  - rewrite <- string_app_assoc. change ")" with (String ")" "") at 1.
    by rewrite (rstrip_app (" " +:+ segment) ")" "").
  - by rewrite before_colon_app_plain.
Qed.

(** The region drill-down under the map never shows a region of the map.
    Whatever marker is clicked, the name line 428 extracts from its tooltip
    is the location followed by the segment in brackets, which is none of
    the four regions; so when every record lies in one of the four regions,
    line 432 selects no row and line 463 reports that no data is available.
    [pre] and [post] are what [st_folium] may put around the tooltip text,
    white space in front of it. *)
Theorem clicked_marker_selects_no_region location segment risk_level percent pre post :
  location ∈ region_coords.*1 → lstrip pre = "" →
  ∃ r, selected_region
         (Some (pre +:+ tooltip location segment risk_level percent +:+ post)) = Some r ∧
       r ≠ "" ∧ (r ∉ region_coords.*1) ∧
       (before_colon segment = segment →
        r = location +:+ " (Segment " +:+ segment +:+ ")") ∧
       ∀ df locs, getitem "location" df = Some locs →
         Forall (λ v, ∃ l, v = Str l ∧ l ∈ region_coords.*1) (s_values locs) →
         ∃ rd, region_data r df = Some rd ∧ nrows rd = 0.
Proof.
  intros Hloc Hpre.
  assert (∃ a loc, location = String a loc ∧ isspace a = false
                   ∧ before_colon location = location) as (a & loc & Heq & Ha & Hplain).
  { unfold region_coords in Hloc. simpl in Hloc.
    rewrite !elem_of_cons, elem_of_nil in Hloc.
    destruct Hloc as [->|[->|[->|[->|[]]]]]; by eexists _, _. }
  rewrite Heq in Hplain.
  destruct (region_of_tooltip a loc segment risk_level percent pre post Hpre Ha Hplain)
    as (z & Hr & Hz).
  exists (location +:+ " (Segment" +:+ z).
  assert ((location +:+ " (Segment" +:+ z) ∉ region_coords.*1) as Hout.
  { unfold region_coords. simpl. rewrite !elem_of_cons, elem_of_nil.
    unfold region_coords in Hloc. simpl in Hloc.
    rewrite !elem_of_cons, elem_of_nil in Hloc.
    destruct Hloc as [->|[->|[->|[->|[]]]]]; simpl; intros [H|[H|[H|[H|[]]]]];
      discriminate H. }
  split; [|split; [rewrite Heq; discriminate|split; [exact Hout|split]]].
  - unfold selected_region. rewrite decide_False.
    + by rewrite Heq, Hr.
    + rewrite Heq. unfold tooltip. intros H. destruct pre; simpl in H; discriminate H.
  - intros Hseg. rewrite (Hz Hseg). reflexivity.
  - intros df locs Hlocs Hall. unfold region_data. rewrite Hlocs. simpl.
    eexists. split; [reflexivity|]. simpl. apply length_zero_iff_nil.
    apply filter_none. intros i Hi%elem_of_seq Hmatch. apply Is_true_true in Hmatch.
    assert (s_values locs !!! i ∈ s_values locs) as Hin
      by (apply list_elem_of_lookup_total_2; lia).
    destruct (proj1 (Forall_forall _ _) Hall _ Hin) as (l & Hl & Hreg).
    rewrite Hl in Hmatch. simpl in Hmatch. apply String.eqb_eq in Hmatch.
    apply Hout. by rewrite <- Hmatch.
Qed.

Lemma clicked_marker_selects_no_region_witness :
  "Manzini" ∈ region_coords.*1 ∧ lstrip " " = "" ∧
  ∃ r, selected_region (Some (" " +:+ tooltip "Manzini" "2" "High" "66.7" +:+ "")) = Some r ∧
       r ≠ "" ∧ (r ∉ region_coords.*1) ∧
       (before_colon "2" = "2" → r = "Manzini" +:+ " (Segment " +:+ "2" +:+ ")") ∧
       ∀ df locs, getitem "location" df = Some locs →
         Forall (λ v, ∃ l, v = Str l ∧ l ∈ region_coords.*1) (s_values locs) →
         ∃ rd, region_data r df = Some rd ∧ nrows rd = 0.
Proof.
  assert ("Manzini" ∈ region_coords.*1) as Hin
    by (apply (bool_decide_unpack _); vm_compute; exact I).
  split; [exact Hin|]. split; [reflexivity|].
  exact (clicked_marker_selects_no_region "Manzini" "2" "High" "66.7" " " "" Hin eq_refl).
Defined.

(** ** The prediction log (lines 250-259 and 300-304) *)

Lemma log_prediction_other fs p path :
  path ≠ log_file → log_prediction fs p !! path = fs !! path.
Proof.
  intros Hne. unfold log_prediction.
  destruct (fs !! log_file); by rewrite lookup_insert_ne.
Qed.

Lemma log_predictions_existing ps fs lines :
  fs !! log_file = Some lines →
  foldl log_prediction fs ps !! log_file = Some (lines ++ map log_line ps).
Proof.
  revert fs lines. induction ps as [|p ps IH]; intros fs lines Hfs; simpl.
  - by rewrite app_nil_r.
  - rewrite (IH _ (lines ++ [log_line p])).
    + by rewrite <- app_assoc.
    + unfold log_prediction. rewrite Hfs. by rewrite lookup_insert_eq.
Qed.

(** The log only grows.  Whatever predictions are made one after the other,
    a log that exists keeps every line it had and gains one line for each
    prediction, in order, with no second header; a log that does not exist
    is created with the header once, so that the trend plot reads back
    exactly the predictions made; and no other file is touched. *)
Theorem prediction_log_grows fs ps :
  (∀ lines, fs !! log_file = Some lines →
     foldl log_prediction fs ps !! log_file = Some (lines ++ map log_line ps)) ∧
  (fs !! log_file = None → ps ≠ [] →
     foldl log_prediction fs ps !! log_file = Some (log_header :: map log_line ps) ∧
     read_log (foldl log_prediction fs ps) = Some (map log_line ps)) ∧
  (∀ path, path ≠ log_file → foldl log_prediction fs ps !! path = fs !! path).
Proof.
  split; [|split].
  - intros lines. apply log_predictions_existing.
  - intros Hnone Hps. destruct ps as [|p ps]; [done|]. simpl.
    assert (foldl log_prediction (log_prediction fs p) ps !! log_file
            = Some (log_header :: log_line p :: map log_line ps)) as Hlog.
    { rewrite (log_predictions_existing ps _ [log_header; log_line p]); [done|].
      unfold log_prediction. rewrite Hnone. by rewrite lookup_insert_eq. }
    split; [done|]. unfold read_log. by rewrite Hlog.
  - intros path Hne. revert fs. induction ps as [|p ps IH]; intros fs; [done|].
    simpl. by rewrite IH, log_prediction_other.
Qed.

(** ** The risk map needs the coordinates of the records (lines 195-203) *)

Section RiskMapNeeds.
Context `{L : Library}.
Variable folium_map : Type.
Variable draw_markers :
  DataFrame → folium_map → list string → list string → list string → option folium_map.
Variable add_heat_map : list (cell * cell) → folium_map → option folium_map.

Lemma convert_dates_nrows df df' : convert_dates df = Some df' → nrows df' = nrows df.
Proof.
  intros (df1 & H1 & H2)%convert_dates_inv.
  pose proof (date_features_spec "policy_start_date" df df1
                ltac:(done) ltac:(done) ltac:(done) ltac:(done) ltac:(done) ltac:(done) H1)
    as (Hn1 & _).
  pose proof (date_features_spec "claim_date" df1 df'
                ltac:(done) ltac:(done) ltac:(done) ltac:(done) ltac:(done) ltac:(done) H2)
    as (Hn2 & _).
  congruence.
Qed.

Lemma assign_segments_inv (ambient : generator) df0 df :
  assign_segments ambient df0 = Some df →
  ∃ s, df = setitem customer_segment s df0.
Proof.
  unfold assign_segments. intros H.
  destruct (X_segment df0) as [X|]; simpl in H; [|done].
  destruct (KMeans_fit_predict _ _ _) as [labels|]; simpl in H; [|done].
  injection H as <-. by eexists.
Qed.

(** An upload without a [Latitude] or without a [Longitude] column never
    gets its risk map once one of its records is labelled high-risk: line
    195 asks for the coordinates of that record, and the [KeyError] ends
    [load_map], whatever the filters and whatever the markers drawn
    before. *)
Theorem map_needs_coordinates (ambient : generator) raw df0 df col j
    init_map levels regions segments :
  col ∈ ["Latitude"; "Longitude"] → (col ∉ names raw) →
  prepare raw = Some df0 → assign_segments ambient df0 = Some df →
  j < nrows df → cell_at claim_risk df j = Some (Fz 1) →
  load_map folium_map draw_markers add_heat_map init_map df levels regions segments
  = None.
Proof.
  intros Hcol Hnot Hprep Hseg Hlt Hone.
  assert (cell_at col df j = None) as Hnone.
  { unfold cell_at, getitem.
    rewrite (proj2 (lookup_col_None col _)); [done|]. intros Hin.
    apply (segmented_names ambient raw df0 _ col Hprep Hseg) in Hin as [Hin|Hin]; [done|].
    revert Hin. rewrite !elem_of_cons, elem_of_nil in Hcol.
    destruct Hcol as [->|[->|[]]]; apply (bool_decide_unpack _); vm_compute; exact I. }
  unfold load_map, plot_from_df.
  destruct (draw_markers _ _ _ _ _) as [m1|]; [|done]. simpl.
  assert (heat_data df = None) as ->; [|done].
  unfold heat_data.
  rewrite (proj2 (mapM_None _ _)); [done|].
  apply Exists_exists. exists j. split; [apply elem_of_seq; lia|].
  unfold heat_point. rewrite Hone. simpl.
  rewrite !elem_of_cons, elem_of_nil in Hcol. destruct Hcol as [->|[->|[]]].
  - by rewrite Hnone.
  - destruct (cell_at "Latitude" _ j); simpl; [|done]. by rewrite Hnone.
Qed.

End RiskMapNeeds.

Lemma map_needs_coordinates_witness :
  "Latitude" ∈ ["Latitude"; "Longitude"] ∧ ("Latitude" ∉ names demo_raw) ∧
  match @prepare demo_lib demo_raw with
  | Some df0 =>
      match @assign_segments demo_lib 0%Z df0 with
      | Some df =>
          9 < nrows df ∧ cell_at claim_risk df 9 = Some (Fz 1) ∧
          load_map unit (λ _ m _ _ _, Some m) (λ _ m, Some m) tt df
            ["Low"; "Medium"; "High"] ["Manzini"] ["0"] = None
      | None => False
      end
  | None => False
  end.
Proof.
  assert ("Latitude" ∈ ["Latitude"; "Longitude"]) as Hcol
    by (apply (bool_decide_unpack _); vm_compute; exact I).
  assert ("Latitude" ∉ names demo_raw) as Hnot
    by (apply (bool_decide_unpack _); vm_compute; exact I).
  split; [exact Hcol|]. split; [exact Hnot|].
  assert (((@prepare demo_lib demo_raw ≫= @assign_segments demo_lib 0%Z)
             ≫= λ df, Some (nrows df, cell_at claim_risk df 9))
          = Some (10, Some (Fz 1))) as Hrow by (vm_compute; reflexivity).
  destruct (@prepare demo_lib demo_raw) as [df0|] eqn:H0; [|discriminate Hrow].
  simpl in Hrow.
  destruct (@assign_segments demo_lib 0%Z df0) as [df|] eqn:H1; [|discriminate Hrow].
  simpl in Hrow. injection Hrow as Hn Hone.
  assert (9 < nrows df) as Hlt by (rewrite Hn; lia).
  split; [exact Hlt|]. split; [exact Hone|].
  exact (@map_needs_coordinates demo_lib unit (λ _ m _ _ _, Some m) (λ _ m, Some m)
           0%Z demo_raw df0 df "Latitude" 9 tt
           ["Low"; "Medium"; "High"] ["Manzini"] ["0"]
           Hcol Hnot H0 H1 Hlt Hone).
Defined.
